(** * Recalls: symbol cache and bounded call-tree construction

    A shallow embedding of the analysis core of the Recalls extension:
    the workspace symbol cache ([workspace-symbol-cache.ts]), the backward
    analyser [MethodCallAnalysisService] ("who calls this method") and the
    forward analyser [InternalMethodCallAnalysisService] ("what does this
    method call").  The editor services the code talks to (documents,
    symbol provider, definition provider, file enumeration) are gathered in
    a [World] record; everything else is translated function by function.
    The lookup of the method at the cursor ([RecallsCommands]) and the
    counts and labels of the two tree views are translated as well. *)

From Stdlib Require Import ZArith List String Ascii Bool Lia Sorted Permutation.
From stdpp Require Import gmap strings list pretty.

Set Warnings "-register-all".
Local Open Scope string_scope.
Local Open Scope nat_scope.
Local Open Scope list_scope.

(** ** Editor value types *)

(** [vscode.Position]: zero-based line and character. *)
Module Position.
Record t := mk { line : nat; character : nat }.

#[global] Instance eq_dec : EqDecision t.
Proof. solve_decision. Defined.

Definition isBefore (a b : t) : bool :=
  (line a <? line b) || ((line a =? line b) && (character a <? character b)).

Definition isBeforeOrEqual (a b : t) : bool :=
  (line a <? line b) || ((line a =? line b) && (character a <=? character b)).

Definition isEqual (a b : t) : bool :=
  (line a =? line b) && (character a =? character b).
End Position.

(** [vscode.Range]: the constructor orders its two ends. *)
Module Range.
Record t := mk { start : Position.t; end_ : Position.t }.

#[global] Instance eq_dec : EqDecision t.
Proof. solve_decision. Defined.

Definition new (a b : Position.t) : t :=
  if Position.isBefore b a then mk b a else mk a b.

Definition containsPosition (r : t) (p : Position.t) : bool :=
  negb (Position.isBefore p (start r)) && negb (Position.isBefore (end_ r) p).

Definition contains (r other : t) : bool :=
  containsPosition r (start other) && containsPosition r (end_ other).

Definition isEqual (r other : t) : bool :=
  Position.isEqual (start r) (start other) && Position.isEqual (end_ r) (end_ other).
End Range.

(** [vscode.Uri], reduced to the two views the code reads: the string form
    used as map key and the file-system path. *)
Module Uri.
Record t := mk { toString : string; fsPath : string }.

#[global] Instance eq_dec : EqDecision t.
Proof. solve_decision. Defined.
End Uri.

Module Location.
Record t := mk { uri : Uri.t; range : Range.t }.
End Location.

Module LocationLink.
Record t := mk { targetUri : Uri.t; targetRange : Range.t }.
End LocationLink.

Module SymbolKind.
Inductive t :=
  | File | Module_ | Namespace | Package | Class | Method | Property | Field
  | Constructor | Enum | Interface | Function | Variable_ | Constant | String_
  | Number | Boolean | Array | Object | Key | Null | EnumMember | Struct
  | Event | Operator | TypeParameter.

#[global] Instance eq_dec : EqDecision t.
Proof. solve_decision. Defined.
End SymbolKind.

(** [vscode.DocumentSymbol]: a node of a file's outline. *)
Module DocumentSymbol.
Inductive t := mk {
  name : string;
  kind : SymbolKind.t;
  range : Range.t;
  selectionRange : Range.t;
  children : list t
}.
End DocumentSymbol.

(** Pre-order listing of a symbol forest: a symbol, then its children's
    subtrees, then its later siblings. *)
Fixpoint preorderSymbol (s : DocumentSymbol.t) : list DocumentSymbol.t :=
  s :: (fix each (l : list DocumentSymbol.t) : list DocumentSymbol.t :=
          match l with
          | [] => []
          | c :: l' => preorderSymbol c ++ each l'
          end) (DocumentSymbol.children s).

Definition preorder (symbols : list DocumentSymbol.t) : list DocumentSymbol.t :=
  flat_map preorderSymbol symbols.

(** ** Strings as the code uses them *)

Definition isWordChar (c : ascii) : bool :=
  let n := nat_of_ascii c in
  ((48 <=? n) && (n <=? 57)) || ((65 <=? n) && (n <=? 90))
  || ((97 <=? n) && (n <=? 122)) || (n =? 95).

Definition isDigitChar (c : ascii) : bool :=
  let n := nat_of_ascii c in (48 <=? n) && (n <=? 57).

(** The regular expression class [\s], on code units below 256. *)
Definition isSpaceChar (c : ascii) : bool :=
  let n := nat_of_ascii c in
  ((9 <=? n) && (n <=? 13)) || (n =? 32) || (n =? 160).

Definition lowerChar (c : ascii) : ascii :=
  let n := nat_of_ascii c in
  if (65 <=? n) && (n <=? 90) then ascii_of_nat (n + 32) else c.

Fixpoint toLowerCase (s : string) : string :=
  match s with
  | EmptyString => EmptyString
  | String c s' => String (lowerChar c) (toLowerCase s')
  end.

Definition startsWith (s pre : string) : bool := String.prefix pre s.

Definition includes (s sub : string) : bool :=
  match String.index 0 sub s with Some _ => true | None => false end.

(** [s.lastIndexOf(c)], [None] standing for -1. *)
Fixpoint lastIndexOf (c : ascii) (s : string) : option nat :=
  match s with
  | EmptyString => None
  | String a s' =>
      match lastIndexOf c s' with
      | Some i => Some (S i)
      | None => if Ascii.eqb a c then Some 0 else None
      end
  end.

(** [p.substring(0, p.lastIndexOf('/'))]: a negative end counts as 0. *)
Definition dirnameOf (p : string) : string :=
  match lastIndexOf "/"%char p with
  | Some i => String.substring 0 i p
  | None => EmptyString
  end.

(** ** Call-like tokens of a text *)

Module CallMatch.
Record t := mk { methodName : string; index : nat }.
End CallMatch.

Fixpoint spanChars (p : ascii -> bool) (l : list ascii) : list ascii * list ascii :=
  match l with
  | [] => ([], [])
  | c :: l' =>
      if p c then let '(run, rest) := spanChars p l' in (c :: run, rest)
      else ([], l)
  end.

(** [(\w+)\s*\(] anchored at the head of [l]: the captured name and the
    number of code units consumed.  Both runs are taken greedily; a
    shorter run would be followed by a character of the same class, which
    neither [\s] nor an opening parenthesis can match, so backtracking
    never finds another match. *)
Definition matchCallAt (l : list ascii) : option (list ascii * nat) :=
  let '(w, afterWord) := spanChars isWordChar l in
  match w with
  | [] => None
  | _ :: _ =>
      let '(sp, afterSpace) := spanChars isSpaceChar afterWord in
      match afterSpace with
      | c :: _ =>
          if Ascii.eqb c "("%char
          then Some (w, (length w + length sp + 1)%nat)
          else None
      | [] => None
      end
  end.

Fixpoint isPrefixOf (p l : list ascii) : bool :=
  match p, l with
  | [], _ => true
  | a :: p', b :: l' => Ascii.eqb a b && isPrefixOf p' l'
  | _ :: _, [] => false
  end.

(** [hay.indexOf(needle)], [None] standing for -1. *)
Fixpoint indexOf (needle hay : list ascii) : option nat :=
  if isPrefixOf needle hay then Some 0
  else match hay with
       | [] => None
       | _ :: hay' => option_map S (indexOf needle hay')
       end.

(** One attempt of [/(?:^|[^.\w])(\w+)\s*\(/] at the current position:
    the whole match [match[0]] and the capture [match[1]]. *)
Definition methodCallRegexAt (atStart : bool) (l : list ascii)
  : option (list ascii * list ascii) :=
  let viaAnchor :=
    if atStart then
      match matchCallAt l with
      | Some (w, n) => Some (firstn n l, w)
      | None => None
      end
    else None in
  match viaAnchor with
  | Some r => Some r
  | None =>
      match l with
      | c :: l' =>
          if negb (Ascii.eqb c "."%char) && negb (isWordChar c) then
            match matchCallAt l' with
            | Some (w, n) => Some (c :: firstn n l', w)
            | None => None
            end
          else None
      | [] => None
      end
  end.

(** The [exec] loop of the first expression over the text from offset [i]:
    after a match the search resumes at [lastIndex], i.e. [skip] code
    units are passed over. *)
Fixpoint methodCallRegexExec (atStart : bool) (i skip : nat) (l : list ascii)
  : list CallMatch.t :=
  match l with
  | [] => []
  | _ :: l' =>
      match skip with
      | S k => methodCallRegexExec false (S i) k l'
      | O =>
          match methodCallRegexAt atStart l with
          | Some (whole, methodName) =>
              let methodStartIndex :=
                match indexOf methodName whole with
                | Some k => (i + k)%nat
                | None => Nat.pred i
                end in
              CallMatch.mk (string_of_list_ascii methodName) methodStartIndex
                :: methodCallRegexExec false (S i) (Nat.pred (length whole)) l'
          | None => methodCallRegexExec false (S i) 0 l'
          end
      end
  end.

(** The [exec] loop of [/\.(\w+)\s*\(/]. *)
Fixpoint propertyMethodRegexExec (i skip : nat) (l : list ascii)
  : list CallMatch.t :=
  match l with
  | [] => []
  | c :: l' =>
      match skip with
      | S k => propertyMethodRegexExec (S i) k l'
      | O =>
          if Ascii.eqb c "."%char then
            match matchCallAt l' with
            | Some (w, n) =>
                CallMatch.mk (string_of_list_ascii w) (i + 1)
                  :: propertyMethodRegexExec (S i) n l'
            | None => propertyMethodRegexExec (S i) 0 l'
            end
          else propertyMethodRegexExec (S i) 0 l'
      end
  end.

Definition findAllMethodCallMatches (text : string) : list CallMatch.t :=
  let l := list_ascii_of_string text in
  methodCallRegexExec true 0 0 l ++ propertyMethodRegexExec 0 0 l.

Definition builtInMethods : list string :=
  [ "console"; "log"; "error"; "warn"; "info"; "debug";
    "push"; "pop"; "shift"; "unshift"; "slice"; "splice";
    "map"; "filter"; "reduce"; "forEach"; "find"; "some"; "every";
    "toString"; "valueOf"; "hasOwnProperty"; "isPrototypeOf";
    "length"; "indexOf"; "lastIndexOf"; "charAt"; "charCodeAt";
    "if"; "else"; "for"; "while"; "do"; "switch"; "case"; "return";
    "var"; "let"; "const"; "function"; "class"; "import"; "export";
    "try"; "catch"; "finally"; "throw"; "new"; "delete"; "typeof";
    "instanceof"; "in"; "of"; "true"; "false"; "null"; "undefined" ].

Definition startsWithDigit (s : string) : bool :=
  match s with
  | String c _ => isDigitChar c
  | EmptyString => false
  end.

Definition isBuiltInOrCommon (methodName : string) : bool :=
  bool_decide (toLowerCase methodName ∈ builtInMethods)
  || (String.length methodName <? 2)
  || startsWithDigit methodName.

(** [Array.prototype.sort] with the comparator [a.index - b.index]: a
    stable sort on the offset.  An element goes before the first later
    element whose offset is not smaller. *)
Fixpoint insertByIndex (m : CallMatch.t) (l : list CallMatch.t) : list CallMatch.t :=
  match l with
  | [] => [m]
  | x :: l' =>
      if CallMatch.index x <? CallMatch.index m then x :: insertByIndex m l'
      else m :: l
  end.

Definition sortByIndex (l : list CallMatch.t) : list CallMatch.t :=
  fold_right insertByIndex [] l.


(** ** Documents and the editor's services *)

(** [vscode.TextDocument], through the four members the code calls.
    [getText None] is the whole text. *)
Module TextDocument.
Record t := mk {
  version : nat;
  getText : option Range.t -> string;
  offsetAt : Position.t -> nat;
  positionAt : nat -> Position.t
}.
End TextDocument.

(** How a request to an editor command ends. *)
Inductive Reply (A : Type) : Type :=
  | Rejects : Reply A
  | Undefined : Reply A
  | Resolves : A -> Reply A.
Arguments Rejects {A}.
Arguments Undefined {A}.
Arguments Resolves {A} _.

(** The services of the host editor, fixed for the time of one operation.
    [None] for a document or for the file enumeration is a rejected
    promise; [now] is the reading of the clock. *)
Module World.
Record t := mk {
  openTextDocument : Uri.t -> option TextDocument.t;
  executeDocumentSymbolProvider : Uri.t -> Reply (list DocumentSymbol.t);
  executeDefinitionProvider : Uri.t -> Position.t -> Reply (list LocationLink.t);
  findFiles : option (list Uri.t);
  now : nat
}.
End World.

(** A document over a text whose lines end in a line feed. *)
Definition isLineFeed (c : ascii) : bool := Ascii.eqb c "010"%char.

Fixpoint positionAtFrom (l : list ascii) (offset line col : nat) : Position.t :=
  match offset, l with
  | S o, c :: l' =>
      if isLineFeed c then positionAtFrom l' o (S line) 0
      else positionAtFrom l' o line (S col)
  | _, _ => Position.mk line col
  end.

Fixpoint offsetAtFrom (l : list ascii) (line col off : nat) : nat :=
  match l with
  | [] => off
  | c :: l' =>
      match line with
      | S ln =>
          if isLineFeed c then offsetAtFrom l' ln col (S off)
          else offsetAtFrom l' (S ln) col (S off)
      | O =>
          match col with
          | O => off
          | S k => if isLineFeed c then off else offsetAtFrom l' 0 k (S off)
          end
      end
  end.

Definition textDocumentOf (version : nat) (text : string) : TextDocument.t :=
  let l := list_ascii_of_string text in
  let offsetAt := fun p => offsetAtFrom l (Position.line p) (Position.character p) 0 in
  TextDocument.mk version
    (fun r =>
       match r with
       | None => text
       | Some r =>
           let a := offsetAt (Range.start r) in
           let b := offsetAt (Range.end_ r) in
           String.substring a (b - a) text
       end)
    offsetAt
    (fun offset => positionAtFrom l offset 0 0).

(** ** The workspace symbol cache *)

Module CachedSymbolInfo.
Record t := mk {
  uri : Uri.t;
  symbols : list DocumentSymbol.t;
  lastModified : nat;
  version : nat
}.
End CachedSymbolInfo.

Module CachedMethodInfo.
Record t := mk {
  methodName : string;
  uri : Uri.t;
  symbol : DocumentSymbol.t;
  filePath : string
}.
End CachedMethodInfo.

Module WorkspaceSymbolCache.

(** The two maps of the cache.  Neither is ever read in iteration order
    (only by key, by size, or by an order-insensitive sweep). *)
Record t := mk {
  symbolCache : gmap string CachedSymbolInfo.t;
  methodNameCache : gmap string (list CachedMethodInfo.t)
}.

Definition empty : t := mk ∅ ∅.

Definition isMethodSymbol (symbol : DocumentSymbol.t) : bool :=
  bool_decide (DocumentSymbol.kind symbol = SymbolKind.Method)
  || bool_decide (DocumentSymbol.kind symbol = SymbolKind.Function)
  || bool_decide (DocumentSymbol.kind symbol = SymbolKind.Constructor).

Definition fromFile (filePath : string) (info : CachedMethodInfo.t) : bool :=
  bool_decide (Uri.toString (CachedMethodInfo.uri info) = filePath).

(** The sweep of [removeMethodsFromCache] over one entry: the filtered
    list, or no entry at all when nothing is left. *)
Definition withoutFile (filePath : string) (methodInfos : list CachedMethodInfo.t)
  : option (list CachedMethodInfo.t) :=
  let filteredMethods := List.filter (fun info => negb (fromFile filePath info)) methodInfos in
  match filteredMethods with
  | [] => None
  | _ :: _ => Some filteredMethods
  end.

Definition removeMethodsFromCache (uri : Uri.t)
    (methodNameCache : gmap string (list CachedMethodInfo.t))
  : gmap string (list CachedMethodInfo.t) :=
  omap (withoutFile (Uri.toString uri)) methodNameCache.

Definition addMethod (uri : Uri.t) (symbol : DocumentSymbol.t)
    (methodNameCache : gmap string (list CachedMethodInfo.t))
  : gmap string (list CachedMethodInfo.t) :=
  let methodInfo :=
    CachedMethodInfo.mk (DocumentSymbol.name symbol) uri symbol (Uri.fsPath uri) in
  let existingMethods := default [] (methodNameCache !! DocumentSymbol.name symbol) in
  <[DocumentSymbol.name symbol := existingMethods ++ [methodInfo]]> methodNameCache.

(** [extractMethodsFromSymbols], one symbol at a time: the symbol itself
    when it is a method, then its children in order. *)
Fixpoint extractMethodsFromSymbol (uri : Uri.t) (symbol : DocumentSymbol.t)
    (methodNameCache : gmap string (list CachedMethodInfo.t))
  : gmap string (list CachedMethodInfo.t) :=
  let own :=
    if isMethodSymbol symbol then addMethod uri symbol methodNameCache
    else methodNameCache in
  (fix each (l : list DocumentSymbol.t) (acc : gmap string (list CachedMethodInfo.t)) :=
     match l with
     | [] => acc
     | c :: l' => each l' (extractMethodsFromSymbol uri c acc)
     end) (DocumentSymbol.children symbol) own.

Definition extractMethodsFromSymbols (uri : Uri.t) (symbols : list DocumentSymbol.t)
    (methodNameCache : gmap string (list CachedMethodInfo.t))
  : gmap string (list CachedMethodInfo.t) :=
  fold_left (fun acc symbol => extractMethodsFromSymbol uri symbol acc) symbols methodNameCache.

Definition buildMethodNameCacheForFile (uri : Uri.t) (symbols : list DocumentSymbol.t)
    (methodNameCache : gmap string (list CachedMethodInfo.t))
  : gmap string (list CachedMethodInfo.t) :=
  extractMethodsFromSymbols uri symbols (removeMethodsFromCache uri methodNameCache).

(** The body shared by [indexSingleFile] and [updateFileCache]: a document
    that cannot be opened, a provider that rejects and a provider that
    answers nothing all leave the cache as it was. *)
Definition storeFile (w : World.t) (uri : Uri.t) (c : t) : t :=
  match World.openTextDocument w uri with
  | None => c
  | Some document =>
      match World.executeDocumentSymbolProvider w uri with
      | Resolves symbols =>
          let cacheKey := Uri.toString uri in
          mk (<[cacheKey := CachedSymbolInfo.mk uri symbols (World.now w)
                               (TextDocument.version document)]> (symbolCache c))
             (buildMethodNameCacheForFile uri symbols (methodNameCache c))
      | Undefined | Rejects => c
      end
  end.

Definition indexSingleFile (w : World.t) (uri : Uri.t) (c : t) : t := storeFile w uri c.

Definition updateFileCache (w : World.t) (uri : Uri.t) (c : t) : t := storeFile w uri c.

Definition invalidateFileCache (uri : Uri.t) (c : t) : t :=
  let cacheKey := Uri.toString uri in
  match symbolCache c !! cacheKey with
  | Some _ => mk (delete cacheKey (symbolCache c)) (removeMethodsFromCache uri (methodNameCache c))
  | None => c
  end.

Definition getSymbolsForFile (w : World.t) (uri : Uri.t) (forceRefresh : bool) (c : t)
  : list DocumentSymbol.t * t :=
  let cacheKey := Uri.toString uri in
  let refetch :=
    let c' := updateFileCache w uri c in
    (match symbolCache c' !! cacheKey with
     | Some updated => CachedSymbolInfo.symbols updated
     | None => []
     end, c') in
  match symbolCache c !! cacheKey with
  | Some cached =>
      if forceRefresh then refetch
      else
        match World.openTextDocument w uri with
        | Some document =>
            if TextDocument.version document =? CachedSymbolInfo.version cached
            then (CachedSymbolInfo.symbols cached, c)
            else refetch
        | None => (CachedSymbolInfo.symbols cached, c)
        end
  | None => refetch
  end.

Definition clearMethodCache (c : t) : t := mk (symbolCache c) ∅.

Definition findMethodsByName (c : t) (methodName : string) : list CachedMethodInfo.t :=
  default [] (methodNameCache c !! methodName).

Definition findMethodDefinition (c : t) (methodName : string) (contextUri : option Uri.t)
  : option CachedMethodInfo.t :=
  let methods := findMethodsByName c methodName in
  match methods with
  | [] => None
  | [only] => Some only
  | first :: _ :: _ =>
      match contextUri with
      | Some contextUri =>
          let contextPath := Uri.toString contextUri in
          match List.find (fun method =>
                   bool_decide (Uri.toString (CachedMethodInfo.uri method) = contextPath)) methods with
          | Some sameFile => Some sameFile
          | None =>
              let contextDir := dirnameOf (Uri.fsPath contextUri) in
              match List.find (fun method =>
                       startsWith (CachedMethodInfo.filePath method) contextDir) methods with
              | Some sameDir => Some sameDir
              | None => Some first
              end
          end
      | None => Some first
      end
  end.

Definition getMethodCacheStats (c : t) : nat * nat :=
  (map_fold (fun _ methods totalMethods => totalMethods + length methods) 0 (methodNameCache c),
   size (methodNameCache c)).

End WorkspaceSymbolCache.

(** ** The reference index *)

Module MethodReferenceInfo.
Record t := mk {
  methodName : string;
  uri : Uri.t;
  range : Range.t;
  filePath : string;
  containingMethod : option string
}.
End MethodReferenceInfo.

Module ReferenceIndex.

(** Modelled from the spec: the reference half of the cache
    ([findMethodReferences], the [totalReferences] statistic and the
    per-file rebuild) is called by the backward analyser but is not part
    of the cache source at hand.  Following the Reference Index contract,
    the index maps a method name to its call-site records; a file
    contributes one record for each occurrence of an identifier followed
    by an opening parenthesis, found by the extraction rule of the forward
    analyser and taken in order of position.  The analyser reads the
    index; it never rebuilds it during a run. *)
Definition referencesInFile (uri : Uri.t) (document : TextDocument.t)
  : list MethodReferenceInfo.t :=
  map (fun m =>
         let startPos := TextDocument.positionAt document (CallMatch.index m) in
         let endPos := TextDocument.positionAt document
                         (CallMatch.index m + String.length (CallMatch.methodName m)) in
         MethodReferenceInfo.mk (CallMatch.methodName m) uri
           (Range.new startPos endPos) (Uri.fsPath uri) None)
      (sortByIndex (findAllMethodCallMatches (TextDocument.getText document None))).

(** Modelled from the spec: invalidating a file removes the records it
    contributed; a name left without records is dropped. *)
Definition withoutFile (filePath : string) (infos : list MethodReferenceInfo.t)
  : option (list MethodReferenceInfo.t) :=
  match List.filter (fun info =>
          negb (bool_decide (Uri.toString (MethodReferenceInfo.uri info) = filePath))) infos with
  | [] => None
  | kept => Some kept
  end.

(** Modelled from the spec: [invalidate(fileId)] of the Reference Index. *)
Definition invalidateFile (uri : Uri.t) (refs : gmap string (list MethodReferenceInfo.t))
  : gmap string (list MethodReferenceInfo.t) :=
  omap (withoutFile (Uri.toString uri)) refs.

(** Modelled from the spec: a record is filed under its method name,
    after the records already there. *)
Definition addReference (refs : gmap string (list MethodReferenceInfo.t))
    (info : MethodReferenceInfo.t) : gmap string (list MethodReferenceInfo.t) :=
  <[MethodReferenceInfo.methodName info :=
      default [] (refs !! MethodReferenceInfo.methodName info) ++ [info]]> refs.

(** Modelled from the spec: rebuilding a file first drops the records it
    contributed before, then files the records of its current text. *)
Definition indexFile (w : World.t) (uri : Uri.t) (refs : gmap string (list MethodReferenceInfo.t))
  : gmap string (list MethodReferenceInfo.t) :=
  match World.openTextDocument w uri with
  | Some document => fold_left addReference (referencesInFile uri document) (invalidateFile uri refs)
  | None => refs
  end.

(** Modelled from the spec: [findReferences(methodName)], the records of
    a name in insertion order, none for an unknown name. *)
Definition findMethodReferences (refs : gmap string (list MethodReferenceInfo.t))
    (methodName : string) : list MethodReferenceInfo.t :=
  default [] (refs !! methodName).

(** Modelled from the spec: the [totalReferences] statistic, the number
    of records in the index. *)
Definition totalReferences (refs : gmap string (list MethodReferenceInfo.t)) : nat :=
  map_fold (fun _ infos total => total + length infos) 0 refs.

End ReferenceIndex.

(** ** Asynchronous computations over an analyser object *)

(** The fields of an analysis service.  Both services have the same
    three; [symbolCache] is the shared cache instance they point to. *)
Module Service.
Record t := mk {
  maxDepth : nat;
  processedMethods : gset string;
  symbolCache : WorkspaceSymbolCache.t
}.

Definition initial (c : WorkspaceSymbolCache.t) : t := mk 3 ∅ c.

Definition clearProcessed (s : t) : t := mk (maxDepth s) ∅ (symbolCache s).

Definition addProcessed (methodKey : string) (s : t) : t :=
  mk (maxDepth s) ({[methodKey]} ∪ processedMethods s) (symbolCache s).

Definition withCache (c : WorkspaceSymbolCache.t) (s : t) : t :=
  mk (maxDepth s) (processedMethods s) c.

(** [Math.max(1, Math.min(depth, 10))] on an integer argument. *)
Definition setMaxDepth (depth : Z) (s : t) : t :=
  mk (Z.to_nat (Z.max 1 (Z.min depth 10))) (processedMethods s) (symbolCache s).

Definition getMaxDepth (s : t) : nat := maxDepth s.
End Service.

(** How an [async] function ends: its promise is fulfilled with a value,
    or rejected because something was thrown. *)
Inductive Outcome (A : Type) : Type :=
  | Fulfilled : A -> Outcome A
  | Rejected : Outcome A.
Arguments Fulfilled {A} _.
Arguments Rejected {A}.

(** An [async] method of a service: it may change the object's fields and
    the cache, and what it changed before throwing stays changed. *)
Definition Async (A : Type) : Type := Service.t -> Outcome A * Service.t.

Definition ret {A} (a : A) : Async A := fun s => (Fulfilled a, s).

Definition throw {A} : Async A := fun s => (Rejected, s).

Definition bind {A B} (m : Async A) (k : A -> Async B) : Async B :=
  fun s =>
    match m s with
    | (Fulfilled a, s') => k a s'
    | (Rejected, s') => (Rejected, s')
    end.

(** [try { m } catch { h }]. *)
Definition tryCatch {A} (m : Async A) (h : Async A) : Async A :=
  fun s =>
    match m s with
    | (Fulfilled a, s') => (Fulfilled a, s')
    | (Rejected, s') => h s'
    end.

(** A step that cannot throw. *)
Definition total {A} (f : Service.t -> A * Service.t) : Async A :=
  fun s => let '(a, s') := f s in (Fulfilled a, s').

#[global] Instance Async_ret : MRet Async := @ret.
#[global] Instance Async_bind : MBind Async := fun A B k m => bind m k.

(** Reading and updating the object's fields. *)
Definition reads {A} (f : Service.t -> A) : Async A := fun s => (Fulfilled (f s), s).

Definition modify (f : Service.t -> Service.t) : Async unit := fun s => (Fulfilled tt, f s).

Definition openTextDocument (w : World.t) (uri : Uri.t) : Async TextDocument.t :=
  match World.openTextDocument w uri with
  | Some document => ret document
  | None => throw
  end.

Definition getSymbolsForFile (w : World.t) (uri : Uri.t) (s : Service.t)
  : list DocumentSymbol.t * Service.t :=
  let '(symbols, c) :=
    WorkspaceSymbolCache.getSymbolsForFile w uri false (Service.symbolCache s) in
  (symbols, Service.withCache c s).

(** ** Backward analysis: who calls this method *)

Module MethodCallInfo.
Inductive t := mk {
  methodName : string;
  uri : Uri.t;
  range : Range.t;
  callerMethodName : option string;
  depth : nat;
  children : list t
}.

(** [callInfo.children.push(child)]. *)
Definition push (callInfo child : t) : t :=
  mk (methodName callInfo) (uri callInfo) (range callInfo)
     (callerMethodName callInfo) (depth callInfo) (children callInfo ++ [child]).
End MethodCallInfo.

Module MethodCallAnalysisService.

Definition setMaxDepth := Service.setMaxDepth.
Definition getMaxDepth := Service.getMaxDepth.

Fixpoint findContainingMethodIn (range : Range.t) (symbol : DocumentSymbol.t)
  : option DocumentSymbol.t :=
  if WorkspaceSymbolCache.isMethodSymbol symbol
     && Range.contains (DocumentSymbol.range symbol) range
  then Some symbol
  else (fix each (l : list DocumentSymbol.t) : option DocumentSymbol.t :=
          match l with
          | [] => None
          | c :: l' =>
              match findContainingMethodIn range c with
              | Some found => Some found
              | None => each l'
              end
          end) (DocumentSymbol.children symbol).

Fixpoint findContainingMethod (range : Range.t) (symbols : list DocumentSymbol.t)
  : option DocumentSymbol.t :=
  match symbols with
  | [] => None
  | symbol :: rest =>
      match findContainingMethodIn range symbol with
      | Some found => Some found
      | None => findContainingMethod range rest
      end
  end.

Fixpoint findMethodCallsInSymbol (methodName : string) (uri : Uri.t)
    (symbol : DocumentSymbol.t) : list Location.t :=
  (if includes (DocumentSymbol.name symbol) methodName
   then [Location.mk uri (DocumentSymbol.selectionRange symbol)] else [])
  ++ (fix each (l : list DocumentSymbol.t) : list Location.t :=
        match l with
        | [] => []
        | c :: l' => findMethodCallsInSymbol methodName uri c ++ each l'
        end) (DocumentSymbol.children symbol).

(** The locations [findMethodCallsInSymbols] pushes, after those already
    collected. *)
Definition findMethodCallsInSymbols (methodName : string)
    (symbols : list DocumentSymbol.t) (uri : Uri.t) (locations : list Location.t)
  : list Location.t :=
  locations ++ flat_map (findMethodCallsInSymbol methodName uri) symbols.

Definition definitionLocations (c : WorkspaceSymbolCache.t) (methodName : string)
  : list Location.t :=
  map (fun methodDef =>
         Location.mk (CachedMethodInfo.uri methodDef)
           (DocumentSymbol.selectionRange (CachedMethodInfo.symbol methodDef)))
      (WorkspaceSymbolCache.findMethodsByName c methodName).

Definition searchCachedReferences (refs : gmap string (list MethodReferenceInfo.t))
    (methodName : string) : Async (list Location.t) :=
  fun s =>
    let locations :=
      map (fun ref => Location.mk (MethodReferenceInfo.uri ref) (MethodReferenceInfo.range ref))
          (ReferenceIndex.findMethodReferences refs methodName) in
    ret (locations ++ definitionLocations (Service.symbolCache s) methodName) s.

(** The per-file loop of [searchCachedSymbols]; its [try] guards
    [getSymbolsForFile], which handles its own failures. *)
Fixpoint searchFiles (w : World.t) (methodName : string) (files : list Uri.t)
    (locations : list Location.t) : Async (list Location.t) :=
  match files with
  | [] => ret locations
  | file :: rest =>
      symbols ← total (getSymbolsForFile w file);
      searchFiles w methodName rest (findMethodCallsInSymbols methodName symbols file locations)
  end.

Definition searchCachedSymbols (w : World.t) (methodName : string)
  : Async (list Location.t) :=
  fun s =>
    let locations := definitionLocations (Service.symbolCache s) methodName in
    match World.findFiles w with
    | Some files => searchFiles w methodName files locations s
    | None => throw s
    end.

Definition searchWorkspaceForMethod (w : World.t)
    (refs : gmap string (list MethodReferenceInfo.t)) (methodName : string)
  : Async (list Location.t) :=
  tryCatch
    (if 0 <? ReferenceIndex.totalReferences refs
     then searchCachedReferences refs methodName
     else searchCachedSymbols w methodName)
    (ret []).

(** [callsByFile]: the references by file, files in order of first
    appearance.  The [Uri] kept for a group is that of its first
    reference; its string form is the group's key, which is what
    [Uri.parse] is given. *)
Fixpoint addToFile (ref : Location.t) (callsByFile : list (Uri.t * list Location.t))
  : list (Uri.t * list Location.t) :=
  match callsByFile with
  | [] => [(Location.uri ref, [ref])]
  | (u, locations) :: others =>
      if bool_decide (Uri.toString u = Uri.toString (Location.uri ref))
      then (u, locations ++ [ref]) :: others
      else (u, locations) :: addToFile ref others
  end.

Definition groupByFile (references : list Location.t) : list (Uri.t * list Location.t) :=
  fold_left (fun callsByFile ref => addToFile ref callsByFile) references [].

Definition methodKeyOf (callInfo : MethodCallInfo.t) : string :=
  Uri.toString (MethodCallInfo.uri callInfo) +:+ ":"
  +:+ pretty (Position.line (Range.start (MethodCallInfo.range callInfo))) +:+ ":"
  +:+ pretty (Position.character (Range.start (MethodCallInfo.range callInfo))) +:+ ":"
  +:+ MethodCallInfo.methodName callInfo.

(** The filter that drops the definition site of the analysed method. *)
Definition notDefinitionSite (callInfo : MethodCallInfo.t) (uri : Uri.t)
    (loc : Location.t) : bool :=
  let sameFile :=
    bool_decide (Uri.toString uri = Uri.toString (MethodCallInfo.uri callInfo)) in
  let isSameLocation :=
    sameFile && Range.isEqual (Location.range loc) (MethodCallInfo.range callInfo) in
  let isDefinitionRange :=
    sameFile && (Range.contains (Location.range loc) (MethodCallInfo.range callInfo)
                 || Range.contains (MethodCallInfo.range callInfo) (Location.range loc)) in
  negb isSameLocation && negb isDefinitionRange.

Definition sameCaller (callingMethod : DocumentSymbol.t) (uri : Uri.t)
    (child : MethodCallInfo.t) : bool :=
  bool_decide (MethodCallInfo.methodName child = DocumentSymbol.name callingMethod)
  && bool_decide (Uri.toString (MethodCallInfo.uri child) = Uri.toString uri)
  && Range.isEqual (MethodCallInfo.range child) (DocumentSymbol.selectionRange callingMethod).

Section Expansion.

(** The recursive call, at the next depth. *)
Variable recur : MethodCallInfo.t -> nat -> Service.t -> MethodCallInfo.t * Service.t.
Variable w : World.t.

(** One reference of one file: find the method around it and, unless it
    is a child already, expand it and push it. *)
Definition visitLocation (uri : Uri.t) (symbols : list DocumentSymbol.t)
    (currentDepth : nat) (acc : MethodCallInfo.t * Service.t) (location : Location.t)
  : MethodCallInfo.t * Service.t :=
  let '(callInfo, s) := acc in
  match findContainingMethod (Location.range location) symbols with
  | Some callingMethod =>
      match List.find (sameCaller callingMethod uri) (MethodCallInfo.children callInfo) with
      | Some existingChild => (callInfo, s)
      | None =>
          let childCallInfo :=
            MethodCallInfo.mk (DocumentSymbol.name callingMethod) uri
              (DocumentSymbol.selectionRange callingMethod)
              (Some (MethodCallInfo.methodName callInfo)) (currentDepth + 1) [] in
          let '(expanded, s') := recur childCallInfo (currentDepth + 1) s in
          (MethodCallInfo.push callInfo expanded, s')
      end
  | None => (callInfo, s)
  end.

(** One file of [callsByFile]. *)
Definition visitFile (currentDepth : nat) (acc : MethodCallInfo.t * Service.t)
    (entry : Uri.t * list Location.t) : MethodCallInfo.t * Service.t :=
  let '(callInfo, s) := acc in
  let '(uri, locations) := entry in
  match List.filter (notDefinitionSite callInfo uri) locations with
  | [] => (callInfo, s)
  | filteredLocations =>
      let '(symbols, s') := getSymbolsForFile w uri s in
      match symbols with
      | [] => (callInfo, s')
      | _ :: _ => fold_left (visitLocation uri symbols currentDepth) filteredLocations (callInfo, s')
      end
  end.

End Expansion.

(** [findMethodReferencesWorkspace]: the node with the children found for
    it.  The reference provider of strategy 1 is commented out in the
    source, so the workspace search always runs.  Nothing inside the
    source's [try] block can throw here: the search and the symbol lookup
    catch their own failures.  [fuel] bounds the nesting of calls; the
    depth test stops the recursion first whenever [fuel] is at least
    [maxDepth - currentDepth]. *)
Fixpoint findMethodReferencesWorkspace (fuel : nat) (w : World.t)
    (refs : gmap string (list MethodReferenceInfo.t))
    (callInfo : MethodCallInfo.t) (currentDepth : nat) (s : Service.t)
  : MethodCallInfo.t * Service.t :=
  match fuel with
  | O => (callInfo, s)
  | S fuel' =>
      if Service.maxDepth s <=? currentDepth then (callInfo, s)
      else
        let methodKey := methodKeyOf callInfo in
        if bool_decide (methodKey ∈ Service.processedMethods s) then (callInfo, s)
        else
          let s1 := Service.addProcessed methodKey s in
          match searchWorkspaceForMethod w refs (MethodCallInfo.methodName callInfo) s1 with
          | (Fulfilled [], s2) | (Rejected, s2) => (callInfo, s2)
          | (Fulfilled references, s2) =>
              fold_left (visitFile (findMethodReferencesWorkspace fuel' w refs) w currentDepth)
                        (groupByFile references) (callInfo, s2)
          end
  end.

(** The [try] block of [analyzeMethodCalls]. *)
Definition analyzeMethodCallsTry (w : World.t)
    (refs : gmap string (list MethodReferenceInfo.t))
    (methodSymbol : DocumentSymbol.t) (uri : Uri.t)
  : Async (option MethodCallInfo.t) :=
  total (fun s =>
    let s0 := Service.clearProcessed s in
    let rootCallInfo :=
      MethodCallInfo.mk (DocumentSymbol.name methodSymbol) uri
        (DocumentSymbol.selectionRange methodSymbol) None 0 [] in
    let '(rootCallInfo', s') :=
      findMethodReferencesWorkspace (Service.maxDepth s0) w refs rootCallInfo 0 s0 in
    (Some rootCallInfo', s')).

Definition analyzeMethodCalls (w : World.t)
    (refs : gmap string (list MethodReferenceInfo.t))
    (methodSymbol : DocumentSymbol.t) (uri : Uri.t)
  : Async (option MethodCallInfo.t) :=
  tryCatch (analyzeMethodCallsTry w refs methodSymbol uri) (ret None).

End MethodCallAnalysisService.

(** ** Forward analysis: what does this method call *)

Module InternalMethodCallInfo.
Inductive t := mk {
  methodName : string;
  uri : Uri.t;
  range : Range.t;
  definitionUri : option Uri.t;
  definitionRange : option Range.t;
  depth : nat;
  children : list t;
  isResolved : bool;
  isRecursive : bool
}.

Definition withChildren (callInfo : t) (children' : list t) : t :=
  mk (methodName callInfo) (uri callInfo) (range callInfo) (definitionUri callInfo)
     (definitionRange callInfo) (depth callInfo) children'
     (isResolved callInfo) (isRecursive callInfo).
End InternalMethodCallInfo.

Module InternalCallAnalysisResult.
Record t := mk {
  rootMethod : string;
  rootUri : Uri.t;
  rootRange : Range.t;
  calls : list InternalMethodCallInfo.t;
  totalCallsFound : nat;
  analysisDepth : nat
}.
End InternalCallAnalysisResult.

Module InternalMethodCallAnalysisService.

Definition setMaxDepth := Service.setMaxDepth.
Definition getMaxDepth := Service.getMaxDepth.

(** The cache first, then the editor's definition provider at the dummy
    position; an error on the way is caught and gives no definition. *)
Definition findMethodDefinition (w : World.t) (methodName : string) (currentUri : Uri.t)
    (s : Service.t) : option Location.t :=
  match WorkspaceSymbolCache.findMethodDefinition
          (Service.symbolCache s) methodName (Some currentUri) with
  | Some methodInfo =>
      Some (Location.mk (CachedMethodInfo.uri methodInfo)
              (DocumentSymbol.selectionRange (CachedMethodInfo.symbol methodInfo)))
  | None =>
      match World.executeDefinitionProvider w currentUri (Position.mk 0 0) with
      | Resolves (def :: _) =>
          Some (Location.mk (LocationLink.targetUri def) (LocationLink.targetRange def))
      | Resolves [] | Undefined | Rejects => None
      end
  end.

Fixpoint findSymbolAtRangeIn (range : Range.t) (symbol : DocumentSymbol.t)
  : option DocumentSymbol.t :=
  if Range.isEqual (DocumentSymbol.selectionRange symbol) range
     || Range.contains (DocumentSymbol.range symbol) range
  then
    if Range.isEqual (DocumentSymbol.selectionRange symbol) range then Some symbol
    else
      match (fix each (l : list DocumentSymbol.t) : option DocumentSymbol.t :=
               match l with
               | [] => None
               | c :: l' =>
                   match findSymbolAtRangeIn range c with
                   | Some found => Some found
                   | None => each l'
                   end
               end) (DocumentSymbol.children symbol) with
      | Some found => Some found
      | None => Some symbol
      end
  else None.

Fixpoint findSymbolAtRange (symbols : list DocumentSymbol.t) (range : Range.t)
  : option DocumentSymbol.t :=
  match symbols with
  | [] => None
  | symbol :: rest =>
      match findSymbolAtRangeIn range symbol with
      | Some found => Some found
      | None => findSymbolAtRange rest range
      end
  end.

Definition duplicateKey (call : InternalMethodCallInfo.t) : string :=
  InternalMethodCallInfo.methodName call +:+ ":"
  +:+ pretty (Position.line (Range.start (InternalMethodCallInfo.range call))) +:+ ":"
  +:+ pretty (Position.character (Range.start (InternalMethodCallInfo.range call))) +:+ ":"
  +:+ Uri.toString (InternalMethodCallInfo.uri call).

Fixpoint removeDuplicateCallsFrom (seen : gset string)
    (calls : list InternalMethodCallInfo.t) : list InternalMethodCallInfo.t :=
  match calls with
  | [] => []
  | call :: rest =>
      let key := duplicateKey call in
      if bool_decide (key ∈ seen) then removeDuplicateCallsFrom seen rest
      else call :: removeDuplicateCallsFrom ({[key]} ∪ seen) rest
  end.

Definition removeDuplicateCalls (calls : list InternalMethodCallInfo.t)
  : list InternalMethodCallInfo.t :=
  removeDuplicateCallsFrom ∅ calls.

Fixpoint countCallsOf (call : InternalMethodCallInfo.t) : nat :=
  S ((fix each (l : list InternalMethodCallInfo.t) : nat :=
        match l with
        | [] => 0
        | c :: l' => countCallsOf c + each l'
        end) (InternalMethodCallInfo.children call)).

(** [calls.length] plus the count of every call's children. *)
Definition countTotalCalls (calls : list InternalMethodCallInfo.t) : nat :=
  fold_right (fun call total => countCallsOf call + total) 0 calls.

(** The recursion key of a call: the definition's file and start, or the
    name when there is no definition. *)
Definition methodKeyOf (definition : option Location.t) (methodName : string) : string :=
  match definition with
  | Some definition =>
      Uri.toString (Location.uri definition) +:+ ":"
      +:+ pretty (Position.line (Range.start (Location.range definition))) +:+ ":"
      +:+ pretty (Position.character (Range.start (Location.range definition)))
  | None => "unknown:" +:+ methodName
  end.

Section Scan.

(** The recursive call on a definition's text, at the next depth. *)
Variable recur : string -> Range.t -> Uri.t -> nat -> Async (list InternalMethodCallInfo.t).
Variable w : World.t.

(** The [try] block that expands a resolved, not yet visited call: the
    definition's document and symbol, the calls in its text, minus the
    first. *)
Definition expandDefinition (definition : Location.t) (currentDepth : nat)
  : Async (list InternalMethodCallInfo.t) :=
  tryCatch
    (defDocument ← openTextDocument w (Location.uri definition);
     symbols ← total (getSymbolsForFile w (Location.uri definition));
     match findSymbolAtRange symbols (Location.range definition) with
     | Some defMethod =>
         let defMethodText :=
           TextDocument.getText defDocument (Some (DocumentSymbol.range defMethod)) in
         children ← recur defMethodText (DocumentSymbol.range defMethod)
                      (Location.uri definition) (currentDepth + 1);
         ret (tail children)
     | None => ret []
     end)
    (ret []).

(** The body of the loop for one match that passed the filter. *)
Definition visitMatch (document : TextDocument.t) (baseRange : Range.t) (uri : Uri.t)
    (currentDepth : nat) (m : CallMatch.t) : Async InternalMethodCallInfo.t :=
  fun s =>
    let startOffset :=
      TextDocument.offsetAt document (Range.start baseRange) + CallMatch.index m in
    let endOffset := startOffset + String.length (CallMatch.methodName m) in
    let startPos := TextDocument.positionAt document startOffset in
    let endPos := TextDocument.positionAt document endOffset in
    let callRange := Range.new startPos endPos in
    let definition := findMethodDefinition w (CallMatch.methodName m) uri s in
    let methodKey := methodKeyOf definition (CallMatch.methodName m) in
    let isRecursive := bool_decide (methodKey ∈ Service.processedMethods s) in
    let callInfo :=
      InternalMethodCallInfo.mk (CallMatch.methodName m) uri callRange
        (Location.uri <$> definition) (Location.range <$> definition)
        currentDepth [] (bool_decide (is_Some definition)) isRecursive in
    match definition with
    | Some definition =>
        if isRecursive then ret callInfo s
        else
          (children ← expandDefinition definition currentDepth;
           ret (InternalMethodCallInfo.withChildren callInfo children))
            (Service.addProcessed methodKey s)
    | None => ret callInfo s
    end.

(** The loop over the sorted matches; at depth 0 it stops after the
    first call it pushed. *)
Fixpoint eachMatch (document : TextDocument.t) (baseRange : Range.t) (uri : Uri.t)
    (currentDepth : nat) (matches : list CallMatch.t)
    (calls : list InternalMethodCallInfo.t) : Async (list InternalMethodCallInfo.t) :=
  match matches with
  | [] => ret calls
  | m :: rest =>
      if bool_decide (CallMatch.methodName m = EmptyString)
         || isBuiltInOrCommon (CallMatch.methodName m)
      then eachMatch document baseRange uri currentDepth rest calls
      else
        callInfo ← visitMatch document baseRange uri currentDepth m;
        if currentDepth <? 1 then ret (calls ++ [callInfo])
        else eachMatch document baseRange uri currentDepth rest (calls ++ [callInfo])
  end.

End Scan.

(** [findMethodCallsInText].  [fuel] bounds the nesting of calls; the
    depth test stops the recursion first whenever [fuel] is at least
    [maxDepth - currentDepth]. *)
Fixpoint findMethodCallsInText (fuel : nat) (w : World.t) (text : string)
    (baseRange : Range.t) (uri : Uri.t) (currentDepth : nat)
  : Async (list InternalMethodCallInfo.t) :=
  match fuel with
  | O => ret []
  | S fuel' =>
      fun s =>
        if Service.maxDepth s <=? currentDepth then ret [] s
        else
          (document ← openTextDocument w uri;
           let allMatches := sortByIndex (findAllMethodCallMatches text) in
           calls ← eachMatch (findMethodCallsInText fuel' w) w document baseRange uri
                     currentDepth allMatches [];
           ret (removeDuplicateCalls calls)) s
  end.

(** The [try] block of [analyzeInternalMethodCalls]. *)
Definition analyzeInternalMethodCallsTry (w : World.t)
    (methodSymbol : DocumentSymbol.t) (uri : Uri.t)
  : Async (option InternalCallAnalysisResult.t) :=
  _ ← modify Service.clearProcessed;
  document ← openTextDocument w uri;
  let methodText :=
    TextDocument.getText document (Some (DocumentSymbol.range methodSymbol)) in
  maxDepth ← reads Service.maxDepth;
  internalCalls ← findMethodCallsInText maxDepth w methodText
                    (DocumentSymbol.range methodSymbol) uri 0;
  analysisDepth ← reads Service.maxDepth;
  ret (Some (InternalCallAnalysisResult.mk
               (DocumentSymbol.name methodSymbol) uri
               (DocumentSymbol.selectionRange methodSymbol)
               internalCalls (countTotalCalls internalCalls) analysisDepth)).

Definition analyzeInternalMethodCalls (w : World.t)
    (methodSymbol : DocumentSymbol.t) (uri : Uri.t)
  : Async (option InternalCallAnalysisResult.t) :=
  tryCatch (analyzeInternalMethodCallsTry w methodSymbol uri) (ret None).

End InternalMethodCallAnalysisService.

(** ** The commands and the tree views *)

(** The commands that start an analysis at the cursor look the method up
    with [findMethodAtPosition]. *)
Module RecallsCommands.

Fixpoint findMethodAtPositionIn (position : Position.t) (symbol : DocumentSymbol.t)
  : option DocumentSymbol.t :=
  if WorkspaceSymbolCache.isMethodSymbol symbol
     && Range.containsPosition (DocumentSymbol.range symbol) position
  then Some symbol
  else (fix each (l : list DocumentSymbol.t) : option DocumentSymbol.t :=
          match l with
          | [] => None
          | c :: l' =>
              match findMethodAtPositionIn position c with
              | Some found => Some found
              | None => each l'
              end
          end) (DocumentSymbol.children symbol).

Fixpoint findMethodAtPosition (position : Position.t) (symbols : list DocumentSymbol.t)
  : option DocumentSymbol.t :=
  match symbols with
  | [] => None
  | symbol :: rest =>
      match findMethodAtPositionIn position symbol with
      | Some found => Some found
      | None => findMethodAtPosition position rest
      end
  end.

End RecallsCommands.

(** The tree view of the backward analysis ([method-call-provider.ts]):
    the counts it reports after a run, and the label of a node. *)
Module MethodCallTreeDataProvider.

Fixpoint countTotalCalls (callInfo : MethodCallInfo.t) : nat :=
  length (MethodCallInfo.children callInfo)
  + (fix each (l : list MethodCallInfo.t) : nat :=
       match l with
       | [] => 0
       | child :: l' => countTotalCalls child + each l'
       end) (MethodCallInfo.children callInfo).

Fixpoint collectFiles (callInfo : MethodCallInfo.t) (files : gset string) : gset string :=
  (fix each (l : list MethodCallInfo.t) (files : gset string) : gset string :=
     match l with
     | [] => files
     | child :: l' => each l' (collectFiles child files)
     end) (MethodCallInfo.children callInfo)
    ({[Uri.toString (MethodCallInfo.uri callInfo)]} ∪ files).

Definition countUniqueFiles (callInfo : MethodCallInfo.t) : nat :=
  size (collectFiles callInfo ∅).

(** [s.split(sep).pop()]: what follows the last [sep] of [s], all of [s]
    when it has none. *)
Definition lastSegment (sep : ascii) (s : string) : string :=
  match lastIndexOf sep s with
  | Some i => String.substring (S i) (String.length s - S i) s
  | None => s
  end.

(** [getRelativeFilePath]: [workspaceRelative] is the path relative to
    the workspace folder of the file, when it has one; otherwise the label
    is made from [fsPath], an empty string counting as no answer. *)
Definition getRelativeFilePath (workspaceRelative : option string) (uri : Uri.t) : string :=
  match workspaceRelative with
  | Some relativePath => relativePath
  | None =>
      match lastSegment "\"%char (Uri.fsPath uri) with
      | String c s => String c s
      | EmptyString =>
          match lastSegment "/"%char (Uri.fsPath uri) with
          | String c s => String c s
          | EmptyString => "unknown"
          end
      end
  end.

End MethodCallTreeDataProvider.

(** The tree view of the forward analysis
    ([internal-method-call-provider.ts]): the result it shows and the
    statistics it computes from it. *)
Module InternalMethodCallTreeDataProvider.

Record t := mk { analysisResult : option InternalCallAnalysisResult.t }.

Definition clear (p : t) : t := mk None.

Definition setAnalysisResult (result : option InternalCallAnalysisResult.t) (p : t) : t :=
  mk result.

(** [collectCalls] on one call: the call, then the calls below it. *)
Fixpoint collectCall (call : InternalMethodCallInfo.t) : list InternalMethodCallInfo.t :=
  call :: (fix each (l : list InternalMethodCallInfo.t) : list InternalMethodCallInfo.t :=
             match l with
             | [] => []
             | c :: l' => collectCall c ++ each l'
             end) (InternalMethodCallInfo.children call).

Definition getAllMethodCalls (p : t) : list InternalMethodCallInfo.t :=
  match analysisResult p with
  | None => []
  | Some result => flat_map collectCall (InternalCallAnalysisResult.calls result)
  end.

Record Statistics := mkStatistics {
  totalCalls : nat;
  resolvedCalls : nat;
  unresolvedCalls : nat;
  recursiveCalls : nat;
  maxDepthReached : nat;
  rootMethod : string
}.

Definition getStatistics (p : t) : option Statistics :=
  match analysisResult p with
  | None => None
  | Some result =>
      let allCalls := getAllMethodCalls p in
      Some (mkStatistics
              (length allCalls)
              (length (List.filter InternalMethodCallInfo.isResolved allCalls))
              (length (List.filter (fun call => negb (InternalMethodCallInfo.isResolved call))
                         allCalls))
              (length (List.filter InternalMethodCallInfo.isRecursive allCalls))
              (fold_right Nat.max 0 (map InternalMethodCallInfo.depth allCalls))
              (InternalCallAnalysisResult.rootMethod result))
  end.

End InternalMethodCallTreeDataProvider.

(** ** Sample workspaces *)

Definition lineFeed : string := String "010"%char EmptyString.

Fixpoint unlines (lines : list string) : string :=
  match lines with
  | [] => EmptyString
  | [l] => l
  | l :: rest => l +:+ lineFeed +:+ unlines rest
  end.

Definition rangeOf (l1 c1 l2 c2 : nat) : Range.t :=
  Range.mk (Position.mk l1 c1) (Position.mk l2 c2).

(** A workspace of one file.  The cache is filled by indexing the file,
    the reference index by scanning it. *)
Definition singleFileWorld (uri : Uri.t) (text : string)
    (symbols : list DocumentSymbol.t) : World.t :=
  World.mk
    (fun u => if decide (u = uri) then Some (textDocumentOf 1 text) else None)
    (fun u => if decide (u = uri) then Resolves symbols else Undefined)
    (fun _ _ => Undefined)
    (Some [uri])
    0.

Module OpenExample.

(** The first three methods of [recursive-example.ts]: [open], [openNow]
    which calls it, and [quickStart] which calls [openNow]. *)
Definition uri : Uri.t :=
  Uri.mk "file:///workspace/recursive-example.ts" "/workspace/recursive-example.ts".

Definition text : string :=
  unlines
    [ "export class RecursiveCallExample {";
      "    public open(): void {";
      "        console.log('Opening...');";
      "    }";
      "    public openNow(): void {";
      "        console.log('Opening now');";
      "        this.open();";
      "    }";
      "    public quickStart(): void {";
      "        console.log('Quick start');";
      "        this.openNow();";
      "    }";
      "}" ].

Definition open : DocumentSymbol.t :=
  DocumentSymbol.mk "open" SymbolKind.Method (rangeOf 1 4 3 5) (rangeOf 1 11 1 15) [].

Definition openNow : DocumentSymbol.t :=
  DocumentSymbol.mk "openNow" SymbolKind.Method (rangeOf 4 4 7 5) (rangeOf 4 11 4 18) [].

Definition quickStart : DocumentSymbol.t :=
  DocumentSymbol.mk "quickStart" SymbolKind.Method (rangeOf 8 4 11 5) (rangeOf 8 11 8 21) [].

Definition symbols : list DocumentSymbol.t :=
  [ DocumentSymbol.mk "RecursiveCallExample" SymbolKind.Class
      (rangeOf 0 0 12 1) (rangeOf 0 13 0 33) [open; openNow; quickStart] ].

Definition world : World.t := singleFileWorld uri text symbols.

Definition cache : WorkspaceSymbolCache.t :=
  WorkspaceSymbolCache.indexSingleFile world uri WorkspaceSymbolCache.empty.

Definition refs : gmap string (list MethodReferenceInfo.t) :=
  ReferenceIndex.indexFile world uri ∅.

Definition service : Service.t := Service.setMaxDepth 2 (Service.initial cache).

End OpenExample.

Module CycleExample.

(** Two functions that call each other. *)
Definition uri : Uri.t := Uri.mk "file:///workspace/cycle.ts" "/workspace/cycle.ts".

Definition text : string :=
  unlines
    [ "function alpha() {";
      "  beta();";
      "}";
      "function beta() {";
      "  alpha();";
      "}" ].

Definition alpha : DocumentSymbol.t :=
  DocumentSymbol.mk "alpha" SymbolKind.Function (rangeOf 0 0 2 1) (rangeOf 0 9 0 14) [].

Definition beta : DocumentSymbol.t :=
  DocumentSymbol.mk "beta" SymbolKind.Function (rangeOf 3 0 5 1) (rangeOf 3 9 3 13) [].

Definition symbols : list DocumentSymbol.t := [alpha; beta].

Definition world : World.t := singleFileWorld uri text symbols.

Definition cache : WorkspaceSymbolCache.t :=
  WorkspaceSymbolCache.indexSingleFile world uri WorkspaceSymbolCache.empty.

Definition service (maxDepth : nat) : Service.t := Service.mk maxDepth ∅ cache.

End CycleExample.

Module GenericExample.

(** Two methods of a class that call each other, the first declared with
    a type parameter, so that its name is not followed by a parenthesis
    in its declaration. *)
Definition uri : Uri.t := Uri.mk "file:///workspace/pipeline.ts" "/workspace/pipeline.ts".

Definition text : string :=
  unlines
    [ "export class Pipeline {";
      "    alpha<T>(item: T): void {";
      "        this.beta(item);";
      "        this.gamma();";
      "    }";
      "    beta(item: unknown): void {";
      "        this.alpha(item);";
      "    }";
      "    gamma(): void {";
      "    }";
      "}" ].

Definition alpha : DocumentSymbol.t :=
  DocumentSymbol.mk "alpha" SymbolKind.Method (rangeOf 1 4 4 5) (rangeOf 1 4 1 9) [].

Definition beta : DocumentSymbol.t :=
  DocumentSymbol.mk "beta" SymbolKind.Method (rangeOf 5 4 7 5) (rangeOf 5 4 5 8) [].

Definition gamma : DocumentSymbol.t :=
  DocumentSymbol.mk "gamma" SymbolKind.Method (rangeOf 8 4 9 5) (rangeOf 8 4 8 9) [].

Definition symbols : list DocumentSymbol.t :=
  [ DocumentSymbol.mk "Pipeline" SymbolKind.Class
      (rangeOf 0 0 10 1) (rangeOf 0 13 0 21) [alpha; beta; gamma] ].

Definition world : World.t := singleFileWorld uri text symbols.

Definition cache : WorkspaceSymbolCache.t :=
  WorkspaceSymbolCache.indexSingleFile world uri WorkspaceSymbolCache.empty.

Definition service (maxDepth : nat) : Service.t := Service.mk maxDepth ∅ cache.

(** The text of a method, as the analyser reads it. *)
Definition textOf (symbol : DocumentSymbol.t) : string :=
  TextDocument.getText (textDocumentOf 1 text) (Some (DocumentSymbol.range symbol)).

End GenericExample.

Module DiamondExample.

(** [root] calls [left] and [right]; both call [shared]. *)
Definition uri : Uri.t := Uri.mk "file:///workspace/diamond.ts" "/workspace/diamond.ts".

Definition text : string :=
  unlines
    [ "function root() {";
      "  left();";
      "  right();";
      "}";
      "function left() {";
      "  shared();";
      "}";
      "function right() {";
      "  shared();";
      "}";
      "function shared() {";
      "}" ].

Definition root : DocumentSymbol.t :=
  DocumentSymbol.mk "root" SymbolKind.Function (rangeOf 0 0 3 1) (rangeOf 0 9 0 13) [].

Definition left : DocumentSymbol.t :=
  DocumentSymbol.mk "left" SymbolKind.Function (rangeOf 4 0 6 1) (rangeOf 4 9 4 13) [].

Definition right : DocumentSymbol.t :=
  DocumentSymbol.mk "right" SymbolKind.Function (rangeOf 7 0 9 1) (rangeOf 7 9 7 14) [].

Definition shared : DocumentSymbol.t :=
  DocumentSymbol.mk "shared" SymbolKind.Function (rangeOf 10 0 11 1) (rangeOf 10 9 10 15) [].

Definition symbols : list DocumentSymbol.t := [root; left; right; shared].

Definition world : World.t := singleFileWorld uri text symbols.

Definition cache : WorkspaceSymbolCache.t :=
  WorkspaceSymbolCache.indexSingleFile world uri WorkspaceSymbolCache.empty.

Definition service : Service.t := Service.mk 3 ∅ cache.

End DiamondExample.

Definition filesWorld (files : list (Uri.t * string * list DocumentSymbol.t)) : World.t :=
  World.mk
    (fun u =>
       match List.find (fun f => bool_decide (f.1.1 = u)) files with
       | Some f => Some (textDocumentOf 1 f.1.2)
       | None => None
       end)
    (fun u =>
       match List.find (fun f => bool_decide (f.1.1 = u)) files with
       | Some f => Resolves f.2
       | None => Undefined
       end)
    (fun _ _ => Undefined)
    (Some (map (fun f => f.1.1) files))
    0.

Module HelperExample.

(** Two files that each define [helper], indexed in this order, and a
    third file from which [helper] is resolved.  The directory of the
    second, [src-gen], has a name that begins with the name of the
    directory of the third, [src]. *)
Definition libUri : Uri.t := Uri.mk "file:///proj/lib/h.ts" "/proj/lib/h.ts".
Definition genUri : Uri.t := Uri.mk "file:///proj/src-gen/h.ts" "/proj/src-gen/h.ts".
Definition contextUri : Uri.t := Uri.mk "file:///proj/src/a.ts" "/proj/src/a.ts".
Definition unrelatedUri : Uri.t := Uri.mk "file:///other/z.ts" "/other/z.ts".

Definition text : string :=
  unlines [ "function helper() {"; "}" ].

Definition helper : DocumentSymbol.t :=
  DocumentSymbol.mk "helper" SymbolKind.Function (rangeOf 0 0 1 1) (rangeOf 0 9 0 15) [].

Definition world : World.t :=
  filesWorld [ (libUri, text, [helper]); (genUri, text, [helper]) ].

Definition cache : WorkspaceSymbolCache.t :=
  WorkspaceSymbolCache.indexSingleFile world genUri
    (WorkspaceSymbolCache.indexSingleFile world libUri WorkspaceSymbolCache.empty).

Definition inLib : CachedMethodInfo.t :=
  CachedMethodInfo.mk "helper" libUri helper "/proj/lib/h.ts".

Definition inGen : CachedMethodInfo.t :=
  CachedMethodInfo.mk "helper" genUri helper "/proj/src-gen/h.ts".

End HelperExample.

Module NestedExample.

(** [openLater] of [recursive-example.ts]: the call of [open] sits in the
    arrow function handed to [setTimeout], which the outline lists as a
    function inside the method. *)
Definition callback : DocumentSymbol.t :=
  DocumentSymbol.mk "setTimeout() callback" SymbolKind.Function
    (rangeOf 19 19 21 9) (rangeOf 19 19 21 9) [].

Definition openLater : DocumentSymbol.t :=
  DocumentSymbol.mk "openLater" SymbolKind.Method
    (rangeOf 17 4 22 5) (rangeOf 17 11 17 20) [callback].

Definition symbols : list DocumentSymbol.t :=
  [ DocumentSymbol.mk "RecursiveCallExample" SymbolKind.Class
      (rangeOf 2 0 79 1) (rangeOf 2 13 2 33) [openLater] ].

Definition callOfOpen : Range.t := rangeOf 20 17 20 21.

End NestedExample.

Module ColdCacheExample.

(** The two mutually recursive functions again, analysed before the file
    was indexed, in an editor whose definition provider answers every
    request with the definition of [beta]. *)
Definition world : World.t :=
  World.mk
    (World.openTextDocument CycleExample.world)
    (World.executeDocumentSymbolProvider CycleExample.world)
    (fun _ _ => Resolves [LocationLink.mk CycleExample.uri
                            (DocumentSymbol.selectionRange CycleExample.beta)])
    (World.findFiles CycleExample.world)
    0.

Definition service : Service.t := Service.mk 3 ∅ WorkspaceSymbolCache.empty.

End ColdCacheExample.

(** ** Definitions used to state the properties *)

(** The definition records a file contributes: one per method, function
    or constructor of its outline, in pre-order. *)
Definition methodInfosOf (uri : Uri.t) (symbols : list DocumentSymbol.t)
  : list CachedMethodInfo.t :=
  map (fun symbol =>
         CachedMethodInfo.mk (DocumentSymbol.name symbol) uri symbol (Uri.fsPath uri))
      (List.filter WorkspaceSymbolCache.isMethodSymbol (preorder symbols)).

Definition named (methodName : string) (info : CachedMethodInfo.t) : bool :=
  bool_decide (CachedMethodInfo.methodName info = methodName).

(** A method-like symbol whose range contains [range]. *)
Definition encloses (range : Range.t) (symbol : DocumentSymbol.t) : bool :=
  WorkspaceSymbolCache.isMethodSymbol symbol
  && Range.contains (DocumentSymbol.range symbol) range.

(** The smallest enclosing method, in the words of the analyser's
    contract: an enclosing method-like symbol of the outline whose range
    lies inside the range of every other one. *)
Definition smallestEnclosing (range : Range.t) (symbols : list DocumentSymbol.t)
    (m : DocumentSymbol.t) : Prop :=
  In m (preorder symbols) /\ encloses range m = true /\
  forall m', In m' (preorder symbols) -> encloses range m' = true ->
             Range.contains (DocumentSymbol.range m') (DocumentSymbol.range m) = true.

(** A path that lies under a directory, in the words of the resolver's
    contract: the directory, a separator, then the rest. *)
Definition liesUnder (dir path : string) : bool := startsWith path (dir +:+ "/").

(** The nodes of a caller tree, root first. *)
Fixpoint callNodes (t : MethodCallInfo.t) : list MethodCallInfo.t :=
  t :: (fix each (l : list MethodCallInfo.t) : list MethodCallInfo.t :=
          match l with
          | [] => []
          | c :: l' => callNodes c ++ each l'
          end) (MethodCallInfo.children t).

(** The nodes of a tree of internal calls, and of a forest of them. *)
Fixpoint internalNodes (t : InternalMethodCallInfo.t) : list InternalMethodCallInfo.t :=
  t :: (fix each (l : list InternalMethodCallInfo.t) : list InternalMethodCallInfo.t :=
          match l with
          | [] => []
          | c :: l' => internalNodes c ++ each l'
          end) (InternalMethodCallInfo.children t).

Definition forestNodes (calls : list InternalMethodCallInfo.t)
  : list InternalMethodCallInfo.t :=
  flat_map internalNodes calls.

(** The recursion key a node was given, read back from its fields. *)
Definition definitionOf (n : InternalMethodCallInfo.t) : option Location.t :=
  match InternalMethodCallInfo.definitionUri n, InternalMethodCallInfo.definitionRange n with
  | Some u, Some r => Some (Location.mk u r)
  | _, _ => None
  end.

Definition recursionKey (n : InternalMethodCallInfo.t) : string :=
  InternalMethodCallAnalysisService.methodKeyOf (definitionOf n)
    (InternalMethodCallInfo.methodName n).

(** A node whose definition was found and had not been visited: the only
    kind of node whose definition is scanned for children. *)
Definition expanded (n : InternalMethodCallInfo.t) : bool :=
  InternalMethodCallInfo.isResolved n && negb (InternalMethodCallInfo.isRecursive n).

Definition expandedKeys (calls : list InternalMethodCallInfo.t) : list string :=
  map recursionKey (List.filter expanded (forestNodes calls)).

(** A match the scan does not skip. *)
Definition survives (m : CallMatch.t) : bool :=
  negb (bool_decide (CallMatch.methodName m = EmptyString)
        || isBuiltInOrCommon (CallMatch.methodName m)).

(** Extracting a symbol appends its records to the lookups. *)
Definition extractsItsMethods (uri : Uri.t) (s : DocumentSymbol.t) : Prop :=
  forall (m : gmap string (list CachedMethodInfo.t)) n,
    default [] (WorkspaceSymbolCache.extractMethodsFromSymbol uri s m !! n) =
    default [] (m !! n) ++ List.filter (named n) (methodInfosOf uri [s]).

(** A step that touches the cache only. *)
Definition cacheOnly (s s' : Service.t) : Prop :=
  Service.maxDepth s' = Service.maxDepth s
  /\ Service.processedMethods s' = Service.processedMethods s.

Definition depthBounded (bound : nat) (t : MethodCallInfo.t) : Prop :=
  Forall (fun n => MethodCallInfo.depth n <= bound) (callNodes t).

(** What one expansion does to a node and to the service: the configured
    depth and the node's own depth stay, and a tree within the bound
    stays within it. *)
Definition expansionOk (r : MethodCallInfo.t * Service.t)
    (callInfo : MethodCallInfo.t) (s : Service.t) : Prop :=
  Service.maxDepth r.2 = Service.maxDepth s
  /\ MethodCallInfo.depth r.1 = MethodCallInfo.depth callInfo
  /\ (depthBounded (Service.maxDepth s) callInfo -> depthBounded (Service.maxDepth s) r.1).

(** A pruned node has no children. *)
Definition leafIfPruned (n : InternalMethodCallInfo.t) : Prop :=
  InternalMethodCallInfo.isRecursive n = true \/ InternalMethodCallInfo.isResolved n = false ->
  InternalMethodCallInfo.children n = [].

(** The visited set only grows, and the configured depth stays. *)
Definition grows (s s' : Service.t) : Prop :=
  Service.maxDepth s' = Service.maxDepth s
  /\ Service.processedMethods s ⊆ Service.processedMethods s'.

(** What holds of the calls a scan at depth [d] returns when it ran from
    service state [s] to [s']. *)
Record ForestInv (d : nat) (s s' : Service.t)
    (calls : list InternalMethodCallInfo.t) : Prop := {
  inv_top : Forall (fun c => InternalMethodCallInfo.depth c = d) calls;
  inv_depth : Forall (fun n => InternalMethodCallInfo.depth n < Service.maxDepth s)
                     (forestNodes calls);
  inv_leaf : Forall leafIfPruned (forestNodes calls);
  inv_nodup : NoDup (expandedKeys calls);
  inv_fresh : forall k, In k (expandedKeys calls) ->
                (k ∉ Service.processedMethods s) /\ (k ∈ Service.processedMethods s')
}.

(** The recursive call keeps the invariant, whatever its outcome. *)
Definition scanOk
    (scan : string -> Range.t -> Uri.t -> nat -> Async (list InternalMethodCallInfo.t))
  : Prop :=
  forall text baseRange uri d s,
    grows s (scan text baseRange uri d s).2
    /\ forall calls, (scan text baseRange uri d s).1 = Fulfilled calls ->
                     ForestInv d s (scan text baseRange uri d s).2 calls.

(** Induction over an outline: a property of a symbol may be proved from
    the property of its children. *)
Section SymbolInduction.

Variable P : DocumentSymbol.t -> Prop.
Hypothesis step : forall n k r sr ch, Forall P ch -> P (DocumentSymbol.mk n k r sr ch).

Fixpoint DocumentSymbol_forest_ind (s : DocumentSymbol.t) : P s :=
  match s with
  | DocumentSymbol.mk n k r sr ch =>
      step n k r sr ch
        ((fix all (l : list DocumentSymbol.t) : Forall P l :=
            match l with
            | [] => @List.Forall_nil _ P
            | c :: l' => @List.Forall_cons _ P c l' (DocumentSymbol_forest_ind c) (all l')
            end) ch)
  end.

End SymbolInduction.

(** ** States of the cache *)

(** The states of the cache: it starts empty (and is emptied again by a
    re-index), and is changed by the handlers of the editor's events
    ([updateFileCache] on save and create, [invalidateFileCache] on change
    and delete), by the indexing of a file, by the lookups of the analysers
    and by [clearMethodCache].  The editor may be in a different state at
    every step. *)
Inductive reachable : WorkspaceSymbolCache.t -> Prop :=
  | reachable_empty : reachable WorkspaceSymbolCache.empty
  | reachable_indexSingleFile w uri c :
      reachable c -> reachable (WorkspaceSymbolCache.indexSingleFile w uri c)
  | reachable_updateFileCache w uri c :
      reachable c -> reachable (WorkspaceSymbolCache.updateFileCache w uri c)
  | reachable_invalidateFileCache uri c :
      reachable c -> reachable (WorkspaceSymbolCache.invalidateFileCache uri c)
  | reachable_getSymbolsForFile w uri forceRefresh c :
      reachable c ->
      reachable (WorkspaceSymbolCache.getSymbolsForFile w uri forceRefresh c).2
  | reachable_clearMethodCache c :
      reachable c -> reachable (WorkspaceSymbolCache.clearMethodCache c).

(** What a definition record filed under [methodName] looks like in a
    cache whose two maps agree. *)
Definition recordOk (c : WorkspaceSymbolCache.t) (methodName : string)
    (info : CachedMethodInfo.t) : Prop :=
  CachedMethodInfo.methodName info = methodName
  /\ DocumentSymbol.name (CachedMethodInfo.symbol info) = methodName
  /\ WorkspaceSymbolCache.isMethodSymbol (CachedMethodInfo.symbol info) = true
  /\ CachedMethodInfo.filePath info = Uri.fsPath (CachedMethodInfo.uri info)
  /\ exists cached,
       WorkspaceSymbolCache.symbolCache c !! Uri.toString (CachedMethodInfo.uri info)
         = Some cached
       /\ CachedSymbolInfo.uri cached = CachedMethodInfo.uri info
       /\ In (CachedMethodInfo.symbol info) (preorder (CachedSymbolInfo.symbols cached)).

Definition noEmptyEntry (m : gmap string (list CachedMethodInfo.t)) : Prop :=
  forall n, m !! n <> Some [].

Record Consistent (c : WorkspaceSymbolCache.t) : Prop := {
  consistent_records :
    forall n info, In info (WorkspaceSymbolCache.findMethodsByName c n) -> recordOk c n info;
  consistent_entries : noEmptyEntry (WorkspaceSymbolCache.methodNameCache c)
}.

(** ** The list of the filter *)

(** The entries of the filter's list that are not in lower case. *)
Definition mixedCaseEntries : list string :=
  List.filter (fun entry => negb (String.eqb (toLowerCase entry) entry)) builtInMethods.

(** ** Call sites *)

(** What may stand before a name found by the first expression: nothing,
    or a character that is neither a dot nor a word character. *)
Definition beforeBareCall (c : option ascii) : bool :=
  match c with
  | None => true
  | Some c => negb (Ascii.eqb c "."%char) && negb (isWordChar c)
  end.

(** What stands before a name found by the second expression: a dot. *)
Definition beforePropertyCall (c : option ascii) : bool :=
  match c with
  | None => false
  | Some c => Ascii.eqb c "."%char
  end.

(** A call site of a text: a name of word characters that starts at
    offset [index], is preceded as [preceded] says, and is followed by
    white space, if any, and an opening parenthesis. *)
Definition callSiteAt (preceded : option ascii -> bool) (text : list ascii)
    (methodName : list ascii) (index : nat) : Prop :=
  exists before spaces after,
    text = before ++ methodName ++ spaces ++ "("%char :: after
    /\ length before = index
    /\ methodName <> []
    /\ forallb isWordChar methodName = true
    /\ forallb isSpaceChar spaces = true
    /\ preceded (last before) = true.

(** A non-empty string of word characters. *)
Definition isIdentifier (s : string) : bool :=
  match s with
  | EmptyString => false
  | String _ _ => forallb isWordChar (list_ascii_of_string s)
  end.

(** ** Lookups in an outline *)

(** The test [findSymbolAtRange] makes on a symbol. *)
Definition covers (range : Range.t) (symbol : DocumentSymbol.t) : bool :=
  Range.isEqual (DocumentSymbol.selectionRange symbol) range
  || Range.contains (DocumentSymbol.range symbol) range.

(** Two ranges without a common position. *)
Definition apart (a b : Range.t) : bool :=
  Position.isBefore (Range.end_ a) (Range.start b)
  || Position.isBefore (Range.end_ b) (Range.start a).

Fixpoint siblingsApart (symbols : list DocumentSymbol.t) : bool :=
  match symbols with
  | [] => true
  | s :: rest =>
      forallb (fun r => apart (DocumentSymbol.range s) (DocumentSymbol.range r)) rest
      && siblingsApart rest
  end.

(** An outline as a language server builds it: the selection range of a
    symbol lies in its range, the range of a child lies in the range of
    its parent, and the children of a symbol have ranges without a common
    position. *)
Fixpoint wellNested (s : DocumentSymbol.t) : bool :=
  Range.contains (DocumentSymbol.range s) (DocumentSymbol.selectionRange s)
  && siblingsApart (DocumentSymbol.children s)
  && (fix each (l : list DocumentSymbol.t) : bool :=
        match l with
        | [] => true
        | c :: l' =>
            Range.contains (DocumentSymbol.range s) (DocumentSymbol.range c)
            && wellNested c && each l'
        end) (DocumentSymbol.children s).

Definition wellNestedOutline (symbols : list DocumentSymbol.t) : bool :=
  siblingsApart symbols && forallb wellNested symbols.

(** What a search returns: a symbol of the outline that passes the test,
    and below which nothing passes unless it is an exact match. *)
Definition foundAt (range : Range.t) (symbols : list DocumentSymbol.t)
    (found : DocumentSymbol.t) : Prop :=
  In found (preorder symbols)
  /\ covers range found = true
  /\ (Range.isEqual (DocumentSymbol.selectionRange found) range = true
      \/ forallb (fun c => negb (covers range c)) (DocumentSymbol.children found) = true).

(** ** Trees of callers *)

(** What tells two callers under one node apart: the name, the file and
    the range, as compared when a child is looked for. *)
Definition callerKey (c : MethodCallInfo.t) : string * string * Range.t :=
  (MethodCallInfo.methodName c, Uri.toString (MethodCallInfo.uri c), MethodCallInfo.range c).

(** A node whose children are callers of it, each listed once. *)
Definition nodeOk (n : MethodCallInfo.t) : Prop :=
  NoDup (map callerKey (MethodCallInfo.children n))
  /\ Forall (fun c => MethodCallInfo.depth c = MethodCallInfo.depth n + 1
                      /\ MethodCallInfo.callerMethodName c
                         = Some (MethodCallInfo.methodName n))
            (MethodCallInfo.children n).

(** Two nodes that differ in their children at most. *)
Definition sameNode (a b : MethodCallInfo.t) : Prop :=
  MethodCallInfo.methodName a = MethodCallInfo.methodName b
  /\ MethodCallInfo.uri a = MethodCallInfo.uri b
  /\ MethodCallInfo.range a = MethodCallInfo.range b
  /\ MethodCallInfo.callerMethodName a = MethodCallInfo.callerMethodName b
  /\ MethodCallInfo.depth a = MethodCallInfo.depth b.

Definition hasChildren (n : MethodCallInfo.t) : bool :=
  match MethodCallInfo.children n with [] => false | _ :: _ => true end.

(** The keys of the nodes of a caller tree that were given children. *)
Definition expandedCallers (t : MethodCallInfo.t) : list string :=
  map MethodCallAnalysisService.methodKeyOf (List.filter hasChildren (callNodes t)).

Definition expandedBelow (t : MethodCallInfo.t) : list string :=
  flat_map expandedCallers (MethodCallInfo.children t).

(** What one expansion does to a node: it adds children and nothing
    else; it keeps a tree of callers a tree of callers; and the nodes it
    gives children to are methods that had not been visited. *)
Record BackwardInv (r : MethodCallInfo.t * Service.t) (c : MethodCallInfo.t)
    (d : nat) (s : Service.t) : Prop := {
  bi_same : sameNode r.1 c;
  bi_grows : grows s r.2;
  bi_shape : MethodCallInfo.depth c = d ->
             Forall nodeOk (callNodes c) -> Forall nodeOk (callNodes r.1);
  bi_keys : MethodCallInfo.children c = [] ->
            NoDup (expandedCallers r.1)
            /\ forall k, In k (expandedCallers r.1) ->
                 (k ∉ Service.processedMethods s) /\ (k ∈ Service.processedMethods r.2)
}.

(** The same, for the node that the loops over files and references fill:
    [c0] and [s1] are the node and the service when the loops start. *)
Record LoopInv (acc : MethodCallInfo.t * Service.t) (c0 : MethodCallInfo.t)
    (d : nat) (s1 : Service.t) : Prop := {
  li_same : sameNode acc.1 c0;
  li_grows : grows s1 acc.2;
  li_shape : MethodCallInfo.depth c0 = d ->
             Forall nodeOk (callNodes c0) -> Forall nodeOk (callNodes acc.1);
  li_keys : MethodCallInfo.children c0 = [] ->
            NoDup (expandedBelow acc.1)
            /\ forall k, In k (expandedBelow acc.1) ->
                 (k ∉ Service.processedMethods s1) /\ (k ∈ Service.processedMethods acc.2)
}.

(** ** Groups of references and induction over call trees *)

(** What [callsByFile] holds when [processed] are the references gone
    through: one group for each file, with the references of the file in
    the order met. *)
Definition inFile (key : string) (ref : Location.t) : bool :=
  bool_decide (Uri.toString (Location.uri ref) = key).

Record GroupsOf (processed : list Location.t)
    (callsByFile : list (Uri.t * list Location.t)) : Prop := {
  groups_keys : NoDup (map (fun group => Uri.toString group.1) callsByFile);
  groups_members :
    Forall (fun group =>
              group.2 = List.filter (inFile (Uri.toString group.1)) processed
              /\ group.2 <> []) callsByFile;
  groups_all :
    forall ref, In ref processed ->
      In (Uri.toString (Location.uri ref))
         (map (fun group => Uri.toString group.1) callsByFile)
}.

(** Induction over a caller tree. *)
Section CallTreeInduction.

Variable P : MethodCallInfo.t -> Prop.
Hypothesis step : forall n u r c d ch, Forall P ch -> P (MethodCallInfo.mk n u r c d ch).

Fixpoint MethodCallInfo_forest_ind (t : MethodCallInfo.t) : P t :=
  match t with
  | MethodCallInfo.mk n u r c d ch =>
      step n u r c d ch
        ((fix all (l : list MethodCallInfo.t) : Forall P l :=
            match l with
            | [] => @List.Forall_nil _ P
            | x :: l' => @List.Forall_cons _ P x l' (MethodCallInfo_forest_ind x) (all l')
            end) ch)
  end.

End CallTreeInduction.

(** Induction over a tree of internal calls. *)
Section InternalCallTreeInduction.

Variable P : InternalMethodCallInfo.t -> Prop.
Hypothesis step : forall n u r du dr d ch res rec,
  Forall P ch -> P (InternalMethodCallInfo.mk n u r du dr d ch res rec).

Fixpoint InternalMethodCallInfo_forest_ind (t : InternalMethodCallInfo.t) : P t :=
  match t with
  | InternalMethodCallInfo.mk n u r du dr d ch res rec =>
      step n u r du dr d ch res rec
        ((fix all (l : list InternalMethodCallInfo.t) : Forall P l :=
            match l with
            | [] => @List.Forall_nil _ P
            | x :: l' =>
                @List.Forall_cons _ P x l' (InternalMethodCallInfo_forest_ind x) (all l')
            end) ch)
  end.

End InternalCallTreeInduction.

(** ** Shape of a recorded call *)

(** The number of colons of a string. *)
Fixpoint colons (s : string) : nat :=
  match s with
  | EmptyString => 0
  | String c s' => (if Ascii.eqb c ":"%char then 1 else 0) + colons s'
  end.

(** The visited set holds keys of definitions only: a file, a line and a
    character, with a colon between them. *)
Definition definitionKeys (s : Service.t) : Prop :=
  forall k, k ∈ Service.processedMethods s -> 2 <= colons k.

(** A call as the scan records it: the name is an identifier that
    passed the filter, and the call is resolved exactly when it carries
    the file and the range of a definition; a call without a definition
    is not flagged as recursive. *)
Definition callShape (n : InternalMethodCallInfo.t) : Prop :=
  isIdentifier (InternalMethodCallInfo.methodName n) = true
  /\ isBuiltInOrCommon (InternalMethodCallInfo.methodName n) = false
  /\ match InternalMethodCallInfo.definitionUri n,
           InternalMethodCallInfo.definitionRange n with
     | Some _, Some _ => InternalMethodCallInfo.isResolved n = true
     | None, None =>
         InternalMethodCallInfo.isResolved n = false
         /\ InternalMethodCallInfo.isRecursive n = false
     | _, _ => False
     end.

(** The recursive call keeps the keys of the visited set keys of
    definitions, and returns calls of that shape. *)
Definition shapeOk
    (scan : string -> Range.t -> Uri.t -> nat -> Async (list InternalMethodCallInfo.t))
  : Prop :=
  forall text baseRange uri d s,
    definitionKeys s ->
    definitionKeys (scan text baseRange uri d s).2
    /\ forall calls, (scan text baseRange uri d s).1 = Fulfilled calls ->
                     Forall callShape (forestNodes calls).

(** ** Symbol outlines *)

Lemma preorderSymbol_unfold s :
  preorderSymbol s = s :: preorder (DocumentSymbol.children s).
Proof.
  destruct s; reflexivity.
Qed.

Lemma preorder_cons s rest :
  preorder (s :: rest) = s :: preorder (DocumentSymbol.children s) ++ preorder rest.
Proof. unfold preorder at 1; simpl. by rewrite preorderSymbol_unfold. Qed.

(** ** The method-name cache *)

Section CacheFacts.

Import WorkspaceSymbolCache.

Lemma extractMethodsFromSymbol_unfold uri symbol m :
  extractMethodsFromSymbol uri symbol m =
  extractMethodsFromSymbols uri (DocumentSymbol.children symbol)
    (if isMethodSymbol symbol then addMethod uri symbol m else m).
Proof.
  destruct symbol; reflexivity.
Qed.

Lemma lookup_removeMethodsFromCache uri (m : gmap string (list CachedMethodInfo.t)) n :
  default [] (removeMethodsFromCache uri m !! n) =
  List.filter (fun info => negb (fromFile (Uri.toString uri) info)) (default [] (m !! n)).
Proof.
  unfold removeMethodsFromCache. rewrite lookup_omap.
  destruct (m !! n) as [l|]; simpl; [|done].
  unfold withoutFile. by destruct (List.filter _ l).
Qed.

Lemma lookup_addMethod uri symbol (m : gmap string (list CachedMethodInfo.t)) n :
  default [] (addMethod uri symbol m !! n) =
  default [] (m !! n) ++
  List.filter (named n)
    [CachedMethodInfo.mk (DocumentSymbol.name symbol) uri symbol (Uri.fsPath uri)].
Proof.
  unfold addMethod, named; simpl.
  destruct (decide (DocumentSymbol.name symbol = n)) as [->|Hne].
  - rewrite lookup_insert_eq, bool_decide_eq_true_2 by done. done.
  - rewrite lookup_insert_ne, bool_decide_eq_false_2 by done. simpl. by rewrite app_nil_r.
Qed.

Lemma methodInfosOf_app uri l1 l2 :
  methodInfosOf uri (l1 ++ l2) = methodInfosOf uri l1 ++ methodInfosOf uri l2.
Proof.
  unfold methodInfosOf, preorder.
  by rewrite flat_map_app, List.filter_app, map_app.
Qed.

Lemma methodInfosOf_single uri s :
  methodInfosOf uri [s] =
  (if isMethodSymbol s
   then [CachedMethodInfo.mk (DocumentSymbol.name s) uri s (Uri.fsPath uri)] else [])
  ++ methodInfosOf uri (DocumentSymbol.children s).
Proof.
  unfold methodInfosOf. rewrite preorder_cons. simpl. rewrite app_nil_r.
  by destruct (isMethodSymbol s).
Qed.

Lemma lookup_extractMethodsFromSymbols_if uri symbols :
  Forall (extractsItsMethods uri) symbols ->
  forall (m : gmap string (list CachedMethodInfo.t)) n,
    default [] (extractMethodsFromSymbols uri symbols m !! n) =
    default [] (m !! n) ++ List.filter (named n) (methodInfosOf uri symbols).
Proof.
  induction 1 as [|s rest Hs _ IH]; intros m n.
  - unfold extractMethodsFromSymbols, methodInfosOf; simpl. by rewrite app_nil_r.
  - change (extractMethodsFromSymbols uri (s :: rest) m)
      with (extractMethodsFromSymbols uri rest (extractMethodsFromSymbol uri s m)).
    rewrite IH, Hs.
    change (s :: rest) with ([s] ++ rest).
    by rewrite methodInfosOf_app, List.filter_app, app_assoc.
Qed.

Lemma extractMethodsFromSymbol_lookup uri s : extractsItsMethods uri s.
Proof.
  induction s as [nm k r sr ch IH] using DocumentSymbol_forest_ind.
  intros m n. rewrite extractMethodsFromSymbol_unfold.
  rewrite (lookup_extractMethodsFromSymbols_if uri _ IH).
  rewrite methodInfosOf_single, List.filter_app, app_assoc. f_equal.
  destruct (isMethodSymbol _).
  - apply lookup_addMethod.
  - simpl. by rewrite app_nil_r.
Qed.

Lemma lookup_extractMethodsFromSymbols uri symbols
    (m : gmap string (list CachedMethodInfo.t)) n :
  default [] (extractMethodsFromSymbols uri symbols m !! n) =
  default [] (m !! n) ++ List.filter (named n) (methodInfosOf uri symbols).
Proof.
  apply lookup_extractMethodsFromSymbols_if.
  apply Forall_forall. intros s _. apply extractMethodsFromSymbol_lookup.
Qed.

Lemma methodInfosOf_fromFile uri symbols info :
  In info (methodInfosOf uri symbols) -> CachedMethodInfo.uri info = uri.
Proof.
  unfold methodInfosOf. rewrite in_map_iff. by intros (s & <- & _).
Qed.

Lemma filter_all {A} (p : A -> bool) (l : list A) :
  (forall x, In x l -> p x = true) -> List.filter p l = l.
Proof.
  induction l as [|x l IH]; simpl; intros H; [done|].
  rewrite (H x) by auto. f_equal. apply IH. auto.
Qed.

Lemma filter_none {A} (p : A -> bool) (l : list A) :
  (forall x, In x l -> p x = false) -> List.filter p l = [].
Proof.
  induction l as [|x l IH]; simpl; intros H; [done|].
  rewrite (H x) by auto. apply IH. auto.
Qed.

Lemma filter_idem {A} (p : A -> bool) (l : list A) :
  List.filter p (List.filter p l) = List.filter p l.
Proof.
  apply filter_all. intros x Hx. by apply List.filter_In in Hx as [_ ?].
Qed.

(** What the lookups of a freshly indexed file hold: the records of the
    other files, then the file's own. *)
Lemma findMethodsByName_storeFile w uri c document symbols n :
  World.openTextDocument w uri = Some document ->
  World.executeDocumentSymbolProvider w uri = Resolves symbols ->
  findMethodsByName (storeFile w uri c) n =
  List.filter (fun info => negb (fromFile (Uri.toString uri) info)) (findMethodsByName c n)
  ++ List.filter (named n) (methodInfosOf uri symbols).
Proof.
  intros Hdoc Hsym. unfold findMethodsByName, storeFile. rewrite Hdoc, Hsym. simpl.
  unfold buildMethodNameCacheForFile.
  by rewrite lookup_extractMethodsFromSymbols, lookup_removeMethodsFromCache.
Qed.

Lemma findMethodsByName_invalidate_stored w uri c document symbols n :
  World.openTextDocument w uri = Some document ->
  World.executeDocumentSymbolProvider w uri = Resolves symbols ->
  findMethodsByName (invalidateFileCache uri (storeFile w uri c)) n =
  List.filter (fun info => negb (fromFile (Uri.toString uri) info)) (findMethodsByName c n).
Proof.
  intros Hdoc Hsym.
  pose proof (findMethodsByName_storeFile w uri c document symbols n Hdoc Hsym) as Hst.
  unfold invalidateFileCache.
  assert (Hin : is_Some (symbolCache (storeFile w uri c) !! Uri.toString uri)).
  { unfold storeFile. rewrite Hdoc, Hsym. simpl. rewrite lookup_insert_eq. eauto. }
  destruct Hin as [e ->].
  unfold findMethodsByName in *. simpl.
  rewrite lookup_removeMethodsFromCache, Hst, List.filter_app, filter_idem.
  rewrite (filter_none _ (List.filter (named n) _)), app_nil_r; [done|].
  intros info [Hin _]%List.filter_In.
  apply methodInfosOf_fromFile in Hin. unfold fromFile.
  rewrite Hin, bool_decide_eq_true_2; done.
Qed.

(** C6. Cache invalidation round trip.  For a file [F] that the editor
    can open and outline: after indexing [F] and then invalidating it, a
    lookup of a name that only [F] defined is empty, no record of [F] is
    left under any name and [F] has no symbol entry; indexing [F] again
    gives every lookup the value it had after the first indexing, the part
    contributed by [F] being exactly the records of its outline. *)
Theorem C6_invalidate_reindex_roundtrip w F c document symbols :
  World.openTextDocument w F = Some document ->
  World.executeDocumentSymbolProvider w F = Resolves symbols ->
  let indexed := indexSingleFile w F c in
  let invalidated := invalidateFileCache F indexed in
  let reindexed := indexSingleFile w F invalidated in
  (forall n,
      (forall info, In info (findMethodsByName indexed n) ->
                    Uri.toString (CachedMethodInfo.uri info) = Uri.toString F) ->
      findMethodsByName invalidated n = [])
  /\ (forall n info, In info (findMethodsByName invalidated n) ->
                     Uri.toString (CachedMethodInfo.uri info) <> Uri.toString F)
  /\ symbolCache invalidated !! Uri.toString F = None
  /\ (forall n, findMethodsByName reindexed n = findMethodsByName indexed n)
  /\ (forall n, List.filter (fromFile (Uri.toString F)) (findMethodsByName reindexed n)
                = List.filter (named n) (methodInfosOf F symbols)).
Proof.
  intros Hdoc Hsym indexed invalidated reindexed.
  assert (Hidx : forall n, findMethodsByName indexed n =
    List.filter (fun info => negb (fromFile (Uri.toString F) info)) (findMethodsByName c n)
    ++ List.filter (named n) (methodInfosOf F symbols)).
  { intros n. by apply (findMethodsByName_storeFile w F c document symbols). }
  assert (Hinv : forall n, findMethodsByName invalidated n =
    List.filter (fun info => negb (fromFile (Uri.toString F) info)) (findMethodsByName c n)).
  { intros n. by apply (findMethodsByName_invalidate_stored w F c document symbols). }
  assert (Hre : forall n, findMethodsByName reindexed n = findMethodsByName indexed n).
  { intros n. unfold reindexed, indexSingleFile.
    rewrite (findMethodsByName_storeFile w F invalidated document symbols n Hdoc Hsym).
    by rewrite Hinv, filter_idem, Hidx. }
  repeat split.
  - intros n Honly. rewrite Hinv.
    apply filter_none. intros info Hin.
    destruct (fromFile (Uri.toString F) info) eqn:Hfrom; [done|].
    assert (Hkept : In info (findMethodsByName indexed n)).
    { rewrite Hidx. apply in_or_app. left. apply List.filter_In. by rewrite Hfrom. }
    apply Honly in Hkept. unfold fromFile in Hfrom.
    by rewrite bool_decide_eq_true_2 in Hfrom.
  - intros n info. rewrite Hinv. intros [_ Hnot]%List.filter_In Heq.
    unfold fromFile in Hnot. by rewrite bool_decide_eq_true_2 in Hnot.
  - unfold invalidated, invalidateFileCache, indexed, indexSingleFile, storeFile.
    rewrite Hdoc, Hsym. simpl. rewrite lookup_insert_eq. simpl. apply lookup_delete_eq.
  - apply Hre.
  - intros n. rewrite Hre, Hidx, List.filter_app.
    rewrite (filter_none (fromFile _) (List.filter (fun info => negb _) _)).
    + simpl. apply filter_all. intros info [Hin _]%List.filter_In.
      apply methodInfosOf_fromFile in Hin. unfold fromFile.
      by rewrite Hin, bool_decide_eq_true_2.
    + intros info [_ Hnot]%List.filter_In. by destruct (fromFile _ info).
Qed.

(** The round trip on the sample workspace: its one file is indexed into
    an empty cache. *)
Lemma C6_roundtrip_witness :
  let w := OpenExample.world in
  let F := OpenExample.uri in
  let indexed := indexSingleFile w F WorkspaceSymbolCache.empty in
  let invalidated := invalidateFileCache F indexed in
  let reindexed := indexSingleFile w F invalidated in
  findMethodsByName invalidated "open" = []
  /\ findMethodsByName reindexed "open" = findMethodsByName indexed "open".
Proof.
  intros w F indexed invalidated reindexed.
  destruct (C6_invalidate_reindex_roundtrip w F WorkspaceSymbolCache.empty
              (textDocumentOf 1 OpenExample.text) OpenExample.symbols
              eq_refl eq_refl) as (Hgone & _ & _ & Hback & _).
  split.
  - apply Hgone. intros info Hin. vm_compute in Hin.
    destruct Hin as [<-|[]]. reflexivity.
  - apply Hback.
Defined.

End CacheFacts.


(** ** The definition resolver *)

Section ResolverFacts.

Import WorkspaceSymbolCache.

(** What [findMethodDefinition] returns, case by case.  The second
    preference is a test on strings: the candidate's path begins with the
    context path cut at its last separator. *)
Lemma findMethodDefinition_cases c methodName contextUri :
  let methods := findMethodsByName c methodName in
  match methods with
  | [] => findMethodDefinition c methodName contextUri = None
  | [only] => findMethodDefinition c methodName contextUri = Some only
  | first :: _ :: _ =>
      match contextUri with
      | None => findMethodDefinition c methodName contextUri = Some first
      | Some u =>
          let sameFile := fun m =>
            bool_decide (Uri.toString (CachedMethodInfo.uri m) = Uri.toString u) in
          let sameDir := fun m =>
            startsWith (CachedMethodInfo.filePath m) (dirnameOf (Uri.fsPath u)) in
          findMethodDefinition c methodName contextUri =
          match List.find sameFile methods with
          | Some m => Some m
          | None =>
              match List.find sameDir methods with
              | Some m => Some m
              | None => Some first
              end
          end
      end
  end.
Proof.
  unfold findMethodDefinition. simpl.
  destruct (findMethodsByName c methodName) as [|first [|second rest]]; try done.
  destruct contextUri as [u|]; [|done].
  by repeat case_match.
Qed.

(** The tie-break scenario: resolved from the file of a candidate, that
    candidate wins; resolved from an unrelated file, the candidate indexed
    first wins. *)
Example findMethodDefinition_tie_break :
  findMethodDefinition HelperExample.cache "helper" (Some HelperExample.libUri)
    = Some HelperExample.inLib
  /\ findMethodDefinition HelperExample.cache "helper" (Some HelperExample.genUri)
    = Some HelperExample.inGen
  /\ findMethodDefinition HelperExample.cache "helper" (Some HelperExample.unrelatedUri)
    = Some HelperExample.inLib
  /\ findMethodDefinition HelperExample.cache "helper" None = Some HelperExample.inLib
  /\ findMethodDefinition HelperExample.cache "missing" (Some HelperExample.libUri) = None.
Proof. vm_compute. repeat split. Qed.

(** C4. Resolving [helper] from [/proj/src/a.ts]: no candidate is in that
    file and none lies under [/proj/src/], so the candidate indexed first,
    in [/proj/lib], is the one to return; the resolver returns the one in
    [/proj/src-gen], whose path begins with the characters of
    [/proj/src]. *)
Theorem C4_findMethodDefinition_sibling_prefix :
  let contextDir := dirnameOf (Uri.fsPath HelperExample.contextUri) in
  findMethodsByName HelperExample.cache "helper"
    = [HelperExample.inLib; HelperExample.inGen]
  /\ contextDir = "/proj/src"
  /\ Forall (fun m => Uri.toString (CachedMethodInfo.uri m)
                      <> Uri.toString HelperExample.contextUri
                      /\ liesUnder contextDir (CachedMethodInfo.filePath m) = false)
            (findMethodsByName HelperExample.cache "helper")
  /\ findMethodDefinition HelperExample.cache "helper" (Some HelperExample.contextUri)
     = Some HelperExample.inGen
  /\ HelperExample.inGen <> HelperExample.inLib.
Proof.
  vm_compute. repeat split; try discriminate.
  repeat constructor; discriminate.
Qed.

End ResolverFacts.

(** ** The method around a reference *)

Section CallerFacts.

Import MethodCallAnalysisService.

Lemma find_app {A} (p : A -> bool) (l1 l2 : list A) :
  List.find p (l1 ++ l2) =
  match List.find p l1 with Some x => Some x | None => List.find p l2 end.
Proof. induction l1 as [|x l1 IH]; simpl; [done|]. by destruct (p x). Qed.

Lemma findContainingMethodIn_unfold range symbol :
  findContainingMethodIn range symbol =
  if encloses range symbol then Some symbol
  else findContainingMethod range (DocumentSymbol.children symbol).
Proof.
  destruct symbol as [n k r sr ch].
  change (findContainingMethodIn range (DocumentSymbol.mk n k r sr ch))
    with (if encloses range (DocumentSymbol.mk n k r sr ch)
          then Some (DocumentSymbol.mk n k r sr ch)
          else (fix each (l : list DocumentSymbol.t) : option DocumentSymbol.t :=
                  match l with
                  | [] => None
                  | c :: l' =>
                      match findContainingMethodIn range c with
                      | Some found => Some found
                      | None => each l'
                      end
                  end) ch).
  destruct (encloses range _); [done|]. simpl.
  induction ch as [|c ch IH]; simpl; [done|].
  by destruct (findContainingMethodIn range c).
Qed.

Lemma findContainingMethod_preorder range symbols :
  findContainingMethod range symbols = List.find (encloses range) (preorder symbols).
Proof.
  assert (Hlist : forall l,
    Forall (fun s => findContainingMethodIn range s
                     = List.find (encloses range) (preorderSymbol s)) l ->
    findContainingMethod range l = List.find (encloses range) (preorder l)).
  { induction 1 as [|s l Hs _ IH]; [done|].
    unfold preorder; simpl. rewrite find_app, <- Hs.
    destruct (findContainingMethodIn range s); [done|]. apply IH. }
  apply Hlist, Forall_forall. intros s _.
  induction s as [n k r sr ch IH] using DocumentSymbol_forest_ind.
  rewrite findContainingMethodIn_unfold, preorderSymbol_unfold. simpl.
  destruct (encloses range _); [done|]. by apply Hlist.
Qed.

(** C3. The caller attributed to a reference is the first
    symbol, in pre-order of the file's outline, that is a method, function
    or constructor and whose range contains the reference: an enclosing
    method is found before anything nested in it.  Without such a symbol
    the reference leaves the node and the state as they were; with one
    that is not yet a child, the child pushed is that symbol's expansion
    at the next depth. *)
Theorem C3_caller_is_first_enclosing_in_preorder
    recur uri symbols currentDepth callInfo s location :
  findContainingMethod (Location.range location) symbols
    = List.find (encloses (Location.range location)) (preorder symbols)
  /\ (findContainingMethod (Location.range location) symbols = None ->
      visitLocation recur uri symbols currentDepth (callInfo, s) location = (callInfo, s))
  /\ (forall callingMethod,
        findContainingMethod (Location.range location) symbols = Some callingMethod ->
        List.find (sameCaller callingMethod uri) (MethodCallInfo.children callInfo) = None ->
        let childCallInfo :=
          MethodCallInfo.mk (DocumentSymbol.name callingMethod) uri
            (DocumentSymbol.selectionRange callingMethod)
            (Some (MethodCallInfo.methodName callInfo)) (currentDepth + 1) [] in
        visitLocation recur uri symbols currentDepth (callInfo, s) location
        = (MethodCallInfo.push callInfo (recur childCallInfo (currentDepth + 1) s).1,
           (recur childCallInfo (currentDepth + 1) s).2)).
Proof.
  split; [apply findContainingMethod_preorder|]. split.
  - intros Hnone. unfold visitLocation. by rewrite Hnone.
  - intros callingMethod Hsome Hnew childCallInfo. unfold visitLocation.
    rewrite Hsome, Hnew. fold childCallInfo.
    by destruct (recur childCallInfo (currentDepth + 1) s).
Qed.

(** The call of [open] inside the callback of [openLater]: the reference
    is attributed to [openLater]. *)
Lemma C3_caller_witness :
  let location := Location.mk OpenExample.uri NestedExample.callOfOpen in
  let root := MethodCallInfo.mk "open" OpenExample.uri (rangeOf 5 11 5 15) None 0 [] in
  let s := Service.initial WorkspaceSymbolCache.empty in
  MethodCallInfo.children
    (visitLocation (fun c _ s => (c, s)) OpenExample.uri NestedExample.symbols 0
       (root, s) location).1
  = [MethodCallInfo.mk "openLater" OpenExample.uri (rangeOf 17 11 17 20) (Some "open") 1 []].
Proof.
  intros location root s.
  destruct (C3_caller_is_first_enclosing_in_preorder (fun c _ s => (c, s))
              OpenExample.uri NestedExample.symbols 0 root s location) as (_ & _ & Hsome).
  rewrite (Hsome NestedExample.openLater); reflexivity.
Defined.

(** The same reference refutes "smallest enclosing": the callback is an
    enclosing function whose range lies inside that of [openLater], yet
    [openLater] is the caller found. *)
Lemma C3_not_smallest_enclosing :
  findContainingMethod NestedExample.callOfOpen NestedExample.symbols
    = Some NestedExample.openLater
  /\ smallestEnclosing NestedExample.callOfOpen NestedExample.symbols NestedExample.callback
  /\ ~ smallestEnclosing NestedExample.callOfOpen NestedExample.symbols NestedExample.openLater.
Proof.
  split; [reflexivity|]. split.
  - split; [simpl; tauto|]. split; [reflexivity|].
    intros m' Hin Henc. simpl in Hin.
    destruct Hin as [<-|[<-|[<-|[]]]]; try reflexivity; discriminate.
  - intros (_ & _ & Hmin).
    specialize (Hmin NestedExample.callback). simpl in Hmin.
    assert (false = true) by (apply Hmin; [tauto|reflexivity]). discriminate.
Qed.

End CallerFacts.


(** ** What a run leaves of the service object *)

Lemma fold_left_invariant {A B} (I : A -> Prop) (f : A -> B -> A) (l : list B) (a : A) :
  I a -> (forall a b, I a -> I (f a b)) -> I (fold_left f l a).
Proof.
  intros Ha Hstep. revert a Ha.
  induction l as [|b l IH]; simpl; intros a Ha; [done|]. apply IH. by apply Hstep.
Qed.

Lemma cacheOnly_refl s : cacheOnly s s.
Proof. by split. Qed.

Lemma cacheOnly_trans s1 s2 s3 : cacheOnly s1 s2 -> cacheOnly s2 s3 -> cacheOnly s1 s3.
Proof. intros [? ?] [? ?]. split; congruence. Qed.

Lemma getSymbolsForFile_cacheOnly w uri s : cacheOnly s (getSymbolsForFile w uri s).2.
Proof.
  unfold getSymbolsForFile.
  by destruct (WorkspaceSymbolCache.getSymbolsForFile w uri false (Service.symbolCache s)).
Qed.

Section BackwardFacts.

Import MethodCallAnalysisService.

Lemma searchFiles_total w methodName files :
  forall locations s, exists found s',
    searchFiles w methodName files locations s = (Fulfilled found, s') /\ cacheOnly s s'.
Proof.
  induction files as [|file rest IH]; intros locations s; simpl.
  - exists locations, s. split; [done|apply cacheOnly_refl].
  - unfold mbind, Async_bind, bind, total.
    pose proof (getSymbolsForFile_cacheOnly w file s) as Hc.
    destruct (getSymbolsForFile w file s) as [symbols s1]. simpl in Hc.
    destruct (IH (findMethodCallsInSymbols methodName symbols file locations) s1)
      as (found & s' & -> & Hc').
    exists found, s'. split; [done|]. by eapply cacheOnly_trans.
Qed.

(** The workspace search never throws: a failed file enumeration is
    caught and gives no reference. *)
Lemma searchWorkspaceForMethod_total w refs methodName s :
  exists found s',
    searchWorkspaceForMethod w refs methodName s = (Fulfilled found, s') /\ cacheOnly s s'.
Proof.
  unfold searchWorkspaceForMethod, tryCatch.
  destruct (0 <? ReferenceIndex.totalReferences refs).
  - unfold searchCachedReferences, ret. eexists _, s. split; [done|apply cacheOnly_refl].
  - unfold searchCachedSymbols. destruct (World.findFiles w) as [files|].
    + destruct (searchFiles_total w methodName files
                  (definitionLocations (Service.symbolCache s) methodName) s)
        as (found & s' & -> & Hc).
      by exists found, s'.
    + unfold throw, ret. exists [], s. split; [done|apply cacheOnly_refl].
Qed.

Lemma callNodes_unfold t :
  callNodes t = t :: flat_map callNodes (MethodCallInfo.children t).
Proof. destruct t; reflexivity. Qed.

Lemma depthBounded_push bound c x :
  depthBounded bound c -> depthBounded bound x -> depthBounded bound (MethodCallInfo.push c x).
Proof.
  unfold depthBounded. rewrite (callNodes_unfold c), (callNodes_unfold (MethodCallInfo.push c x)).
  simpl. rewrite flat_map_app. simpl. rewrite app_nil_r.
  intros [Hc Hch]%Forall_cons Hx. apply Forall_cons. split; [done|].
  apply Forall_app. by split.
Qed.

Lemma expansionOk_refl callInfo s : expansionOk (callInfo, s) callInfo s.
Proof. by repeat split. Qed.

Lemma expansionOk_trans r c1 s1 c0 s0 :
  expansionOk (c1, s1) c0 s0 -> expansionOk r c1 s1 -> expansionOk r c0 s0.
Proof.
  unfold expansionOk; simpl. intros (Hm & Hd & Hb) (Hm' & Hd' & Hb').
  rewrite Hm in *. repeat split; try congruence. auto.
Qed.

Section Expansion.

Variable recur : MethodCallInfo.t -> nat -> Service.t -> MethodCallInfo.t * Service.t.
Variable w : World.t.
Hypothesis recur_ok : forall c d s, expansionOk (recur c d s) c s.

Lemma visitLocation_ok uri symbols currentDepth callInfo s location :
  currentDepth < Service.maxDepth s ->
  expansionOk (visitLocation recur uri symbols currentDepth (callInfo, s) location) callInfo s.
Proof.
  intros Hlt. unfold visitLocation.
  destruct (findContainingMethod _ symbols) as [callingMethod|]; [|apply expansionOk_refl].
  destruct (List.find _ _); [apply expansionOk_refl|].
  set (child := MethodCallInfo.mk _ _ _ _ _ _).
  destruct (recur_ok child (currentDepth + 1) s) as (Hm & Hd & Hb).
  destruct (recur child (currentDepth + 1) s) as [expanded s']. simpl in *.
  repeat split; simpl; [done|].
  intros Hc. apply depthBounded_push; [done|]. apply Hb.
  unfold depthBounded, child. simpl. repeat constructor. simpl. lia.
Qed.

Lemma visitFile_ok currentDepth callInfo s entry :
  currentDepth < Service.maxDepth s ->
  expansionOk (visitFile recur w currentDepth (callInfo, s) entry) callInfo s.
Proof.
  intros Hlt. unfold visitFile. destruct entry as [uri locations].
  destruct (List.filter _ locations) as [|l0 ls] eqn:Hf; [apply expansionOk_refl|].
  pose proof (getSymbolsForFile_cacheOnly w uri s) as [Hm _].
  destruct (getSymbolsForFile w uri s) as [symbols s1]. simpl in Hm.
  assert (H1 : expansionOk (callInfo, s1) callInfo s).
  { repeat split; simpl; auto. }
  destruct symbols as [|sym symbols]; [done|].
  eapply expansionOk_trans; [exact H1|].
  generalize (l0 :: ls). intros filtered.
  apply (fold_left_invariant
           (fun acc => Service.maxDepth acc.2 = Service.maxDepth s1
                       /\ expansionOk acc callInfo s1)).
  - split; [done|apply expansionOk_refl].
  - intros [c' s'] location [Hm' Hacc]. simpl in Hm'.
    assert (Hstep : expansionOk
              (visitLocation recur uri (sym :: symbols) currentDepth (c', s') location) c' s').
    { apply visitLocation_ok. lia. }
    split.
    + destruct Hstep as (-> & _). done.
    + eapply expansionOk_trans; eauto.
Qed.

End Expansion.

Lemma findMethodReferencesWorkspace_ok fuel w refs :
  forall callInfo currentDepth s,
    expansionOk (findMethodReferencesWorkspace fuel w refs callInfo currentDepth s) callInfo s.
Proof.
  induction fuel as [|fuel IH]; intros callInfo currentDepth s; simpl;
    [apply expansionOk_refl|].
  destruct (Service.maxDepth s <=? currentDepth) eqn:Hdepth; [apply expansionOk_refl|].
  apply Nat.leb_gt in Hdepth.
  case_bool_decide; [apply expansionOk_refl|].
  set (s1 := Service.addProcessed _ s).
  destruct (searchWorkspaceForMethod_total w refs (MethodCallInfo.methodName callInfo) s1)
    as (found & s2 & -> & [Hm _]).
  assert (H2 : expansionOk (callInfo, s2) callInfo s) by (repeat split; simpl; auto).
  destruct found as [|ref found]; [done|].
  eapply expansionOk_trans; [exact H2|].
  apply (fold_left_invariant
           (fun acc => Service.maxDepth acc.2 = Service.maxDepth s2
                       /\ expansionOk acc callInfo s2)).
  - split; [done|apply expansionOk_refl].
  - intros [c' s'] entry [Hm' Hacc]. simpl in Hm'.
    assert (Hstep : expansionOk
              (visitFile (findMethodReferencesWorkspace fuel w refs) w currentDepth
                 (c', s') entry) c' s').
    { apply visitFile_ok; [apply IH|]. unfold s1 in Hm. simpl in Hm. lia. }
    split.
    + destruct Hstep as (-> & _). done.
    + eapply expansionOk_trans; eauto.
Qed.

(** The backward entry point, unfolded: it always returns the root. *)
Lemma analyzeMethodCalls_unfold w refs methodSymbol uri s :
  analyzeMethodCalls w refs methodSymbol uri s =
  let s0 := Service.clearProcessed s in
  let r := findMethodReferencesWorkspace (Service.maxDepth s0) w refs
             (MethodCallInfo.mk (DocumentSymbol.name methodSymbol) uri
                (DocumentSymbol.selectionRange methodSymbol) None 0 []) 0 s0 in
  (Fulfilled (Some r.1), r.2).
Proof.
  unfold analyzeMethodCalls, analyzeMethodCallsTry, tryCatch, total. simpl.
  by destruct (findMethodReferencesWorkspace _ _ _ _ _ _).
Qed.

End BackwardFacts.

(** ** The forest a forward scan builds *)

Lemma grows_refl s : grows s s.
Proof. by split. Qed.

Lemma grows_trans s1 s2 s3 : grows s1 s2 -> grows s2 s3 -> grows s1 s3.
Proof. intros [? ?] [? ?]. split; [congruence|set_solver]. Qed.

Lemma cacheOnly_grows s s' : cacheOnly s s' -> grows s s'.
Proof. intros [? Hp]. split; [done|]. by rewrite Hp. Qed.

Lemma grows_addProcessed k s : grows s (Service.addProcessed k s).
Proof. split; [done|]. simpl. set_solver. Qed.

Lemma internalNodes_unfold t :
  internalNodes t = t :: forestNodes (InternalMethodCallInfo.children t).
Proof. destruct t; reflexivity. Qed.

Lemma forestNodes_app a b : forestNodes (a ++ b) = forestNodes a ++ forestNodes b.
Proof. apply flat_map_app. Qed.

Lemma expandedKeys_app a b : expandedKeys (a ++ b) = expandedKeys a ++ expandedKeys b.
Proof. unfold expandedKeys. by rewrite forestNodes_app, List.filter_app, map_app. Qed.

Lemma sublist_forestNodes a b : sublist a b -> sublist (forestNodes a) (forestNodes b).
Proof.
  induction 1 as [|x l1 l2 _ IH|x l1 l2 _ IH]; simpl.
  - constructor.
  - by apply sublist_app.
  - by apply sublist_inserts_l.
Qed.

Lemma sublist_List_filter {A} (p : A -> bool) a b :
  sublist a b -> sublist (List.filter p a) (List.filter p b).
Proof.
  induction 1 as [|x l1 l2 _ IH|x l1 l2 _ IH]; simpl.
  - constructor.
  - destruct (p x); [by constructor|done].
  - destruct (p x); [by constructor|done].
Qed.

Lemma sublist_map {A B} (f : A -> B) a b : sublist a b -> sublist (map f a) (map f b).
Proof. induction 1; simpl; by constructor. Qed.

Lemma sublist_expandedKeys a b : sublist a b -> sublist (expandedKeys a) (expandedKeys b).
Proof. intros H. by apply sublist_map, sublist_List_filter, sublist_forestNodes. Qed.

Lemma sublist_Forall {A} (P : A -> Prop) a b : sublist a b -> Forall P b -> Forall P a.
Proof.
  intros Hsub Hb. apply Forall_forall. intros x Hx.
  rewrite Forall_forall in Hb. apply Hb. by eapply elem_of_sublist.
Qed.

Lemma sublist_In {A} (x : A) a b : sublist a b -> In x a -> In x b.
Proof. rewrite <- !list_elem_of_In. intros ? ?. by eapply elem_of_sublist. Qed.

Lemma ForestInv_nil d s s' : ForestInv d s s' [].
Proof. split; simpl; [constructor|constructor|constructor|constructor|intros k []]. Qed.

Lemma ForestInv_sublist d s s' calls calls' :
  sublist calls' calls -> ForestInv d s s' calls -> ForestInv d s s' calls'.
Proof.
  intros Hsub [Htop Hdepth Hleaf Hnd Hfresh]. split.
  - by eapply sublist_Forall.
  - eapply sublist_Forall; [|done]. by apply sublist_forestNodes.
  - eapply sublist_Forall; [|done]. by apply sublist_forestNodes.
  - eapply sublist_NoDup; [done|]. by apply sublist_expandedKeys.
  - intros k Hk. apply Hfresh. eapply sublist_In; [|done]. by apply sublist_expandedKeys.
Qed.

Lemma ForestInv_app d s s1 s2 a b :
  grows s s1 -> grows s1 s2 ->
  ForestInv d s s1 a -> ForestInv d s1 s2 b -> ForestInv d s s2 (a ++ b).
Proof.
  intros [Hm1 Hp1] [Hm2 Hp2] [Ha1 Ha2 Ha3 Ha4 Ha5] [Hb1 Hb2 Hb3 Hb4 Hb5]. split.
  - apply Forall_app. by split.
  - rewrite forestNodes_app. apply Forall_app. split; [done|]. by rewrite <- Hm1.
  - rewrite forestNodes_app. apply Forall_app. by split.
  - rewrite expandedKeys_app. apply NoDup_app. repeat split; [done| |done].
    intros k Hka%list_elem_of_In Hkb%list_elem_of_In.
    pose proof (Ha5 k Hka) as [_ Hin]. pose proof (Hb5 k Hkb) as [Hout _]. done.
  - intros k. rewrite expandedKeys_app, in_app_iff. intros [Hk|Hk].
    + pose proof (Ha5 k Hk) as [Hout Hin]. split; [done|]. by apply Hp2.
    + pose proof (Hb5 k Hk) as [Hout Hin]. split; [|done].
      intros Hold. by apply Hout, Hp1.
Qed.

Lemma ForestInv_weaken d s s1 s2 s' calls :
  grows s s1 -> grows s1 s2 -> grows s2 s' ->
  ForestInv d s1 s2 calls -> ForestInv d s s' calls.
Proof.
  intros H1 H2 H3 Hinv.
  rewrite <- (app_nil_r calls), <- (app_nil_l (calls ++ [])).
  apply (ForestInv_app d s s1 s'); [done|by eapply grows_trans| apply ForestInv_nil|].
  apply (ForestInv_app d s1 s2 s'); [done|done|done|apply ForestInv_nil].
Qed.

Lemma ForestInv_leaf d s n :
  InternalMethodCallInfo.depth n = d -> d < Service.maxDepth s ->
  InternalMethodCallInfo.children n = [] -> expanded n = false ->
  ForestInv d s s [n].
Proof.
  intros Hd Hlt Hch Hexp.
  assert (Hnodes : forestNodes [n] = [n]).
  { unfold forestNodes; cbn [flat_map]. by rewrite app_nil_r, internalNodes_unfold, Hch. }
  split; unfold expandedKeys; rewrite ?Hnodes; simpl; rewrite ?Hexp; simpl.
  - by repeat constructor.
  - repeat constructor. lia.
  - repeat constructor. by intros _.
  - constructor.
  - intros k [].
Qed.

Lemma ForestInv_node d s s2 n children :
  InternalMethodCallInfo.depth n = d -> d < Service.maxDepth s ->
  InternalMethodCallInfo.isResolved n = true ->
  InternalMethodCallInfo.isRecursive n = false ->
  recursionKey n ∉ Service.processedMethods s ->
  grows (Service.addProcessed (recursionKey n) s) s2 ->
  ForestInv (d + 1) (Service.addProcessed (recursionKey n) s) s2 children ->
  ForestInv d s s2 [InternalMethodCallInfo.withChildren n children].
Proof.
  intros Hd Hlt Hres Hrec Hfresh [Hm Hp] [_ Hc2 Hc3 Hc4 Hc5].
  set (n' := InternalMethodCallInfo.withChildren n children).
  assert (Hnodes : forestNodes [n'] = n' :: forestNodes children).
  { unfold forestNodes at 1; cbn [flat_map]. rewrite app_nil_r. apply internalNodes_unfold. }
  assert (Hkeys : expandedKeys [n'] = recursionKey n :: expandedKeys children).
  { unfold expandedKeys. rewrite Hnodes. simpl.
    unfold expanded at 1. simpl. rewrite Hres, Hrec. simpl.
    by destruct n. }
  simpl in Hp. split.
  - by repeat constructor.
  - rewrite Hnodes. constructor; [simpl; lia|done].
  - rewrite Hnodes. constructor; [|done].
    unfold leafIfPruned; simpl. rewrite Hres, Hrec. by intros [|].
  - rewrite Hkeys. apply NoDup_cons. split; [|done].
    intros Hin%list_elem_of_In. destruct (Hc5 _ Hin) as [Hout _].
    apply Hout. simpl. apply elem_of_union_l. by apply elem_of_singleton.
  - intros k. rewrite Hkeys. simpl. intros [<-|Hk].
    + split; [done|]. apply Hp. apply elem_of_union_l. by apply elem_of_singleton.
    + pose proof (Hc5 k Hk) as [Hout Hin]. split; [|done]. simpl in Hout.
      intros Hold. apply Hout. by apply elem_of_union_r.
Qed.

Section ForwardFacts.

Import InternalMethodCallAnalysisService.

Lemma removeDuplicateCallsFrom_sublist seen calls :
  sublist (removeDuplicateCallsFrom seen calls) calls.
Proof.
  revert seen. induction calls as [|c calls IH]; intros seen; simpl; [constructor|].
  case_bool_decide; by constructor.
Qed.

Lemma tail_sublist {A} (l : list A) : sublist (tail l) l.
Proof. destruct l; simpl; [constructor|]. by constructor. Qed.

Section Scan.

Variable recur : string -> Range.t -> Uri.t -> nat -> Async (list InternalMethodCallInfo.t).
Variable w : World.t.

(** Expanding a definition never throws: what goes wrong inside is
    caught and leaves the call without children. *)
Lemma expandDefinition_fulfilled definition currentDepth s :
  exists children s',
    expandDefinition recur w definition currentDepth s = (Fulfilled children, s').
Proof.
  unfold expandDefinition, tryCatch.
  match goal with
  | |- context [match ?m s with _ => _ end] => destruct (m s) as [[children|] s']
  end; [by eauto|]. unfold ret. by eauto.
Qed.

(** A definition whose document cannot be opened: the failure is caught
    on the spot, the call keeps no children and the run goes on. *)
Lemma expandDefinition_unopenable definition currentDepth s :
  World.openTextDocument w (Location.uri definition) = None ->
  expandDefinition recur w definition currentDepth s = (Fulfilled [], s).
Proof.
  intros Hnone.
  unfold expandDefinition, tryCatch, mbind, Async_bind, bind, openTextDocument.
  by rewrite Hnone.
Qed.

Lemma visitMatch_fulfilled document baseRange uri currentDepth m s :
  exists callInfo s',
    visitMatch recur w document baseRange uri currentDepth m s = (Fulfilled callInfo, s')
    /\ InternalMethodCallInfo.methodName callInfo = CallMatch.methodName m.
Proof.
  unfold visitMatch.
  destruct (findMethodDefinition w (CallMatch.methodName m) uri s) as [definition|];
    [|unfold ret; by eauto].
  case_bool_decide; [unfold ret; by eauto|].
  unfold mbind, Async_bind, bind.
  destruct (expandDefinition_fulfilled definition currentDepth
              (Service.addProcessed (methodKeyOf (Some definition) (CallMatch.methodName m)) s))
    as (children & s' & ->).
  unfold mret, Async_ret, ret. by eauto.
Qed.

(** The loop: one call for each surviving match, in order; at depth 0
    only for the first. *)
Lemma eachMatch_names document baseRange uri currentDepth matches :
  forall calls s, exists new s',
    eachMatch recur w document baseRange uri currentDepth matches calls s
      = (Fulfilled (calls ++ new), s')
    /\ map InternalMethodCallInfo.methodName new
       = (if currentDepth <? 1 then firstn 1 else id)
           (map CallMatch.methodName (List.filter survives matches)).
Proof.
  induction matches as [|m rest IH]; intros calls s; simpl.
  - exists [], s. rewrite app_nil_r. split; [done|]. by destruct (currentDepth <? 1).
  - unfold survives at 1.
    destruct (bool_decide _ || isBuiltInOrCommon _) eqn:Hskip; simpl.
    + apply IH.
    + unfold mbind, Async_bind, bind.
      destruct (visitMatch_fulfilled document baseRange uri currentDepth m s)
        as (callInfo & s1 & -> & Hname).
      destruct (currentDepth <? 1) eqn:Htop.
      * exists [callInfo], s1. split; [done|]. simpl. by rewrite Hname.
      * destruct (IH (calls ++ [callInfo]) s1) as (new & s' & -> & Hnew).
        exists (callInfo :: new), s'. rewrite <- app_assoc. split; [done|].
        simpl. by rewrite Hname, Hnew.
Qed.

Hypothesis recur_ok : scanOk recur.

Lemma expandDefinition_ok definition currentDepth s :
  exists children s',
    expandDefinition recur w definition currentDepth s = (Fulfilled children, s')
    /\ grows s s' /\ ForestInv (currentDepth + 1) s s' children.
Proof.
  unfold expandDefinition, tryCatch, mbind, Async_bind, bind, openTextDocument.
  destruct (World.openTextDocument w (Location.uri definition)) as [defDocument|];
    [|unfold throw, ret; exists [], s; split; [done|]; split;
       [apply grows_refl|apply ForestInv_nil]].
  unfold ret at 1, total.
  pose proof (getSymbolsForFile_cacheOnly w (Location.uri definition) s) as Hc.
  apply cacheOnly_grows in Hc.
  destruct (getSymbolsForFile w (Location.uri definition) s) as [symbols s1]. simpl in Hc.
  destruct (findSymbolAtRange symbols (Location.range definition)) as [defMethod|];
    [|unfold ret; exists [], s1; split; [done|]; split; [done|apply ForestInv_nil]].
  destruct (recur_ok (TextDocument.getText defDocument (Some (DocumentSymbol.range defMethod)))
              (DocumentSymbol.range defMethod) (Location.uri definition)
              (currentDepth + 1) s1) as [Hg Hinv].
  destruct (recur _ _ _ _ s1) as [[children|] s2]; simpl in *.
  - unfold mret, Async_ret, ret. exists (tail children), s2. split; [done|].
    split; [by eapply grows_trans|].
    eapply ForestInv_sublist; [apply tail_sublist|].
    eapply (ForestInv_weaken _ s s1 s2 s2); eauto using grows_refl.
  - unfold ret. exists [], s2. split; [done|].
    split; [by eapply grows_trans|apply ForestInv_nil].
Qed.

Lemma visitMatch_ok document baseRange uri currentDepth m s :
  currentDepth < Service.maxDepth s ->
  exists callInfo s',
    visitMatch recur w document baseRange uri currentDepth m s = (Fulfilled callInfo, s')
    /\ grows s s' /\ ForestInv currentDepth s s' [callInfo].
Proof.
  intros Hlt. unfold visitMatch.
  set (callRange := Range.new _ _).
  destruct (findMethodDefinition w (CallMatch.methodName m) uri s) as [definition|] eqn:Hdef.
  - case_bool_decide as Hvisited.
    + unfold ret. eexists _, s. split; [done|]. split; [apply grows_refl|].
      by apply ForestInv_leaf.
    + unfold mbind, Async_bind, bind.
      set (key := methodKeyOf (Some definition) (CallMatch.methodName m)) in *.
      destruct (expandDefinition_ok definition currentDepth (Service.addProcessed key s))
        as (children & s' & -> & Hg & Hinv).
      unfold mret, Async_ret, ret. eexists _, s'. split; [done|].
      split; [eapply grows_trans; [apply grows_addProcessed|done]|].
      set (n := InternalMethodCallInfo.mk _ _ _ _ _ _ _ _ _).
      assert (Hkey : recursionKey n = key) by (unfold n, key; by destruct definition).
      apply ForestInv_node; rewrite ?Hkey; try done.
  - unfold ret. eexists _, s. split; [done|]. split; [apply grows_refl|].
    by apply ForestInv_leaf.
Qed.

Lemma eachMatch_ok document baseRange uri currentDepth matches :
  forall calls s,
    currentDepth < Service.maxDepth s ->
    exists new s',
      eachMatch recur w document baseRange uri currentDepth matches calls s
        = (Fulfilled (calls ++ new), s')
      /\ grows s s' /\ ForestInv currentDepth s s' new.
Proof.
  induction matches as [|m rest IH]; intros calls s Hlt; simpl.
  - exists [], s. rewrite app_nil_r. split; [done|].
    split; [apply grows_refl|apply ForestInv_nil].
  - destruct (bool_decide _ || isBuiltInOrCommon _); [by apply IH|].
    unfold mbind, Async_bind, bind.
    destruct (visitMatch_ok document baseRange uri currentDepth m s Hlt)
      as (callInfo & s1 & -> & Hg1 & Hinv1).
    destruct (currentDepth <? 1).
    + by exists [callInfo], s1.
    + destruct (IH (calls ++ [callInfo]) s1) as (new & s' & -> & Hg & Hinv).
      { destruct Hg1 as [-> _]. done. }
      exists (callInfo :: new), s'. rewrite <- app_assoc. split; [done|].
      split; [by eapply grows_trans|].
      by apply (ForestInv_app _ s s1 s' [callInfo] new).
Qed.

End Scan.

Lemma findMethodCallsInText_ok fuel w : scanOk (findMethodCallsInText fuel w).
Proof.
  induction fuel as [|fuel IH]; intros text baseRange uri d s; simpl.
  - split; [apply grows_refl|]. intros calls [= <-]. apply ForestInv_nil.
  - destruct (Service.maxDepth s <=? d) eqn:Hdepth; simpl.
    + split; [apply grows_refl|]. intros calls [= <-]. apply ForestInv_nil.
    + apply Nat.leb_gt in Hdepth.
      unfold mbind, Async_bind, bind, openTextDocument.
      destruct (World.openTextDocument w uri) as [document|]; simpl;
        [|split; [apply grows_refl|done]].
      destruct (eachMatch_ok (findMethodCallsInText fuel w) w IH document baseRange uri d
                  (sortByIndex (findAllMethodCallMatches text)) [] s Hdepth)
        as (new & s' & -> & Hg & Hinv).
      simpl. split; [done|]. intros calls [= <-].
      eapply ForestInv_sublist; [apply removeDuplicateCallsFrom_sublist|done].
Qed.

End ForwardFacts.


(** ** The entry points *)

Section EntryFacts.

Import InternalMethodCallAnalysisService.
Import MethodCallAnalysisService.

Lemma tryCatch_fulfils {A} (m h : Async A) s :
  (forall s1, exists a s', h s1 = (Fulfilled a, s')) ->
  exists a s', tryCatch m h s = (Fulfilled a, s').
Proof.
  intros Hh. unfold tryCatch. destruct (m s) as [[a|] s1]; [by eauto|]. apply Hh.
Qed.

(** The forward entry point, unfolded. *)
Lemma analyzeInternalMethodCallsTry_unfold w methodSymbol uri s :
  analyzeInternalMethodCallsTry w methodSymbol uri s =
  let s0 := Service.clearProcessed s in
  match World.openTextDocument w uri with
  | None => (Rejected, s0)
  | Some document =>
      match findMethodCallsInText (Service.maxDepth s0) w
              (TextDocument.getText document (Some (DocumentSymbol.range methodSymbol)))
              (DocumentSymbol.range methodSymbol) uri 0 s0 with
      | (Fulfilled internalCalls, s') =>
          (Fulfilled (Some (InternalCallAnalysisResult.mk
                              (DocumentSymbol.name methodSymbol) uri
                              (DocumentSymbol.selectionRange methodSymbol)
                              internalCalls (countTotalCalls internalCalls)
                              (Service.maxDepth s'))), s')
      | (Rejected, s') => (Rejected, s')
      end
  end.
Proof.
  unfold analyzeInternalMethodCallsTry, mbind, Async_bind, bind, modify, openTextDocument.
  simpl. destruct (World.openTextDocument w uri) as [document|]; [|done].
  unfold ret, reads, mret, Async_ret, ret. simpl.
  by destruct (findMethodCallsInText _ _ _ _ _ _ _) as [[calls|] s'].
Qed.

Lemma analyzeInternalMethodCalls_grows w methodSymbol uri s :
  Service.maxDepth (analyzeInternalMethodCalls w methodSymbol uri s).2 = Service.maxDepth s.
Proof.
  unfold analyzeInternalMethodCalls, tryCatch.
  rewrite analyzeInternalMethodCallsTry_unfold. simpl.
  destruct (World.openTextDocument w uri) as [document|]; [|done].
  destruct (findMethodCallsInText_ok (Service.maxDepth s) w
              (TextDocument.getText document (Some (DocumentSymbol.range methodSymbol)))
              (DocumentSymbol.range methodSymbol) uri 0 (Service.clearProcessed s))
    as [[Hm _] _].
  simpl in Hm.
  by destruct (findMethodCallsInText _ _ _ _ _ _ _) as [[calls|] s'].
Qed.

Lemma analyzeMethodCalls_maxDepth w refs methodSymbol uri s :
  Service.maxDepth (analyzeMethodCalls w refs methodSymbol uri s).2 = Service.maxDepth s.
Proof.
  rewrite analyzeMethodCalls_unfold. simpl.
  by destruct (findMethodReferencesWorkspace_ok (Service.maxDepth s) w refs
                 (MethodCallInfo.mk (DocumentSymbol.name methodSymbol) uri
                    (DocumentSymbol.selectionRange methodSymbol) None 0 []) 0
                 (Service.clearProcessed s)) as (Hm & _).
Qed.

(** A run starts by emptying the visited set, so it depends on the
    service only through the configured depth and the cache. *)
Lemma analyzeMethodCalls_from_cleared w refs methodSymbol uri s :
  analyzeMethodCalls w refs methodSymbol uri s
  = analyzeMethodCalls w refs methodSymbol uri (Service.clearProcessed s).
Proof. by rewrite !analyzeMethodCalls_unfold. Qed.

Lemma analyzeInternalMethodCalls_from_cleared w methodSymbol uri s :
  analyzeInternalMethodCalls w methodSymbol uri s
  = analyzeInternalMethodCalls w methodSymbol uri (Service.clearProcessed s).
Proof.
  unfold analyzeInternalMethodCalls, tryCatch.
  by rewrite !analyzeInternalMethodCallsTry_unfold.
Qed.

Lemma clearProcessed_eq s s' :
  Service.maxDepth s' = Service.maxDepth s ->
  Service.symbolCache s' = Service.symbolCache s ->
  Service.clearProcessed s' = Service.clearProcessed s.
Proof. unfold Service.clearProcessed. by intros -> ->. Qed.

(** C1. Depth bound.  In the tree a backward run returns the root has
    depth 0 and no node is deeper than the configured depth; the top-level
    calls of a forward run have depth 0 and no node below them is deeper
    than the configured depth; [setMaxDepth] leaves a configured depth
    between 1 and 10. *)
Theorem C1_depth_bound w refs methodSymbol uri s :
  (forall root s',
      analyzeMethodCalls w refs methodSymbol uri s = (Fulfilled (Some root), s') ->
      MethodCallInfo.depth root = 0
      /\ Forall (fun n => MethodCallInfo.depth n <= Service.maxDepth s) (callNodes root))
  /\ (forall result s',
        analyzeInternalMethodCalls w methodSymbol uri s = (Fulfilled (Some result), s') ->
        Forall (fun c => InternalMethodCallInfo.depth c = 0)
               (InternalCallAnalysisResult.calls result)
        /\ Forall (fun n => InternalMethodCallInfo.depth n <= Service.maxDepth s)
                  (forestNodes (InternalCallAnalysisResult.calls result)))
  /\ (forall depth,
        1 <= Service.getMaxDepth (Service.setMaxDepth depth s) <= 10).
Proof.
  split; [intros root s' H; split|split; [intros result s' H; split|intros depth]].
  - rewrite analyzeMethodCalls_unfold in H. simpl in H. injection H as <- _.
    by destruct (findMethodReferencesWorkspace_ok (Service.maxDepth s) w refs
                   (MethodCallInfo.mk (DocumentSymbol.name methodSymbol) uri
                      (DocumentSymbol.selectionRange methodSymbol) None 0 []) 0
                   (Service.clearProcessed s)) as (_ & -> & _).
  - rewrite analyzeMethodCalls_unfold in H. simpl in H. injection H as <- _.
    destruct (findMethodReferencesWorkspace_ok (Service.maxDepth s) w refs
                (MethodCallInfo.mk (DocumentSymbol.name methodSymbol) uri
                   (DocumentSymbol.selectionRange methodSymbol) None 0 []) 0
                (Service.clearProcessed s)) as (_ & _ & Hb).
    apply Hb. unfold depthBounded. simpl. repeat constructor. simpl. lia.
  - revert H. unfold analyzeInternalMethodCalls, tryCatch.
    rewrite analyzeInternalMethodCallsTry_unfold. simpl.
    destruct (World.openTextDocument w uri) as [document|]; [|done].
    destruct (findMethodCallsInText_ok (Service.maxDepth s) w
                (TextDocument.getText document (Some (DocumentSymbol.range methodSymbol)))
                (DocumentSymbol.range methodSymbol) uri 0 (Service.clearProcessed s))
      as [_ Hinv].
    destruct (findMethodCallsInText _ _ _ _ _ _ _) as [[calls|] s1]; [|done].
    intros [= <- _]. simpl. by destruct (Hinv calls eq_refl).
  - revert H. unfold analyzeInternalMethodCalls, tryCatch.
    rewrite analyzeInternalMethodCallsTry_unfold. simpl.
    destruct (World.openTextDocument w uri) as [document|]; [|done].
    destruct (findMethodCallsInText_ok (Service.maxDepth s) w
                (TextDocument.getText document (Some (DocumentSymbol.range methodSymbol)))
                (DocumentSymbol.range methodSymbol) uri 0 (Service.clearProcessed s))
      as [_ Hinv].
    destruct (findMethodCallsInText _ _ _ _ _ _ _) as [[calls|] s1]; [|done].
    intros [= <- _]. simpl. destruct (Hinv calls eq_refl) as [_ Hd _ _ _].
    simpl in Hd. eapply Forall_impl; [exact Hd|]. simpl. intros; lia.
  - unfold Service.getMaxDepth, Service.setMaxDepth. simpl. lia.
Qed.

(** The bound on the two sample runs: [open] analysed backward at depth
    2, [alpha] analysed forward at depth 3. *)
Lemma C1_depth_bound_witness :
  (exists root,
      (analyzeMethodCalls OpenExample.world OpenExample.refs OpenExample.open
         OpenExample.uri OpenExample.service).1 = Fulfilled (Some root)
      /\ MethodCallInfo.depth root = 0
      /\ Forall (fun n => MethodCallInfo.depth n <= 2) (callNodes root))
  /\ (exists result,
        (analyzeInternalMethodCalls CycleExample.world CycleExample.alpha
           CycleExample.uri (CycleExample.service 3)).1 = Fulfilled (Some result)
        /\ Forall (fun n => InternalMethodCallInfo.depth n <= 3)
                  (forestNodes (InternalCallAnalysisResult.calls result))).
Proof.
  split.
  - destruct (C1_depth_bound OpenExample.world OpenExample.refs OpenExample.open
                OpenExample.uri OpenExample.service) as (Hback & _ & _).
    destruct (analyzeMethodCalls _ _ _ _ _) as [o s'] eqn:Hrun.
    assert (Ho : exists root, o = Fulfilled (Some root)).
    { apply (f_equal fst) in Hrun. vm_compute in Hrun. rewrite <- Hrun. by eexists. }
    destruct Ho as [root ->]. exists root. split; [done|].
    apply (Hback root s' eq_refl).
  - destruct (C1_depth_bound CycleExample.world ∅ CycleExample.alpha
                CycleExample.uri (CycleExample.service 3)) as (_ & Hfwd & _).
    destruct (analyzeInternalMethodCalls _ _ _ _) as [o s'] eqn:Hrun.
    assert (Ho : exists result, o = Fulfilled (Some result)).
    { apply (f_equal fst) in Hrun. vm_compute in Hrun. rewrite <- Hrun. by eexists. }
    destruct Ho as [result ->]. exists result. split; [done|].
    apply (Hfwd result s' eq_refl).
Defined.

(** C7. Neither entry point throws: each returns a result or null; and
    when the body of the forward entry point throws, null is what the
    entry point returns. *)
Theorem C7_entry_points_never_throw w refs methodSymbol uri s :
  (exists r s', analyzeMethodCalls w refs methodSymbol uri s = (Fulfilled r, s'))
  /\ (exists r s', analyzeInternalMethodCalls w methodSymbol uri s = (Fulfilled r, s'))
  /\ (forall s',
        analyzeInternalMethodCallsTry w methodSymbol uri s = (Rejected, s') ->
        analyzeInternalMethodCalls w methodSymbol uri s = (Fulfilled None, s')).
Proof.
  split; [|split].
  - apply tryCatch_fulfils. intros s1. by exists None, s1.
  - apply tryCatch_fulfils. intros s1. by exists None, s1.
  - intros s' Hthrown. unfold analyzeInternalMethodCalls, tryCatch. by rewrite Hthrown.
Qed.

(** A forward run on a file the editor cannot open: the body throws and
    the entry point returns null. *)
Lemma C7_null_on_failure_witness :
  (analyzeInternalMethodCalls OpenExample.world CycleExample.alpha CycleExample.uri
     (Service.initial WorkspaceSymbolCache.empty)).1 = Fulfilled None.
Proof.
  destruct (C7_entry_points_never_throw OpenExample.world ∅ CycleExample.alpha
              CycleExample.uri (Service.initial WorkspaceSymbolCache.empty))
    as (_ & _ & Hnull).
  by rewrite (Hnull (Service.clearProcessed (Service.initial WorkspaceSymbolCache.empty))
                eq_refl).
Defined.

(** C8. Determinism.  When a run has left the cache as it found it,
    running the same analysis again in the same world, from the service
    as the first run left it, gives the same outcome, field for field and
    child for child, and leaves the service in the same state. *)
Theorem C8_determinism w refs methodSymbol uri s :
  (forall o1 s1,
      analyzeMethodCalls w refs methodSymbol uri s = (o1, s1) ->
      Service.symbolCache s1 = Service.symbolCache s ->
      analyzeMethodCalls w refs methodSymbol uri s1 = (o1, s1))
  /\ (forall o1 s1,
        analyzeInternalMethodCalls w methodSymbol uri s = (o1, s1) ->
        Service.symbolCache s1 = Service.symbolCache s ->
        analyzeInternalMethodCalls w methodSymbol uri s1 = (o1, s1)).
Proof.
  split; intros o1 s1 Hrun Hcache.
  - rewrite analyzeMethodCalls_from_cleared, (clearProcessed_eq s s1),
      <- analyzeMethodCalls_from_cleared; [done| |done].
    by rewrite <- (analyzeMethodCalls_maxDepth w refs methodSymbol uri s), Hrun.
  - rewrite analyzeInternalMethodCalls_from_cleared, (clearProcessed_eq s s1),
      <- analyzeInternalMethodCalls_from_cleared; [done| |done].
    by rewrite <- (analyzeInternalMethodCalls_grows w methodSymbol uri s), Hrun.
Qed.

(** A run that fills the cache is not repeated by the next one: with an
    empty cache [alpha] is resolved by the definition provider, and the
    expansion indexes the file; the second run resolves [alpha] from the
    cache. *)
Example rerun_after_cache_fill :
  let run := analyzeInternalMethodCalls ColdCacheExample.world CycleExample.alpha
               CycleExample.uri in
  Service.symbolCache (run ColdCacheExample.service).2
    <> Service.symbolCache ColdCacheExample.service
  /\ (run (run ColdCacheExample.service).2).1 <> (run ColdCacheExample.service).1.
Proof. vm_compute. split; discriminate. Qed.

(** Both sample runs leave the cache untouched, and repeat. *)
Lemma C8_determinism_witness :
  let back := analyzeMethodCalls OpenExample.world OpenExample.refs OpenExample.open
                OpenExample.uri in
  let fwd := analyzeInternalMethodCalls CycleExample.world CycleExample.alpha
               CycleExample.uri in
  back (back OpenExample.service).2 = back OpenExample.service
  /\ fwd (fwd (CycleExample.service 3)).2 = fwd (CycleExample.service 3).
Proof.
  intros back fwd.
  destruct (C8_determinism OpenExample.world OpenExample.refs OpenExample.open
              OpenExample.uri OpenExample.service) as [Hback _].
  destruct (C8_determinism CycleExample.world ∅ CycleExample.alpha
              CycleExample.uri (CycleExample.service 3)) as [_ Hfwd].
  split.
  - destruct (back OpenExample.service) as [o1 s1] eqn:Hrun. simpl.
    apply Hback; [done|].
    apply (f_equal (fun r => Service.symbolCache r.2)) in Hrun. simpl in Hrun.
    rewrite <- Hrun. vm_compute. reflexivity.
  - destruct (fwd (CycleExample.service 3)) as [o1 s1] eqn:Hrun. simpl.
    apply Hfwd; [done|].
    apply (f_equal (fun r => Service.symbolCache r.2)) in Hrun. simpl in Hrun.
    rewrite <- Hrun. vm_compute. reflexivity.
Defined.

End EntryFacts.


(** ** The shape of a forward run *)

Section ShapeFacts.

Import InternalMethodCallAnalysisService.

Lemma removeDuplicateCalls_short calls :
  length calls <= 1 -> removeDuplicateCalls calls = calls.
Proof.
  destruct calls as [|c [|c' calls]]; simpl; intros Hlen; [done| |lia].
  unfold removeDuplicateCalls; simpl.
  rewrite bool_decide_eq_false_2; [done|]. set_solver.
Qed.

(** A scan that gets past the depth test and opens its document returns
    the de-duplicated calls of the loop over the sorted matches. *)
Lemma findMethodCallsInText_calls fuel w text baseRange uri currentDepth s calls s' :
  findMethodCallsInText (S fuel) w text baseRange uri currentDepth s = (Fulfilled calls, s') ->
  currentDepth < Service.maxDepth s ->
  exists pushed,
    calls = removeDuplicateCalls pushed
    /\ map InternalMethodCallInfo.methodName pushed
       = (if currentDepth <? 1 then firstn 1 else id)
           (map CallMatch.methodName
              (List.filter survives (sortByIndex (findAllMethodCallMatches text)))).
Proof.
  intros Hrun Hlt. simpl in Hrun.
  apply Nat.leb_gt in Hlt. rewrite Hlt in Hrun.
  unfold mbind, Async_bind, bind, openTextDocument in Hrun.
  destruct (World.openTextDocument w uri) as [document|]; [|done].
  simpl in Hrun.
  destruct (eachMatch_names (findMethodCallsInText fuel w) w document baseRange uri
              currentDepth (sortByIndex (findAllMethodCallMatches text)) [] s)
    as (pushed & s1 & Heach & Hnames).
  rewrite Heach in Hrun. simpl in Hrun. injection Hrun as <- _.
  by exists pushed.
Qed.

(** C9. The top-level list of a forward run has at most one entry: the
    call for the first match of the root method's text that survives the
    filter, whatever follows it.  A scan below the top level pushes one
    call for every surviving match before duplicates are removed. *)
Theorem C9_top_level_single_call w methodSymbol uri s :
  (forall result s',
      analyzeInternalMethodCalls w methodSymbol uri s = (Fulfilled (Some result), s') ->
      length (InternalCallAnalysisResult.calls result) <= 1
      /\ (0 < Service.maxDepth s ->
          exists document,
            World.openTextDocument w uri = Some document
            /\ map InternalMethodCallInfo.methodName (InternalCallAnalysisResult.calls result)
               = firstn 1
                   (map CallMatch.methodName
                      (List.filter survives
                         (sortByIndex
                            (findAllMethodCallMatches
                               (TextDocument.getText document
                                  (Some (DocumentSymbol.range methodSymbol)))))))))
  /\ (forall fuel text baseRange currentDepth calls s',
        findMethodCallsInText (S fuel) w text baseRange uri currentDepth s
          = (Fulfilled calls, s') ->
        1 <= currentDepth < Service.maxDepth s ->
        exists pushed,
          calls = removeDuplicateCalls pushed
          /\ map InternalMethodCallInfo.methodName pushed
             = map CallMatch.methodName
                 (List.filter survives (sortByIndex (findAllMethodCallMatches text)))).
Proof.
  split.
  - intros result s' Hrun.
    unfold analyzeInternalMethodCalls, tryCatch in Hrun.
    rewrite analyzeInternalMethodCallsTry_unfold in Hrun. simpl in Hrun.
    destruct (World.openTextDocument w uri) as [document|]; [|done].
    destruct (findMethodCallsInText _ _ _ _ _ _ _) as [[calls|] s1] eqn:Hscan; [|done].
    injection Hrun as <- _. simpl.
    destruct (Service.maxDepth s) as [|fuel] eqn:Hmax.
    + simpl in Hscan. injection Hscan as <- _. simpl. split; [lia|]. lia.
    + destruct (findMethodCallsInText_calls fuel w _ _ uri 0 _ calls s1 Hscan)
        as (pushed & -> & Hnames); [simpl; lia|].
      simpl in Hnames.
      assert (Hshort : length pushed <= 1).
      { rewrite <- (length_map InternalMethodCallInfo.methodName), Hnames.
        rewrite length_firstn. lia. }
      rewrite (removeDuplicateCalls_short pushed Hshort).
      split; [done|]. intros _. by exists document.
  - intros fuel text baseRange currentDepth calls s' Hrun [Hge Hlt].
    destruct (findMethodCallsInText_calls fuel w text baseRange uri currentDepth s calls s'
                Hrun Hlt) as (pushed & Hcalls & Hnames).
    exists pushed. split; [done|]. rewrite Hnames.
    destruct (currentDepth <? 1) eqn:Htop; [|done].
    apply Nat.ltb_lt in Htop. lia.
Qed.


(** The text of [root] has three surviving matches; the run keeps the
    first.  The scan of the same text one level down keeps all three. *)
Lemma C9_single_call_witness :
  let text := TextDocument.getText (textDocumentOf 1 DiamondExample.text)
                (Some (DocumentSymbol.range DiamondExample.root)) in
  map CallMatch.methodName
      (List.filter survives (sortByIndex (findAllMethodCallMatches text)))
    = ["root"; "left"; "right"]
  /\ (exists result,
        (analyzeInternalMethodCalls DiamondExample.world DiamondExample.root
           DiamondExample.uri DiamondExample.service).1 = Fulfilled (Some result)
        /\ map InternalMethodCallInfo.methodName (InternalCallAnalysisResult.calls result)
           = ["root"])
  /\ (exists pushed,
        (findMethodCallsInText 2 DiamondExample.world text
           (DocumentSymbol.range DiamondExample.root) DiamondExample.uri 1
           DiamondExample.service).1 = Fulfilled (removeDuplicateCalls pushed)
        /\ map InternalMethodCallInfo.methodName pushed = ["root"; "left"; "right"]).
Proof.
  intros text.
  destruct (C9_top_level_single_call DiamondExample.world DiamondExample.root
              DiamondExample.uri DiamondExample.service) as [Htop Hdeep].
  split; [by vm_compute|]. split.
  - destruct (analyzeInternalMethodCalls _ _ _ _) as [o s'] eqn:Hrun.
    assert (Ho : exists result, o = Fulfilled (Some result)).
    { apply (f_equal fst) in Hrun. vm_compute in Hrun. rewrite <- Hrun. by eexists. }
    destruct Ho as [result ->]. exists result. split; [done|].
    destruct (Htop result s' eq_refl) as [_ Hfirst].
    destruct Hfirst as (document & Hdoc & ->); [simpl; lia|].
    injection Hdoc as <-. by vm_compute.
  - destruct (findMethodCallsInText 2 _ text _ _ 1 _) as [o s'] eqn:Hrun.
    assert (Ho : exists calls, o = Fulfilled calls).
    { apply (f_equal fst) in Hrun. vm_compute in Hrun. rewrite <- Hrun. by eexists. }
    destruct Ho as [calls ->].
    destruct (Hdeep 1 text _ 1 calls s' Hrun) as (pushed & -> & Hnames); [simpl; lia|].
    exists pushed. split; [done|]. rewrite Hnames. by vm_compute.
Defined.

(** A call whose definition is already in the visited set is marked
    recursive and left without children, and the service is unchanged. *)
Lemma visitMatch_visited recur w document baseRange uri currentDepth m s definition :
  findMethodDefinition w (CallMatch.methodName m) uri s = Some definition ->
  methodKeyOf (Some definition) (CallMatch.methodName m) ∈ Service.processedMethods s ->
  exists callInfo,
    visitMatch recur w document baseRange uri currentDepth m s = (Fulfilled callInfo, s)
    /\ InternalMethodCallInfo.isRecursive callInfo = true
    /\ InternalMethodCallInfo.isResolved callInfo = true
    /\ InternalMethodCallInfo.children callInfo = [].
Proof.
  intros Hdef Hvisited. unfold visitMatch. cbv beta zeta. rewrite Hdef.
  rewrite !bool_decide_eq_true_2 by (done || by eexists).
  unfold ret. by eexists.
Qed.

(** C10. Within a forward run the visited set only grows.  The calls a
    scan returns that were expanded (definition found, not marked
    recursive) have pairwise different recursion keys, none of which was
    in the visited set before the scan and all of which are in it after;
    every call marked recursive or left unresolved has no children.  A
    match whose definition is already in the visited set gives a recursive
    leaf.  In the diamond, [shared] under [right] is such a leaf although
    [shared] is not among its ancestors. *)
Theorem C10_each_definition_expanded_once w :
  (forall fuel text baseRange uri currentDepth s calls s',
      findMethodCallsInText fuel w text baseRange uri currentDepth s = (Fulfilled calls, s') ->
      Service.processedMethods s ⊆ Service.processedMethods s'
      /\ NoDup (expandedKeys calls)
      /\ (forall k, In k (expandedKeys calls) ->
                    (k ∉ Service.processedMethods s) /\ (k ∈ Service.processedMethods s'))
      /\ Forall leafIfPruned (forestNodes calls))
  /\ (forall methodSymbol uri s result s',
        analyzeInternalMethodCalls w methodSymbol uri s = (Fulfilled (Some result), s') ->
        NoDup (expandedKeys (InternalCallAnalysisResult.calls result))
        /\ Forall leafIfPruned (forestNodes (InternalCallAnalysisResult.calls result)))
  /\ (forall recur document baseRange uri currentDepth m s definition,
        findMethodDefinition w (CallMatch.methodName m) uri s = Some definition ->
        methodKeyOf (Some definition) (CallMatch.methodName m) ∈ Service.processedMethods s ->
        exists callInfo,
          visitMatch recur w document baseRange uri currentDepth m s = (Fulfilled callInfo, s)
          /\ InternalMethodCallInfo.isRecursive callInfo = true
          /\ InternalMethodCallInfo.children callInfo = [])
  /\ (exists result s' root left right sharedLeft sharedRight,
        analyzeInternalMethodCalls DiamondExample.world DiamondExample.root
          DiamondExample.uri DiamondExample.service = (Fulfilled (Some result), s')
        /\ InternalCallAnalysisResult.calls result = [root]
        /\ InternalMethodCallInfo.children root = [left; right]
        /\ InternalMethodCallInfo.children left = [sharedLeft]
        /\ InternalMethodCallInfo.children right = [sharedRight]
        /\ map InternalMethodCallInfo.methodName [root; left; right; sharedLeft; sharedRight]
           = ["root"; "left"; "right"; "shared"; "shared"]
        /\ map InternalMethodCallInfo.isRecursive [root; left; right; sharedLeft; sharedRight]
           = [false; false; false; false; true]
        /\ InternalMethodCallInfo.children sharedRight = []
        /\ recursionKey sharedRight = recursionKey sharedLeft
        /\ recursionKey sharedRight <> recursionKey right
        /\ recursionKey sharedRight <> recursionKey root).
Proof.
  split; [|split; [|split]].
  - intros fuel text baseRange uri currentDepth s calls s' Hrun.
    destruct (findMethodCallsInText_ok fuel w text baseRange uri currentDepth s)
      as [[_ Hgrow] Hinv].
    rewrite Hrun in Hgrow, Hinv. simpl in *.
    by destruct (Hinv calls eq_refl).
  - intros methodSymbol uri s result s' Hrun.
    unfold analyzeInternalMethodCalls, tryCatch in Hrun.
    rewrite analyzeInternalMethodCallsTry_unfold in Hrun. simpl in Hrun.
    destruct (World.openTextDocument w uri) as [document|]; [|done].
    destruct (findMethodCallsInText_ok (Service.maxDepth s) w
                (TextDocument.getText document (Some (DocumentSymbol.range methodSymbol)))
                (DocumentSymbol.range methodSymbol) uri 0 (Service.clearProcessed s))
      as [_ Hinv].
    destruct (findMethodCallsInText _ _ _ _ _ _ _) as [[calls|] s1]; [|done].
    injection Hrun as <- _. simpl. by destruct (Hinv calls eq_refl).
  - intros recur document baseRange uri currentDepth m s definition Hdef Hvisited.
    destruct (visitMatch_visited recur w document baseRange uri currentDepth m s definition
                Hdef Hvisited) as (callInfo & Hrun & Hrec & _ & Hleaf).
    by exists callInfo.
  - vm_compute. do 7 eexists. repeat split; discriminate.
Qed.

(** The invariant on the run over the two mutually recursive functions. *)
Lemma C10_expanded_once_witness :
  exists result,
    (analyzeInternalMethodCalls CycleExample.world CycleExample.alpha CycleExample.uri
       (CycleExample.service 3)).1 = Fulfilled (Some result)
    /\ NoDup (expandedKeys (InternalCallAnalysisResult.calls result))
    /\ expandedKeys (InternalCallAnalysisResult.calls result)
       = ["file:///workspace/cycle.ts:0:9"; "file:///workspace/cycle.ts:3:9"].
Proof.
  destruct (C10_each_definition_expanded_once CycleExample.world) as (_ & Hrun & _).
  destruct (analyzeInternalMethodCalls _ _ _ _) as [o s'] eqn:Hout.
  assert (Ho : exists result, o = Fulfilled (Some result)
                 /\ expandedKeys (InternalCallAnalysisResult.calls result)
                    = ["file:///workspace/cycle.ts:0:9"; "file:///workspace/cycle.ts:3:9"]).
  { apply (f_equal fst) in Hout. vm_compute in Hout. rewrite <- Hout.
    eexists. split; [done|]. by vm_compute. }
  destruct Ho as (result & -> & Hkeys). exists result. split; [done|].
  split; [|done]. by destruct (Hrun _ _ _ result s' Hout).
Defined.

(** Two functions that call each other and are declared with their name
    before the parenthesis: for every configured depth of at least 3 the
    forward run from [alpha] returns a result, in which [alpha] has the
    one child [beta], [beta] has the one child [alpha], and that second
    [alpha], which resolves to the same definition as the first, is
    marked recursive and has no children.  The first [alpha] is the
    declaration of the analysed function, met as the first call-like token
    of its own text. *)
Lemma mutual_recursion_with_matched_declaration maxDepth :
  3 <= maxDepth ->
  exists result s' first second again,
    analyzeInternalMethodCalls CycleExample.world CycleExample.alpha CycleExample.uri
      (CycleExample.service maxDepth) = (Fulfilled (Some result), s')
    /\ InternalCallAnalysisResult.calls result = [first]
    /\ InternalMethodCallInfo.children first = [second]
    /\ InternalMethodCallInfo.children second = [again]
    /\ map InternalMethodCallInfo.methodName [first; second; again]
       = ["alpha"; "beta"; "alpha"]
    /\ map InternalMethodCallInfo.depth [first; second; again] = [0; 1; 2]
    /\ recursionKey again = recursionKey first
    /\ InternalMethodCallInfo.isRecursive first = false
    /\ InternalMethodCallInfo.isRecursive again = true
    /\ InternalMethodCallInfo.children again = [].
Proof.
  intros Hdepth.
  destruct maxDepth as [|[|[|k]]]; [lia|lia|lia|].
  vm_compute. do 5 eexists. repeat split.
Qed.

(** What the visited set guarantees in every run: when the first call
    recorded is expanded, every other node of the result that resolves to
    the same definition is marked recursive and has no children. *)
Lemma later_occurrences_are_recursive w methodSymbol uri s result s' first rest :
  analyzeInternalMethodCalls w methodSymbol uri s = (Fulfilled (Some result), s') ->
  forestNodes (InternalCallAnalysisResult.calls result) = first :: rest ->
  expanded first = true ->
  Forall (fun n =>
            InternalMethodCallInfo.isResolved n = true ->
            recursionKey n = recursionKey first ->
            InternalMethodCallInfo.isRecursive n = true
            /\ InternalMethodCallInfo.children n = []) rest.
Proof.
  unfold analyzeInternalMethodCalls, tryCatch.
  rewrite analyzeInternalMethodCallsTry_unfold. simpl.
  destruct (World.openTextDocument w uri) as [document|]; [|done].
  destruct (findMethodCallsInText_ok (Service.maxDepth s) w
              (TextDocument.getText document (Some (DocumentSymbol.range methodSymbol)))
              (DocumentSymbol.range methodSymbol) uri 0 (Service.clearProcessed s))
    as [_ Hinv].
  destruct (findMethodCallsInText _ _ _ _ _ _ _) as [[calls|] s1]; [|done].
  intros [= <- <-]. simpl. intros Hnodes Hfirst.
  destruct (Hinv calls eq_refl) as [_ _ Hleaf Hnodup _].
  unfold expandedKeys in Hnodup. rewrite Hnodes in Hnodup, Hleaf.
  simpl in Hnodup. rewrite Hfirst in Hnodup. simpl in Hnodup.
  apply NoDup_cons in Hnodup as [Hfresh _].
  apply List.Forall_inv_tail in Hleaf.
  rewrite List.Forall_forall in Hleaf. apply List.Forall_forall.
  intros n Hin Hres Hkey.
  assert (Hrec : InternalMethodCallInfo.isRecursive n = true).
  { destruct (InternalMethodCallInfo.isRecursive n) eqn:Hrec; [done|].
    exfalso. apply Hfresh. rewrite <- Hkey. apply list_elem_of_In, in_map.
    apply List.filter_In. split; [done|]. unfold expanded. by rewrite Hres, Hrec. }
  split; [done|]. apply (Hleaf n Hin). by left.
Qed.

(** C5. A class whose methods [alpha] and [beta] call each other, [alpha]
    being declared with a type parameter.  For every configured depth of
    at least 3 the forward run from [alpha] returns a result: [beta] at
    depth 0 and, under it, the call of [alpha] at depth 1, the second
    occurrence of the analysed method on the path; that node resolves to
    the definition of [alpha], is not marked recursive and has the child
    [gamma].  The visited set receives the key of a method only when a
    call of it is expanded, and the declaration of [alpha] is not among
    the call-like tokens of its text. *)
Theorem C5_second_occurrence_not_marked maxDepth :
  3 <= maxDepth ->
  map CallMatch.methodName
    (findAllMethodCallMatches (GenericExample.textOf GenericExample.alpha))
  = ["beta"; "gamma"]
  /\ map CallMatch.methodName
       (findAllMethodCallMatches (GenericExample.textOf GenericExample.beta))
     = ["beta"; "alpha"]
  /\ exists result s' first again below,
       analyzeInternalMethodCalls GenericExample.world GenericExample.alpha
         GenericExample.uri (GenericExample.service maxDepth)
       = (Fulfilled (Some result), s')
       /\ InternalCallAnalysisResult.rootRange result
          = DocumentSymbol.selectionRange GenericExample.alpha
       /\ InternalCallAnalysisResult.calls result = [first]
       /\ InternalMethodCallInfo.children first = [again]
       /\ InternalMethodCallInfo.children again = [below]
       /\ map InternalMethodCallInfo.methodName [first; again; below]
          = ["beta"; "alpha"; "gamma"]
       /\ map InternalMethodCallInfo.depth [first; again; below] = [0; 1; 2]
       /\ definitionOf again
          = Some (Location.mk GenericExample.uri
                    (DocumentSymbol.selectionRange GenericExample.alpha))
       /\ InternalMethodCallInfo.isResolved again = true
       /\ InternalMethodCallInfo.isRecursive again = false.
Proof.
  intros Hdepth. split; [by vm_compute|]. split; [by vm_compute|].
  destruct maxDepth as [|[|[|[|k]]]]; [lia|lia|lia| |];
    vm_compute; do 5 eexists; repeat split.
Qed.

Lemma C5_second_occurrence_witness :
  exists result again,
    (analyzeInternalMethodCalls GenericExample.world GenericExample.alpha
       GenericExample.uri (GenericExample.service 3)).1 = Fulfilled (Some result)
    /\ map InternalMethodCallInfo.methodName (InternalCallAnalysisResult.calls result)
       = ["beta"]
    /\ flat_map InternalMethodCallInfo.children (InternalCallAnalysisResult.calls result)
       = [again]
    /\ InternalMethodCallInfo.methodName again = "alpha"
    /\ InternalMethodCallInfo.isRecursive again = false
    /\ InternalMethodCallInfo.children again <> [].
Proof.
  destruct (C5_second_occurrence_not_marked 3 (le_n 3))
    as (_ & _ & result & s' & first & again & below
        & Hrun & _ & Hcalls & Hfirst & Hagain & Hnames & _ & _ & _ & Hrec).
  exists result, again. rewrite Hrun, Hcalls. simpl. rewrite Hfirst, Hagain.
  injection Hnames as Hn1 Hn2 _. rewrite Hn1, Hn2.
  repeat split; try done.
Defined.

End ShapeFacts.

Section ScenarioFacts.

Import MethodCallAnalysisService.

(** The outlines of the sample workspaces agree with their texts: the
    selection range of each symbol covers its name. *)
Example sample_outlines_match_texts :
  map (fun symbol => TextDocument.getText (textDocumentOf 1 OpenExample.text)
                       (Some (DocumentSymbol.selectionRange symbol)))
      (preorder OpenExample.symbols)
    = map DocumentSymbol.name (preorder OpenExample.symbols)
  /\ map (fun symbol => TextDocument.getText (textDocumentOf 1 CycleExample.text)
                          (Some (DocumentSymbol.selectionRange symbol)))
         (preorder CycleExample.symbols)
     = map DocumentSymbol.name (preorder CycleExample.symbols)
  /\ map (fun symbol => TextDocument.getText (textDocumentOf 1 DiamondExample.text)
                          (Some (DocumentSymbol.selectionRange symbol)))
         (preorder DiamondExample.symbols)
     = map DocumentSymbol.name (preorder DiamondExample.symbols).
Proof. by vm_compute. Qed.

(** The two expressions on a line of code: a bare call, a call on an
    object, a keyword followed by a parenthesis; a name right after a dot
    is found by the second expression only. *)
Example findAllMethodCallMatches_sample :
  sortByIndex (findAllMethodCallMatches "if (ok) { this.open (1); start(a.b()); }")
  = [ CallMatch.mk "if" 0; CallMatch.mk "open" 15; CallMatch.mk "start" 25;
      CallMatch.mk "b" 33 ]
  /\ map isBuiltInOrCommon ["if"; "open"; "start"; "b"; "forEach"; "Log"; "2d"]
     = [true; false; false; true; false; true; true].
Proof. by vm_compute. Qed.

(** C2. The scenario of [recursive-example.ts]: analysed backward at
    depth 2, [open] has the one child [openNow] at depth 1, which has the
    one child [quickStart] at depth 2, which has none. *)
Theorem C2_open_openNow_quickStart :
  Service.maxDepth OpenExample.service = 2
  /\ exists root s' child grandchild,
      analyzeMethodCalls OpenExample.world OpenExample.refs OpenExample.open
        OpenExample.uri OpenExample.service = (Fulfilled (Some root), s')
      /\ MethodCallInfo.methodName root = "open"
      /\ MethodCallInfo.depth root = 0
      /\ MethodCallInfo.children root = [child]
      /\ MethodCallInfo.methodName child = "openNow"
      /\ MethodCallInfo.depth child = 1
      /\ MethodCallInfo.children child = [grandchild]
      /\ MethodCallInfo.methodName grandchild = "quickStart"
      /\ MethodCallInfo.depth grandchild = 2
      /\ MethodCallInfo.children grandchild = [].
Proof.
  split; [reflexivity|].
  vm_compute. do 4 eexists. repeat split.
Qed.

(** With an empty reference index the search falls back to the symbols
    whose name contains the method name: [openNow] is still found for
    [open], [quickStart] is not found for [openNow]. *)
Example open_by_symbol_search :
  exists root s' child,
    analyzeMethodCalls OpenExample.world ∅ OpenExample.open
      OpenExample.uri OpenExample.service = (Fulfilled (Some root), s')
    /\ MethodCallInfo.children root = [child]
    /\ MethodCallInfo.methodName child = "openNow"
    /\ MethodCallInfo.children child = [].
Proof. vm_compute. do 3 eexists. repeat split. Qed.

End ScenarioFacts.


(** ** The fuel is never what stops a run *)

Section FuelFacts.

Import InternalMethodCallAnalysisService.
Import MethodCallAnalysisService.

Lemma fold_left_ext_invariant {A B} (I : A -> Prop) (f g : A -> B -> A) (l : list B) (a : A) :
  I a ->
  (forall a b, I a -> f a b = g a b) ->
  (forall a b, I a -> I (f a b)) ->
  fold_left f l a = fold_left g l a.
Proof.
  intros Ha Hfg Hstep. revert a Ha.
  induction l as [|b l IH]; simpl; intros a Ha; [done|].
  rewrite <- (Hfg a b Ha). apply IH. by apply Hstep.
Qed.

Section Forward.

Variable recur1 recur2 :
  string -> Range.t -> Uri.t -> nat -> Async (list InternalMethodCallInfo.t).
Variable w : World.t.
Variable bound : nat.
Variable currentDepth : nat.
Hypothesis recur1_ok : scanOk recur1.
Hypothesis agree : forall text baseRange uri s,
  Service.maxDepth s = bound ->
  recur1 text baseRange uri (currentDepth + 1) s = recur2 text baseRange uri (currentDepth + 1) s.

Lemma expandDefinition_ext definition s :
  Service.maxDepth s = bound ->
  expandDefinition recur1 w definition currentDepth s
  = expandDefinition recur2 w definition currentDepth s.
Proof.
  intros Hs. unfold expandDefinition, tryCatch, mbind, Async_bind, bind, openTextDocument.
  destruct (World.openTextDocument w (Location.uri definition)) as [defDocument|];
    [|reflexivity].
  unfold ret, total. cbv beta iota.
  pose proof (getSymbolsForFile_cacheOnly w (Location.uri definition) s) as [Hm _].
  destruct (getSymbolsForFile w (Location.uri definition) s) as [symbols s1]. simpl in Hm.
  destruct (findSymbolAtRange symbols (Location.range definition)) as [defMethod|];
    [|reflexivity].
  rewrite agree by congruence. reflexivity.
Qed.

Lemma visitMatch_ext document baseRange uri m s :
  Service.maxDepth s = bound ->
  visitMatch recur1 w document baseRange uri currentDepth m s
  = visitMatch recur2 w document baseRange uri currentDepth m s.
Proof.
  intros Hs. unfold visitMatch. cbv beta zeta.
  destruct (InternalMethodCallAnalysisService.findMethodDefinition w (CallMatch.methodName m) uri s)
    as [definition|]; [|done].
  case_bool_decide; [done|].
  unfold mbind, Async_bind, bind. by rewrite expandDefinition_ext.
Qed.

Lemma eachMatch_ext document baseRange uri matches :
  forall calls s,
    Service.maxDepth s = bound -> currentDepth < bound ->
    eachMatch recur1 w document baseRange uri currentDepth matches calls s
    = eachMatch recur2 w document baseRange uri currentDepth matches calls s.
Proof.
  induction matches as [|m rest IH]; intros calls s Hs Hlt; simpl; [done|].
  destruct (bool_decide _ || isBuiltInOrCommon _); [by apply IH|].
  unfold mbind, Async_bind, bind. rewrite <- visitMatch_ext by done.
  destruct (visitMatch_ok recur1 w recur1_ok document baseRange uri currentDepth m s)
    as (callInfo & s1 & -> & [Hm _] & _); [lia|].
  destruct (currentDepth <? 1); [done|]. apply IH; congruence.
Qed.

End Forward.

(** Any two amounts of fuel that cover the remaining depth give the same
    forward scan. *)
Lemma findMethodCallsInText_fuel w fuel :
  forall fuel' text baseRange uri currentDepth s,
    Service.maxDepth s - currentDepth <= fuel ->
    Service.maxDepth s - currentDepth <= fuel' ->
    findMethodCallsInText fuel w text baseRange uri currentDepth s
    = findMethodCallsInText fuel' w text baseRange uri currentDepth s.
Proof.
  induction fuel as [|fuel IH]; intros fuel' text baseRange uri currentDepth s Hf Hf'.
  - destruct fuel' as [|fuel']; simpl; [done|].
    rewrite (proj2 (Nat.leb_le _ _)) by lia. done.
  - destruct fuel' as [|fuel']; simpl.
    + rewrite (proj2 (Nat.leb_le _ _)) by lia. done.
    + destruct (Service.maxDepth s <=? currentDepth) eqn:Hdepth; [done|].
      apply Nat.leb_gt in Hdepth.
      unfold mbind, Async_bind, bind, openTextDocument.
      destruct (World.openTextDocument w uri) as [document|]; [|done]. simpl.
      rewrite (eachMatch_ext (findMethodCallsInText fuel w) (findMethodCallsInText fuel' w)
                 w (Service.maxDepth s) currentDepth); try done.
      * apply findMethodCallsInText_ok.
      * intros text' baseRange' uri' s1 Hs1. apply IH; lia.
Qed.

Section Backward.

Variable recur1 recur2 : MethodCallInfo.t -> nat -> Service.t -> MethodCallInfo.t * Service.t.
Variable w : World.t.
Variable bound : nat.
Variable currentDepth : nat.
Hypothesis recur1_ok : forall c d s, expansionOk (recur1 c d s) c s.
Hypothesis agree : forall c s,
  Service.maxDepth s = bound ->
  recur1 c (currentDepth + 1) s = recur2 c (currentDepth + 1) s.

Lemma visitLocation_ext uri symbols acc location :
  Service.maxDepth acc.2 = bound ->
  visitLocation recur1 uri symbols currentDepth acc location
  = visitLocation recur2 uri symbols currentDepth acc location.
Proof.
  destruct acc as [callInfo s]. simpl. intros Hs. unfold visitLocation.
  destruct (findContainingMethod _ symbols) as [callingMethod|]; [|done].
  destruct (List.find _ _); [done|]. by rewrite agree.
Qed.

Lemma visitFile_ext acc entry :
  Service.maxDepth acc.2 = bound -> currentDepth < bound ->
  visitFile recur1 w currentDepth acc entry = visitFile recur2 w currentDepth acc entry.
Proof.
  destruct acc as [callInfo s]. simpl. intros Hs Hlt.
  unfold visitFile. destruct entry as [uri locations].
  destruct (List.filter _ locations) as [|l0 ls]; [done|].
  pose proof (getSymbolsForFile_cacheOnly w uri s) as [Hm _].
  destruct (getSymbolsForFile w uri s) as [symbols s1]. simpl in Hm.
  destruct symbols as [|sym symbols]; [done|].
  apply (fold_left_ext_invariant (fun acc => Service.maxDepth acc.2 = bound)
           (visitLocation recur1 uri (sym :: symbols) currentDepth)
           (visitLocation recur2 uri (sym :: symbols) currentDepth)
           (l0 :: ls) (callInfo, s1)).
  - simpl. congruence.
  - intros acc location Hacc. by apply visitLocation_ext.
  - intros [c' s'] location Hacc. simpl in Hacc.
    destruct (visitLocation_ok recur1 recur1_ok uri (sym :: symbols) currentDepth c' s' location)
      as (-> & _); [lia|done].
Qed.

End Backward.

(** Any two amounts of fuel that cover the remaining depth give the same
    backward expansion. *)
Lemma findMethodReferencesWorkspace_fuel w refs fuel :
  forall fuel' callInfo currentDepth s,
    Service.maxDepth s - currentDepth <= fuel ->
    Service.maxDepth s - currentDepth <= fuel' ->
    findMethodReferencesWorkspace fuel w refs callInfo currentDepth s
    = findMethodReferencesWorkspace fuel' w refs callInfo currentDepth s.
Proof.
  induction fuel as [|fuel IH]; intros fuel' callInfo currentDepth s Hf Hf'.
  - destruct fuel' as [|fuel']; simpl; [done|].
    rewrite (proj2 (Nat.leb_le _ _)) by lia. done.
  - destruct fuel' as [|fuel']; simpl.
    + rewrite (proj2 (Nat.leb_le _ _)) by lia. done.
    + destruct (Service.maxDepth s <=? currentDepth) eqn:Hdepth; [done|].
      apply Nat.leb_gt in Hdepth.
      case_bool_decide; [done|].
      set (s1 := Service.addProcessed _ s).
      destruct (searchWorkspaceForMethod_total w refs (MethodCallInfo.methodName callInfo) s1)
        as (found & s2 & -> & [Hm _]).
      destruct found as [|ref found]; [done|].
      assert (Hs2 : Service.maxDepth s2 = Service.maxDepth s) by (rewrite Hm; done).
      apply (fold_left_ext_invariant (fun acc => Service.maxDepth acc.2 = Service.maxDepth s)
               (visitFile (findMethodReferencesWorkspace fuel w refs) w currentDepth)
               (visitFile (findMethodReferencesWorkspace fuel' w refs) w currentDepth)
               (groupByFile (ref :: found)) (callInfo, s2)).
      * done.
      * intros acc entry Hacc.
        apply (visitFile_ext _ _ w (Service.maxDepth s) currentDepth); try done.
        -- apply findMethodReferencesWorkspace_ok.
        -- intros c s' Hs'. apply IH; lia.
      * intros [c' s'] entry Hacc. simpl in Hacc.
        destruct (visitFile_ok (findMethodReferencesWorkspace fuel w refs) w
                    (findMethodReferencesWorkspace_ok fuel w refs) currentDepth c' s' entry)
          as (-> & _); [lia|done].
Qed.

End FuelFacts.

(** ** The cache over its life *)

Section CacheStates.

Import WorkspaceSymbolCache.

Lemma storeFile_cases w uri c :
  (storeFile w uri c = c
   /\ (World.openTextDocument w uri = None
       \/ World.executeDocumentSymbolProvider w uri = Undefined
       \/ World.executeDocumentSymbolProvider w uri = Rejects))
  \/ exists document symbols,
       World.openTextDocument w uri = Some document
       /\ World.executeDocumentSymbolProvider w uri = Resolves symbols
       /\ storeFile w uri c =
          mk (<[Uri.toString uri := CachedSymbolInfo.mk uri symbols (World.now w)
                                      (TextDocument.version document)]> (symbolCache c))
             (buildMethodNameCacheForFile uri symbols (methodNameCache c)).
Proof.
  unfold storeFile.
  destruct (World.openTextDocument w uri) as [document|]; [|left; auto].
  destruct (World.executeDocumentSymbolProvider w uri) as [| |symbols]; [left; auto..|].
  right. by exists document, symbols.
Qed.

Lemma getSymbolsForFile_cache w uri forceRefresh c :
  (getSymbolsForFile w uri forceRefresh c).2 = c
  \/ (getSymbolsForFile w uri forceRefresh c).2 = updateFileCache w uri c.
Proof.
  unfold getSymbolsForFile.
  destruct (symbolCache c !! Uri.toString uri) as [cached|]; [|by right].
  destruct forceRefresh; [by right|].
  destruct (World.openTextDocument w uri) as [document|]; [|by left].
  destruct (_ =? _); [by left|by right].
Qed.

Lemma noEmptyEntry_removeMethodsFromCache uri m :
  noEmptyEntry (removeMethodsFromCache uri m).
Proof.
  intros n. unfold removeMethodsFromCache. rewrite lookup_omap.
  destruct (m !! n) as [l|]; simpl; [|done].
  unfold withoutFile. by destruct (List.filter _ l).
Qed.

Lemma noEmptyEntry_addMethod uri symbol m :
  noEmptyEntry m -> noEmptyEntry (addMethod uri symbol m).
Proof.
  intros Hm n. unfold addMethod.
  destruct (decide (DocumentSymbol.name symbol = n)) as [->|Hne].
  - rewrite lookup_insert_eq. intros [= H]. by destruct (default [] _).
  - rewrite lookup_insert_ne by done. apply Hm.
Qed.

Lemma noEmptyEntry_extractMethodsFromSymbols uri symbols :
  Forall (fun s => forall m, noEmptyEntry m -> noEmptyEntry (extractMethodsFromSymbol uri s m))
         symbols ->
  forall m, noEmptyEntry m -> noEmptyEntry (extractMethodsFromSymbols uri symbols m).
Proof.
  induction 1 as [|s rest Hs _ IH]; intros m Hm; [done|].
  change (extractMethodsFromSymbols uri (s :: rest) m)
    with (extractMethodsFromSymbols uri rest (extractMethodsFromSymbol uri s m)).
  by apply IH, Hs.
Qed.

Lemma noEmptyEntry_extractMethodsFromSymbol uri s :
  forall m, noEmptyEntry m -> noEmptyEntry (extractMethodsFromSymbol uri s m).
Proof.
  induction s as [nm k r sr ch IH] using DocumentSymbol_forest_ind.
  intros m Hm. rewrite extractMethodsFromSymbol_unfold.
  apply noEmptyEntry_extractMethodsFromSymbols; [done|].
  destruct (isMethodSymbol _); [by apply noEmptyEntry_addMethod|done].
Qed.

Lemma noEmptyEntry_buildMethodNameCacheForFile uri symbols m :
  noEmptyEntry (buildMethodNameCacheForFile uri symbols m).
Proof.
  unfold buildMethodNameCacheForFile.
  apply noEmptyEntry_extractMethodsFromSymbols.
  - apply Forall_forall. intros s _. apply noEmptyEntry_extractMethodsFromSymbol.
  - apply noEmptyEntry_removeMethodsFromCache.
Qed.

(** Two method-name maps without empty entries that answer every lookup
    alike are the same map. *)
Lemma noEmptyEntry_eq (m1 m2 : gmap string (list CachedMethodInfo.t)) :
  noEmptyEntry m1 -> noEmptyEntry m2 ->
  (forall n, default [] (m1 !! n) = default [] (m2 !! n)) -> m1 = m2.
Proof.
  intros H1 H2 Heq. apply map_eq. intros n.
  specialize (H1 n). specialize (H2 n). specialize (Heq n).
  destruct (m1 !! n) as [l1|], (m2 !! n) as [l2|]; simpl in Heq; congruence.
Qed.

Lemma methodInfosOf_In uri symbols info :
  In info (methodInfosOf uri symbols) ->
  exists s, In s (preorder symbols) /\ isMethodSymbol s = true
            /\ info = CachedMethodInfo.mk (DocumentSymbol.name s) uri s (Uri.fsPath uri).
Proof.
  unfold methodInfosOf. rewrite in_map_iff.
  intros (s & <- & [Hin Hm]%List.filter_In). by exists s.
Qed.

Lemma Consistent_empty : Consistent empty.
Proof. split; [intros n info []|]. intros n. cbn. by rewrite lookup_empty. Qed.

Lemma Consistent_storeFile w uri c : Consistent c -> Consistent (storeFile w uri c).
Proof.
  intros [Hrec Hne].
  destruct (storeFile_cases w uri c) as [[-> _]|(document & symbols & Hdoc & Hsym & Hst)];
    [by split|].
  split.
  - intros n info.
    rewrite (findMethodsByName_storeFile w uri c document symbols n Hdoc Hsym).
    rewrite Hst. intros [Hold|Hnew]%in_app_or.
    + apply List.filter_In in Hold as [Hold Hnot].
      destruct (Hrec n info Hold) as (H1 & H2 & H3 & H4 & cached & H5 & H6 & H7).
      repeat split; try done. exists cached. split; [|done]. simpl.
      rewrite lookup_insert_ne; [done|].
      unfold fromFile in Hnot. intros Heq. by rewrite bool_decide_eq_true_2 in Hnot.
    + apply List.filter_In in Hnew as [Hnew Hnamed].
      apply methodInfosOf_In in Hnew as (s & Hin & Hm & ->).
      unfold named in Hnamed. simpl in Hnamed. apply bool_decide_eq_true_1 in Hnamed.
      repeat split; try done. simpl. eexists. rewrite lookup_insert_eq. by split.
  - rewrite Hst. simpl. apply noEmptyEntry_buildMethodNameCacheForFile.
Qed.

Lemma Consistent_invalidateFileCache uri c :
  Consistent c -> Consistent (invalidateFileCache uri c).
Proof.
  intros [Hrec Hne]. unfold invalidateFileCache.
  destruct (symbolCache c !! Uri.toString uri) as [cached0|]; [|by split].
  split; simpl.
  - intros n info. unfold findMethodsByName. simpl.
    rewrite lookup_removeMethodsFromCache. intros [Hold Hnot]%List.filter_In.
    destruct (Hrec n info Hold) as (H1 & H2 & H3 & H4 & cached & H5 & H6 & H7).
    repeat split; try done. exists cached. split; [|done]. simpl.
    rewrite lookup_delete_ne; [done|].
    unfold fromFile in Hnot. intros Heq. by rewrite bool_decide_eq_true_2 in Hnot.
  - apply noEmptyEntry_removeMethodsFromCache.
Qed.

Lemma Consistent_clearMethodCache c : Consistent c -> Consistent (clearMethodCache c).
Proof.
  intros _. split; [intros n info []|]. intros n. simpl. by rewrite lookup_empty.
Qed.

Lemma reachable_Consistent c : reachable c -> Consistent c.
Proof.
  induction 1 as [|w uri c _ IH|w uri c _ IH|uri c _ IH|w uri force c _ IH|c _ IH].
  - apply Consistent_empty.
  - by apply Consistent_storeFile.
  - by apply Consistent_storeFile.
  - by apply Consistent_invalidateFileCache.
  - destruct (getSymbolsForFile_cache w uri force c) as [->| ->]; [done|].
    by apply Consistent_storeFile.
  - by apply Consistent_clearMethodCache.
Qed.

(** X1. In every state the cache can reach, a record listed under a method
    name is a method, function or constructor of that name, and it is a
    symbol of the outline the cache holds for the file of the record. *)
Theorem cached_definitions_belong_to_cached_outlines c methodName info :
  reachable c ->
  In info (findMethodsByName c methodName) ->
  CachedMethodInfo.methodName info = methodName
  /\ DocumentSymbol.name (CachedMethodInfo.symbol info) = methodName
  /\ isMethodSymbol (CachedMethodInfo.symbol info) = true
  /\ CachedMethodInfo.filePath info = Uri.fsPath (CachedMethodInfo.uri info)
  /\ exists cached,
       symbolCache c !! Uri.toString (CachedMethodInfo.uri info) = Some cached
       /\ CachedSymbolInfo.uri cached = CachedMethodInfo.uri info
       /\ In (CachedMethodInfo.symbol info) (preorder (CachedSymbolInfo.symbols cached)).
Proof.
  intros Hc Hin. by apply (consistent_records c (reachable_Consistent c Hc)).
Qed.

Lemma cached_definitions_witness :
  exists cached,
    symbolCache HelperExample.cache !! "file:///proj/src-gen/h.ts" = Some cached
    /\ In HelperExample.helper (preorder (CachedSymbolInfo.symbols cached)).
Proof.
  destruct (cached_definitions_belong_to_cached_outlines HelperExample.cache "helper"
              HelperExample.inGen)
    as (_ & _ & _ & _ & cached & H1 & _ & H2).
  - repeat constructor.
  - vm_compute. tauto.
  - by exists cached.
Defined.

(** X2. After a file is invalidated the cache holds no outline for it, and no
    method name leads to a record of that file. *)
Theorem invalidateFileCache_leaves_no_record c F :
  reachable c ->
  symbolCache (invalidateFileCache F c) !! Uri.toString F = None
  /\ forall methodName info,
       In info (findMethodsByName (invalidateFileCache F c) methodName) ->
       Uri.toString (CachedMethodInfo.uri info) <> Uri.toString F.
Proof.
  intros Hc. pose proof (reachable_Consistent c Hc) as [Hrec _].
  unfold invalidateFileCache.
  destruct (symbolCache c !! Uri.toString F) as [cached0|] eqn:Hhas; simpl.
  - split; [apply lookup_delete_eq|].
    intros n info. unfold findMethodsByName. simpl.
    rewrite lookup_removeMethodsFromCache. intros [_ Hnot]%List.filter_In Heq.
    unfold fromFile in Hnot. by rewrite bool_decide_eq_true_2 in Hnot.
  - split; [done|]. intros n info Hin Heq.
    destruct (Hrec n info Hin) as (_ & _ & _ & _ & cached & Hsome & _).
    congruence.
Qed.


Lemma invalidateFileCache_witness :
  findMethodsByName (invalidateFileCache HelperExample.genUri HelperExample.cache) "helper"
  = [HelperExample.inLib].
Proof.
  pose proof (invalidateFileCache_leaves_no_record HelperExample.cache HelperExample.genUri)
    as [_ Hnone]; [repeat constructor|].
  clear Hnone. reflexivity.
Defined.

Lemma getSymbolsForFile_fst w uri forceRefresh c :
  (getSymbolsForFile w uri forceRefresh c).1 =
  match symbolCache (getSymbolsForFile w uri forceRefresh c).2 !! Uri.toString uri with
  | Some cached => CachedSymbolInfo.symbols cached
  | None => []
  end.
Proof.
  unfold getSymbolsForFile.
  destruct (symbolCache c !! Uri.toString uri) as [cached|] eqn:Hc; [|done].
  destruct forceRefresh; [done|].
  destruct (World.openTextDocument w uri) as [document|]; [|simpl; by rewrite Hc].
  destruct (_ =? _); [simpl; by rewrite Hc|done].
Qed.

Lemma storeFile_fails w uri :
  World.openTextDocument w uri = None
  \/ World.executeDocumentSymbolProvider w uri = Undefined
  \/ World.executeDocumentSymbolProvider w uri = Rejects ->
  forall c, storeFile w uri c = c.
Proof.
  intros H c. unfold storeFile.
  destruct (World.openTextDocument w uri) as [document|]; [|done].
  destruct H as [H|[-> | ->]]; done.
Qed.

Lemma storeFile_succeeds w uri document symbols :
  World.openTextDocument w uri = Some document ->
  World.executeDocumentSymbolProvider w uri = Resolves symbols ->
  forall c, storeFile w uri c =
    mk (<[Uri.toString uri := CachedSymbolInfo.mk uri symbols (World.now w)
                                (TextDocument.version document)]> (symbolCache c))
       (buildMethodNameCacheForFile uri symbols (methodNameCache c)).
Proof. intros Hdoc Hsym c. unfold storeFile. by rewrite Hdoc, Hsym. Qed.

Lemma world_cases w uri :
  (World.openTextDocument w uri = None
   \/ World.executeDocumentSymbolProvider w uri = Undefined
   \/ World.executeDocumentSymbolProvider w uri = Rejects)
  \/ exists document symbols,
       World.openTextDocument w uri = Some document
       /\ World.executeDocumentSymbolProvider w uri = Resolves symbols.
Proof.
  destruct (World.openTextDocument w uri) as [document|]; [|left; auto].
  destruct (World.executeDocumentSymbolProvider w uri) as [| |symbols]; [left; auto..|].
  right. by exists document, symbols.
Qed.

Lemma getSymbolsForFile_after_update w uri c :
  (getSymbolsForFile w uri false (updateFileCache w uri c)).2 = updateFileCache w uri c.
Proof.
  unfold updateFileCache.
  destruct (world_cases w uri) as [Hfail|(document & symbols & Hdoc & Hsym)].
  - rewrite (storeFile_fails w uri Hfail c).
    destruct (getSymbolsForFile_cache w uri false c) as [->| ->]; [done|].
    apply (storeFile_fails w uri Hfail).
  - rewrite (storeFile_succeeds w uri document symbols Hdoc Hsym c).
    unfold getSymbolsForFile. simpl. rewrite lookup_insert_eq, Hdoc. simpl.
    by rewrite Nat.eqb_refl.
Qed.

(** X3. A lookup answers with the outline the cache holds for the file once
    the lookup is done (nothing when it holds none), forced or not; a
    second unforced lookup gives the same answer and leaves the cache as
    it is. *)
Theorem getSymbolsForFile_answers_from_cache w uri c :
  (forall forceRefresh,
      (getSymbolsForFile w uri forceRefresh c).1 =
      match symbolCache (getSymbolsForFile w uri forceRefresh c).2 !! Uri.toString uri with
      | Some cached => CachedSymbolInfo.symbols cached
      | None => []
      end)
  /\ getSymbolsForFile w uri false (getSymbolsForFile w uri false c).2
     = getSymbolsForFile w uri false c.
Proof.
  split; [intros forceRefresh; apply getSymbolsForFile_fst|].
  destruct (getSymbolsForFile_cache w uri false c) as [Hc|Hc].
  - by rewrite Hc.
  - apply injective_projections.
    + rewrite !getSymbolsForFile_fst. rewrite Hc at 1.
      by rewrite getSymbolsForFile_after_update, Hc.
    + rewrite Hc at 1. by rewrite getSymbolsForFile_after_update.
Qed.

Lemma lookup_buildMethodNameCacheForFile uri symbols m n :
  default [] (buildMethodNameCacheForFile uri symbols m !! n) =
  List.filter (fun info => negb (fromFile (Uri.toString uri) info)) (default [] (m !! n))
  ++ List.filter (named n) (methodInfosOf uri symbols).
Proof.
  unfold buildMethodNameCacheForFile.
  by rewrite lookup_extractMethodsFromSymbols, lookup_removeMethodsFromCache.
Qed.

Lemma filter_own_none uri symbols n :
  List.filter (fun info => negb (fromFile (Uri.toString uri) info))
    (List.filter (named n) (methodInfosOf uri symbols)) = [].
Proof.
  apply filter_none. intros info [Hin _]%List.filter_In.
  apply methodInfosOf_fromFile in Hin. unfold fromFile.
  by rewrite Hin, bool_decide_eq_true_2.
Qed.

Lemma buildMethodNameCacheForFile_twice uri symbols1 symbols2 m :
  buildMethodNameCacheForFile uri symbols2 (buildMethodNameCacheForFile uri symbols1 m)
  = buildMethodNameCacheForFile uri symbols2 m.
Proof.
  apply noEmptyEntry_eq; try apply noEmptyEntry_buildMethodNameCacheForFile.
  intros n. rewrite !lookup_buildMethodNameCacheForFile.
  by rewrite List.filter_app, filter_idem, filter_own_none, app_nil_r.
Qed.

(** X4. Updating a file twice in the same editor state is the same as
    updating it once; and when the editor can open and outline the file,
    the update overrides whatever an earlier update stored for it. *)
Theorem updateFileCache_replaces w F c :
  updateFileCache w F (updateFileCache w F c) = updateFileCache w F c
  /\ forall w0 document symbols,
       World.openTextDocument w F = Some document ->
       World.executeDocumentSymbolProvider w F = Resolves symbols ->
       updateFileCache w F (updateFileCache w0 F c) = updateFileCache w F c.
Proof.
  assert (Hgen : forall w0 document symbols,
             World.openTextDocument w F = Some document ->
             World.executeDocumentSymbolProvider w F = Resolves symbols ->
             updateFileCache w F (updateFileCache w0 F c) = updateFileCache w F c).
  { intros w0 document symbols Hdoc Hsym. unfold updateFileCache.
    rewrite !(storeFile_succeeds w F document symbols Hdoc Hsym).
    destruct (world_cases w0 F) as [Hfail|(document0 & symbols0 & Hdoc0 & Hsym0)].
    - by rewrite (storeFile_fails w0 F Hfail c).
    - rewrite (storeFile_succeeds w0 F document0 symbols0 Hdoc0 Hsym0 c). simpl.
      by rewrite insert_insert_eq, buildMethodNameCacheForFile_twice. }
  split; [|done].
  destruct (world_cases w F) as [Hfail|(document & symbols & Hdoc & Hsym)].
  - unfold updateFileCache. by rewrite !(storeFile_fails w F Hfail).
  - by apply (Hgen w document symbols).
Qed.

Lemma updateFileCache_replaces_witness :
  updateFileCache HelperExample.world HelperExample.genUri
    (updateFileCache
       (filesWorld [(HelperExample.genUri, CycleExample.text, CycleExample.symbols)])
       HelperExample.genUri
       (indexSingleFile HelperExample.world HelperExample.libUri empty))
  = HelperExample.cache.
Proof.
  destruct (updateFileCache_replaces HelperExample.world HelperExample.genUri
              (indexSingleFile HelperExample.world HelperExample.libUri empty))
    as [_ Hrepl].
  exact (Hrepl (filesWorld [(HelperExample.genUri, CycleExample.text, CycleExample.symbols)])
           (textDocumentOf 1 HelperExample.text) [HelperExample.helper] eq_refl eq_refl).
Defined.

(** X5. Updating or invalidating a file leaves the outline and the records
    of every other file as they were. *)
Theorem other_files_untouched w F G c :
  Uri.toString G <> Uri.toString F ->
  (symbolCache (updateFileCache w F c) !! Uri.toString G = symbolCache c !! Uri.toString G
   /\ forall n,
        List.filter (fromFile (Uri.toString G)) (findMethodsByName (updateFileCache w F c) n)
        = List.filter (fromFile (Uri.toString G)) (findMethodsByName c n))
  /\ (symbolCache (invalidateFileCache F c) !! Uri.toString G = symbolCache c !! Uri.toString G
      /\ forall n,
           List.filter (fromFile (Uri.toString G))
             (findMethodsByName (invalidateFileCache F c) n)
           = List.filter (fromFile (Uri.toString G)) (findMethodsByName c n)).
Proof.
  intros Hne.
  assert (Hkeep : forall l : list CachedMethodInfo.t,
             List.filter (fromFile (Uri.toString G))
               (List.filter (fun info => negb (fromFile (Uri.toString F) info)) l)
             = List.filter (fromFile (Uri.toString G)) l).
  { induction l as [|x l IH]; simpl; [done|].
    destruct (fromFile (Uri.toString F) x) eqn:HF; simpl.
    - assert (HG : fromFile (Uri.toString G) x = false).
      { unfold fromFile in *. apply bool_decide_eq_true_1 in HF.
        apply bool_decide_eq_false_2. congruence. }
      by rewrite HG.
    - by rewrite IH. }
  split.
  - unfold updateFileCache.
    destruct (world_cases w F) as [Hfail|(document & symbols & Hdoc & Hsym)].
    + by rewrite (storeFile_fails w F Hfail c).
    + split.
      * rewrite (storeFile_succeeds w F document symbols Hdoc Hsym c). simpl.
        by rewrite lookup_insert_ne.
      * intros n.
        rewrite (findMethodsByName_storeFile w F c document symbols n Hdoc Hsym).
        rewrite List.filter_app, Hkeep.
        rewrite (filter_none (fromFile (Uri.toString G)) (List.filter (named n) _));
          [by rewrite app_nil_r|].
        intros info [Hin _]%List.filter_In. apply methodInfosOf_fromFile in Hin.
        unfold fromFile. rewrite Hin, bool_decide_eq_false_2; [done|congruence].
  - unfold invalidateFileCache.
    destruct (symbolCache c !! Uri.toString F) as [cached|]; [|done].
    split; simpl.
    + by rewrite lookup_delete_ne.
    + intros n. unfold findMethodsByName. simpl.
      by rewrite lookup_removeMethodsFromCache, Hkeep.
Qed.

Lemma other_files_untouched_witness :
  findMethodsByName
    (invalidateFileCache HelperExample.genUri HelperExample.cache) "helper"
  = List.filter (fromFile (Uri.toString HelperExample.libUri))
      (findMethodsByName HelperExample.cache "helper").
Proof.
  destruct (other_files_untouched HelperExample.world HelperExample.genUri
              HelperExample.libUri HelperExample.cache) as [_ [_ Hrec]]; [discriminate|].
  rewrite <- (Hrec "helper"). reflexivity.
Defined.

(** X6. Indexing two different files in either order gives the same outlines,
    and under every method name the same records up to their order. *)
Theorem indexing_two_files_in_either_order w F G c :
  Uri.toString F <> Uri.toString G ->
  symbolCache (indexSingleFile w G (indexSingleFile w F c))
  = symbolCache (indexSingleFile w F (indexSingleFile w G c))
  /\ forall n,
       Permutation (findMethodsByName (indexSingleFile w G (indexSingleFile w F c)) n)
                   (findMethodsByName (indexSingleFile w F (indexSingleFile w G c)) n).
Proof.
  intros Hne. unfold indexSingleFile.
  destruct (world_cases w F) as [HfailF|(dF & sF & HdocF & HsymF)];
    destruct (world_cases w G) as [HfailG|(dG & sG & HdocG & HsymG)].
  - by rewrite !(storeFile_fails w F HfailF), !(storeFile_fails w G HfailG).
  - by rewrite !(storeFile_fails w F HfailF).
  - by rewrite !(storeFile_fails w G HfailG).
  - split.
    + rewrite !(storeFile_succeeds w F dF sF HdocF HsymF),
              !(storeFile_succeeds w G dG sG HdocG HsymG). simpl.
      by apply insert_insert_ne.
    + intros n.
      rewrite (findMethodsByName_storeFile w G _ dG sG n HdocG HsymG),
              (findMethodsByName_storeFile w F _ dF sF n HdocF HsymF),
              (findMethodsByName_storeFile w F _ dF sF n HdocF HsymF),
              (findMethodsByName_storeFile w G _ dG sG n HdocG HsymG).
      rewrite !List.filter_app.
      assert (HFG : List.filter (fun info => negb (fromFile (Uri.toString G) info))
                      (List.filter (named n) (methodInfosOf F sF))
                    = List.filter (named n) (methodInfosOf F sF)).
      { apply filter_all. intros info [Hin _]%List.filter_In.
        apply methodInfosOf_fromFile in Hin. unfold fromFile.
        rewrite Hin, bool_decide_eq_false_2; done. }
      assert (HGF : List.filter (fun info => negb (fromFile (Uri.toString F) info))
                      (List.filter (named n) (methodInfosOf G sG))
                    = List.filter (named n) (methodInfosOf G sG)).
      { apply filter_all. intros info [Hin _]%List.filter_In.
        apply methodInfosOf_fromFile in Hin. unfold fromFile.
        rewrite Hin, bool_decide_eq_false_2; [done|congruence]. }
      rewrite HFG, HGF, <- !app_assoc.
      assert (Hcomm : forall l : list CachedMethodInfo.t,
                 List.filter (fun info => negb (fromFile (Uri.toString G) info))
                   (List.filter (fun info => negb (fromFile (Uri.toString F) info)) l)
                 = List.filter (fun info => negb (fromFile (Uri.toString F) info))
                     (List.filter (fun info => negb (fromFile (Uri.toString G) info)) l)).
      { induction l as [|x l IH]; simpl; [done|].
        destruct (fromFile (Uri.toString F) x) eqn:HF,
                 (fromFile (Uri.toString G) x) eqn:HG; simpl; rewrite ?HF, ?HG; simpl;
          by rewrite IH. }
      rewrite Hcomm. apply Permutation_app_head, Permutation_app_comm.
Qed.

Lemma indexing_two_files_witness :
  Permutation (findMethodsByName HelperExample.cache "helper")
              [HelperExample.inGen; HelperExample.inLib].
Proof.
  destruct (indexing_two_files_in_either_order HelperExample.world HelperExample.libUri
              HelperExample.genUri empty) as [_ Hperm]; [discriminate|].
  exact (Hperm "helper").
Defined.

Lemma size_le_totalMethods (m : gmap string (list CachedMethodInfo.t)) :
  noEmptyEntry m ->
  size m <= map_fold (fun _ methods totalMethods => totalMethods + length methods) 0 m.
Proof.
  apply (map_fold_weak_ind (fun r (m : gmap string (list CachedMethodInfo.t)) =>
           noEmptyEntry m -> size m <= r)).
  - intros _. by rewrite map_size_empty.
  - intros i x m' r Hnone IH Hne.
    rewrite map_size_insert_None by done.
    assert (Hx : x <> []).
    { intros ->. apply (Hne i). by rewrite lookup_insert_eq. }
    assert (Hm' : noEmptyEntry m').
    { intros n Hn. apply (Hne n). rewrite lookup_insert_ne; [done|]. congruence. }
    specialize (IH Hm'). destruct x; [done|]. simpl. lia.
Qed.

(** X7. In every state the cache can reach there are at most as many method
    names as records, and a name has no record exactly when the
    method-name cache has no entry for it: no entry is an empty list. *)
Theorem every_cached_name_has_a_method c :
  reachable c ->
  (getMethodCacheStats c).2 <= (getMethodCacheStats c).1
  /\ forall methodName,
       findMethodsByName c methodName = [] <-> methodNameCache c !! methodName = None.
Proof.
  intros Hc. pose proof (reachable_Consistent c Hc) as [_ Hne].
  split; [by apply size_le_totalMethods|].
  intros n. unfold findMethodsByName. specialize (Hne n).
  destruct (methodNameCache c !! n) as [l|]; simpl; [|done].
  split; [intros ->; done|done].
Qed.

Lemma every_cached_name_witness :
  (getMethodCacheStats HelperExample.cache).2 <= (getMethodCacheStats HelperExample.cache).1.
Proof.
  destruct (every_cached_name_has_a_method HelperExample.cache) as [Hle _];
    [repeat constructor|exact Hle].
Defined.

End CacheStates.

(** ** Resolution, filter and duplicates *)

Section ResolverMore.

Import WorkspaceSymbolCache.

(** X8. The resolver answers with one of the records cached under the name,
    and with nothing only when there is none. *)
Theorem findMethodDefinition_returns_a_candidate c methodName contextUri :
  match findMethodDefinition c methodName contextUri with
  | Some method => In method (findMethodsByName c methodName)
  | None => findMethodsByName c methodName = []
  end.
Proof.
  pose proof (findMethodDefinition_cases c methodName contextUri) as H. simpl in H.
  destruct (findMethodsByName c methodName) as [|first [|second rest]] eqn:Hm.
  - by rewrite H.
  - rewrite H. simpl. by left.
  - destruct contextUri as [u|]; [|rewrite H; simpl; by left].
    rewrite H. clear H.
    set (sameFile := fun m : CachedMethodInfo.t => bool_decide _).
    set (sameDir := fun m : CachedMethodInfo.t => startsWith _ _).
    destruct (List.find sameFile _) as [m|] eqn:Hfile;
      [by apply find_some in Hfile as [? _]|].
    destruct (List.find sameDir _) as [m|] eqn:Hdir;
      [by apply find_some in Hdir as [? _]|].
    by left.
Qed.

Lemma startsWith_empty s : startsWith s "" = true.
Proof. unfold startsWith. by destruct s. Qed.

(** X9. When the path of the context file has no slash (a Windows path) and
    no candidate is in the context file, the directory of the context is
    the empty string, which every path starts with: the first candidate
    is taken. *)
Theorem findMethodDefinition_without_separator c methodName contextUri :
  lastIndexOf "/"%char (Uri.fsPath contextUri) = None ->
  List.find (fun method =>
     bool_decide (Uri.toString (CachedMethodInfo.uri method) = Uri.toString contextUri))
    (findMethodsByName c methodName) = None ->
  dirnameOf (Uri.fsPath contextUri) = ""
  /\ findMethodDefinition c methodName (Some contextUri)
     = head (findMethodsByName c methodName).
Proof.
  intros Hsep Hfile.
  assert (Hdir : dirnameOf (Uri.fsPath contextUri) = "").
  { unfold dirnameOf. by rewrite Hsep. }
  split; [done|].
  pose proof (findMethodDefinition_cases c methodName (Some contextUri)) as H.
  simpl in H.
  destruct (findMethodsByName c methodName) as [|first [|second rest]] eqn:Hm; [done..|].
  rewrite H, Hfile, Hdir. simpl. by rewrite startsWith_empty.
Qed.

Lemma findMethodDefinition_without_separator_witness :
  findMethodDefinition HelperExample.cache "helper"
    (Some (Uri.mk "file:///c%3A/proj/src-gen/a.ts" "c:\proj\src-gen\a.ts"))
  = Some HelperExample.inLib.
Proof.
  destruct (findMethodDefinition_without_separator HelperExample.cache "helper"
              (Uri.mk "file:///c%3A/proj/src-gen/a.ts" "c:\proj\src-gen\a.ts")
              eq_refl eq_refl) as [_ H].
  exact H.
Defined.

End ResolverMore.

Section FilterFacts.

Lemma lowerChar_idem c : lowerChar (lowerChar c) = lowerChar c.
Proof. destruct c as [[] [] [] [] [] [] [] []]; reflexivity. Qed.

Lemma toLowerCase_idem s : toLowerCase (toLowerCase s) = toLowerCase s.
Proof. induction s as [|c s IH]; simpl; [done|]. by rewrite lowerChar_idem, IH. Qed.

Lemma toLowerCase_length s : String.length (toLowerCase s) = String.length s.
Proof. induction s as [|c s IH]; simpl; [done|]. by rewrite IH. Qed.

Lemma lowerChar_digit c : isDigitChar (lowerChar c) = isDigitChar c.
Proof. destruct c as [[] [] [] [] [] [] [] []]; reflexivity. Qed.

Lemma mixedCaseEntries_unfold :
  mixedCaseEntries
  = List.filter (fun entry => negb (String.eqb (toLowerCase entry) entry)) builtInMethods.
Proof. reflexivity. Qed.

Lemma filter_holds {A} (p : A -> bool) (l : list A) (x : A) :
  In x (List.filter p l) -> p x = true.
Proof. intros H. by apply List.filter_In in H as [_ ?]. Qed.

(** X10. The filter does not depend on the case of the name, since it
    compares the name in lower case with its list; so the nine entries of
    the list that hold a capital letter never match, and the names they
    spell are not filtered. *)
Theorem isBuiltInOrCommon_ignores_case methodName :
  isBuiltInOrCommon (toLowerCase methodName) = isBuiltInOrCommon methodName
  /\ (forall entry, In entry mixedCaseEntries -> toLowerCase methodName <> entry)
  /\ mixedCaseEntries
     = [ "forEach"; "toString"; "valueOf"; "hasOwnProperty"; "isPrototypeOf";
         "indexOf"; "lastIndexOf"; "charAt"; "charCodeAt" ]
  /\ Forall (fun entry => isBuiltInOrCommon entry = false) mixedCaseEntries.
Proof.
  split; [|split; [|split]].
  - unfold isBuiltInOrCommon.
    rewrite toLowerCase_idem, toLowerCase_length.
    f_equal. destruct methodName as [|c s]; simpl; [done|]. apply lowerChar_digit.
  - intros entry Hin Heq. rewrite mixedCaseEntries_unfold in Hin.
    apply filter_holds in Hin.
    rewrite <- Heq, toLowerCase_idem, String.eqb_refl in Hin.
    simpl in Hin. discriminate Hin.
  - by vm_compute.
  - assert (Hentries : mixedCaseEntries
                       = [ "forEach"; "toString"; "valueOf"; "hasOwnProperty";
                           "isPrototypeOf"; "indexOf"; "lastIndexOf"; "charAt";
                           "charCodeAt" ]) by (by vm_compute).
    rewrite Hentries.
    repeat (apply List.Forall_cons; [by vm_compute|]). apply List.Forall_nil.
Qed.

End FilterFacts.

Section DuplicateFacts.

Import InternalMethodCallAnalysisService.

Lemma removeDuplicateCallsFrom_keys seen calls :
  NoDup (map duplicateKey (removeDuplicateCallsFrom seen calls))
  /\ (forall call, In call (removeDuplicateCallsFrom seen calls) ->
        (duplicateKey call ∉ seen)
        /\ List.find (fun c => bool_decide (duplicateKey c = duplicateKey call)) calls
           = Some call)
  /\ (forall call, In call calls ->
        (duplicateKey call ∈ seen)
        \/ In (duplicateKey call) (map duplicateKey (removeDuplicateCallsFrom seen calls))).
Proof.
  revert seen. induction calls as [|c calls IH]; intros seen; simpl.
  - split; [constructor|]. split; [intros call []|intros call []].
  - destruct (IH seen) as (Hnd & Hfirst & Hall).
    destruct (IH ({[duplicateKey c]} ∪ seen)) as (Hnd' & Hfirst' & Hall').
    case_bool_decide as Hseen.
    + split; [done|]. split.
      * intros call Hin. destruct (Hfirst call Hin) as [Hout Hfind]. split; [done|].
        rewrite bool_decide_eq_false_2; [done|]. congruence.
      * intros call [<-|Hin]; [by left|]. by apply Hall.
    + simpl. split; [|split].
      * apply NoDup_cons. split; [|done].
        intros Hin%list_elem_of_In. apply in_map_iff in Hin as (call & Hkey & Hin).
        destruct (Hfirst' call Hin) as [Hout _]. apply Hout.
        rewrite Hkey. apply elem_of_union_l. by apply elem_of_singleton.
      * intros call [<-|Hin].
        -- split; [done|]. by rewrite bool_decide_eq_true_2.
        -- destruct (Hfirst' call Hin) as [Hout Hfind]. split.
           ++ intros Hs. apply Hout. by apply elem_of_union_r.
           ++ rewrite bool_decide_eq_false_2; [done|].
              intros Heq. apply Hout. rewrite <- Heq.
              apply elem_of_union_l. by apply elem_of_singleton.
      * intros call [<-|Hin]; [right; by left|].
        destruct (Hall' call Hin) as [Hs|Hk]; [|right; by right].
        apply elem_of_union in Hs as [Hs|Hs]; [|by left].
        apply elem_of_singleton in Hs. right. left. done.
Qed.

Lemma removeDuplicateCallsFrom_fixed seen calls :
  NoDup (map duplicateKey calls) ->
  (forall call, In call calls -> duplicateKey call ∉ seen) ->
  removeDuplicateCallsFrom seen calls = calls.
Proof.
  revert seen. induction calls as [|c calls IH]; intros seen Hnd Hout; simpl; [done|].
  simpl in Hnd. apply NoDup_cons in Hnd as [Hc Hnd].
  rewrite bool_decide_eq_false_2 by (apply Hout; by left).
  f_equal. apply IH; [done|].
  intros call Hin Hs. apply elem_of_union in Hs as [Hs|Hs].
  - apply elem_of_singleton in Hs. apply Hc. rewrite <- Hs.
    apply list_elem_of_In, in_map_iff. by exists call.
  - apply (Hout call); [by right|done].
Qed.

(** X11. Removing the duplicates keeps, in their order, the first call of
    every key (name, line, character and file): the keys left are pairwise
    distinct, no key is lost, and removing again changes nothing. *)
Theorem removeDuplicateCalls_keeps_first_of_each_key calls :
  NoDup (map duplicateKey (removeDuplicateCalls calls))
  /\ sublist (removeDuplicateCalls calls) calls
  /\ (forall call, In call calls ->
        In (duplicateKey call) (map duplicateKey (removeDuplicateCalls calls)))
  /\ (forall call, In call (removeDuplicateCalls calls) ->
        List.find (fun c => bool_decide (duplicateKey c = duplicateKey call)) calls
        = Some call)
  /\ removeDuplicateCalls (removeDuplicateCalls calls) = removeDuplicateCalls calls.
Proof.
  unfold removeDuplicateCalls.
  destruct (removeDuplicateCallsFrom_keys ∅ calls) as (Hnd & Hfirst & Hall).
  split; [done|]. split; [apply removeDuplicateCallsFrom_sublist|].
  split; [|split].
  - intros call Hin. destruct (Hall call Hin) as [Hs|Hk]; [|done]. set_solver.
  - intros call Hin. by destruct (Hfirst call Hin).
  - apply removeDuplicateCallsFrom_fixed; [done|]. intros call _. set_solver.
Qed.

End DuplicateFacts.

Section ForwardResult.

Import InternalMethodCallAnalysisService.

Lemma findMethodCallsInText_fulfilled fuel w text baseRange uri currentDepth s document :
  World.openTextDocument w uri = Some document ->
  exists calls s',
    findMethodCallsInText fuel w text baseRange uri currentDepth s = (Fulfilled calls, s').
Proof.
  intros Hdoc. destruct fuel as [|fuel]; simpl; [by eexists _, _|].
  destruct (Service.maxDepth s <=? currentDepth); [by eexists _, _|].
  unfold mbind, Async_bind, bind, openTextDocument. rewrite Hdoc. simpl.
  destruct (eachMatch_names (findMethodCallsInText fuel w) w document baseRange uri
              currentDepth (sortByIndex (findAllMethodCallMatches text)) [] s)
    as (pushed & s1 & -> & _).
  simpl. by eexists _, _.
Qed.

(** X12. The forward entry point answers null when the file of the analysed
    method cannot be opened, and otherwise a result that carries the name
    and selection range of the method, the calls found, their count and
    the configured depth. *)
Theorem analyzeInternalMethodCalls_null_iff_unopenable w methodSymbol uri s :
  match World.openTextDocument w uri with
  | None =>
      analyzeInternalMethodCalls w methodSymbol uri s
      = (Fulfilled None, Service.clearProcessed s)
  | Some document =>
      exists calls s',
        analyzeInternalMethodCalls w methodSymbol uri s
        = (Fulfilled (Some (InternalCallAnalysisResult.mk
                              (DocumentSymbol.name methodSymbol) uri
                              (DocumentSymbol.selectionRange methodSymbol)
                              calls (countTotalCalls calls) (Service.maxDepth s))), s')
  end.
Proof.
  unfold analyzeInternalMethodCalls, tryCatch.
  rewrite analyzeInternalMethodCallsTry_unfold. simpl.
  destruct (World.openTextDocument w uri) as [document|] eqn:Hdoc; [|done].
  destruct (findMethodCallsInText_fulfilled (Service.maxDepth s) w
              (TextDocument.getText document (Some (DocumentSymbol.range methodSymbol)))
              (DocumentSymbol.range methodSymbol) uri 0 (Service.clearProcessed s)
              document Hdoc) as (calls & s' & Hrun).
  destruct (findMethodCallsInText_ok (Service.maxDepth s) w
              (TextDocument.getText document (Some (DocumentSymbol.range methodSymbol)))
              (DocumentSymbol.range methodSymbol) uri 0 (Service.clearProcessed s))
    as [[Hm _] _].
  rewrite Hrun in *. simpl in Hm. rewrite Hm. by exists calls, s'.
Qed.

End ForwardResult.

(** ** Extraction of call-like tokens *)

Section ExtractionFacts.

Lemma spanChars_spec p l :
  l = (spanChars p l).1 ++ (spanChars p l).2
  /\ forallb p (spanChars p l).1 = true
  /\ match (spanChars p l).2 with c :: _ => p c = false | [] => True end.
Proof.
  induction l as [|c l IH]; simpl; [done|].
  destruct (p c) eqn:Hc; [|done].
  destruct (spanChars p l) as [run rest]. simpl in *.
  destruct IH as (Hl & Hrun & Hrest). rewrite Hc, Hrun. by rewrite <- Hl.
Qed.

Lemma matchCallAt_spec l w n :
  matchCallAt l = Some (w, n) ->
  exists spaces after,
    l = w ++ spaces ++ "("%char :: after
    /\ w <> [] /\ forallb isWordChar w = true /\ forallb isSpaceChar spaces = true
    /\ n = length w + length spaces + 1.
Proof.
  unfold matchCallAt.
  pose proof (spanChars_spec isWordChar l) as (Hl & Hw & _).
  destruct (spanChars isWordChar l) as [run afterWord]. simpl in *.
  destruct run as [|a run]; [done|].
  pose proof (spanChars_spec isSpaceChar afterWord) as (Hl' & Hsp & _).
  destruct (spanChars isSpaceChar afterWord) as [sp afterSpace]. simpl in *.
  destruct afterSpace as [|c after]; [done|].
  destruct (Ascii.eqb c "(") eqn:Hc; [|done].
  apply Ascii.eqb_eq in Hc as ->. intros [= <- <-].
  exists sp, after. rewrite Hl, Hl'. by repeat split.
Qed.

Lemma firstn_call (w spaces after : list ascii) :
  firstn (length w + length spaces + 1) (w ++ spaces ++ "("%char :: after)
  = w ++ spaces ++ ["("%char].
Proof.
  rewrite app_assoc, firstn_app.
  rewrite firstn_all2 by (rewrite length_app; lia).
  replace (length w + length spaces + 1 - length (w ++ spaces)) with 1
    by (rewrite length_app; lia).
  simpl. by rewrite <- app_assoc.
Qed.

Lemma isPrefixOf_app p l : isPrefixOf p (p ++ l) = true.
Proof. induction p as [|a p IH]; simpl; [done|]. by rewrite Ascii.eqb_refl. Qed.

Lemma indexOf_here p l : indexOf p (p ++ l) = Some 0.
Proof. destruct p as [|a p]; simpl; [by destruct l|]. by rewrite Ascii.eqb_refl, isPrefixOf_app. Qed.

Lemma indexOf_after c p l :
  p <> [] -> forallb isWordChar p = true -> isWordChar c = false ->
  indexOf p (c :: p ++ l) = Some 1.
Proof.
  intros Hp Hw Hc. destruct p as [|a p]; [done|].
  simpl in Hw. apply andb_true_iff in Hw as [Ha _].
  change (indexOf (a :: p) (c :: (a :: p) ++ l))
    with (if isPrefixOf (a :: p) (c :: (a :: p) ++ l) then Some 0
          else option_map S (indexOf (a :: p) ((a :: p) ++ l))).
  rewrite indexOf_here.
  assert (Hne : Ascii.eqb a c = false).
  { apply Ascii.eqb_neq. intros ->. congruence. }
  simpl. by rewrite Hne.
Qed.

(** What one attempt of the first expression finds. *)
Lemma methodCallRegexAt_spec atStart l whole w :
  methodCallRegexAt atStart l = Some (whole, w) ->
  exists spaces after,
    w <> [] /\ forallb isWordChar w = true /\ forallb isSpaceChar spaces = true
    /\ ((atStart = true /\ l = w ++ spaces ++ "("%char :: after
         /\ whole = w ++ spaces ++ ["("%char] /\ indexOf w whole = Some 0)
        \/ exists c, beforeBareCall (Some c) = true
                     /\ l = c :: w ++ spaces ++ "("%char :: after
                     /\ whole = c :: w ++ spaces ++ ["("%char]
                     /\ indexOf w whole = Some 1).
Proof.
  unfold methodCallRegexAt.
  destruct (if atStart then _ else None) as [[whole0 w0]|] eqn:Hanchor.
  - intros [= <- <-]. destruct atStart; [|done].
    destruct (matchCallAt l) as [[w1 n]|] eqn:Hm; [|done].
    injection Hanchor as <- <-.
    apply matchCallAt_spec in Hm as (spaces & after & -> & Hne & Hw & Hsp & ->).
    exists spaces, after. repeat split; try done. left.
    rewrite firstn_call. repeat split; try done. apply indexOf_here.
  - clear Hanchor. destruct l as [|c l']; [done|].
    destruct (negb (Ascii.eqb c ".") && negb (isWordChar c)) eqn:Hc; [|done].
    destruct (matchCallAt l') as [[w1 n]|] eqn:Hm; [|done].
    intros [= <- <-].
    apply matchCallAt_spec in Hm as (spaces & after & -> & Hne & Hw & Hsp & ->).
    exists spaces, after. repeat split; try done. right. exists c.
    rewrite firstn_call. repeat split; try done.
    apply indexOf_after; try done.
    apply andb_true_iff in Hc as [_ Hc]. by apply negb_true_iff in Hc.
Qed.

(** The matches of the first expression from offset [i] on, [pre] being
    the text before that offset. *)
Lemma methodCallRegexExec_spec l :
  forall atStart i skip pre m,
    length pre = i -> (atStart = true -> pre = []) ->
    In m (methodCallRegexExec atStart i skip l) ->
    i + skip <= CallMatch.index m
    /\ callSiteAt beforeBareCall (pre ++ l)
         (list_ascii_of_string (CallMatch.methodName m)) (CallMatch.index m).
Proof.
  induction l as [|c l IH]; intros atStart i skip pre m Hpre Hstart; simpl; [done|].
  assert (Hnext : forall skip' m,
            In m (methodCallRegexExec false (S i) skip' l) ->
            S i + skip' <= CallMatch.index m
            /\ callSiteAt beforeBareCall (pre ++ c :: l)
                 (list_ascii_of_string (CallMatch.methodName m)) (CallMatch.index m)).
  { intros skip' m' Hin.
    destruct (IH false (S i) skip' (pre ++ [c]) m') as [Hle Hsite]; try done.
    - rewrite length_app. simpl. lia.
    - split; [done|]. by rewrite <- app_assoc in Hsite. }
  destruct skip as [|k].
  - destruct (methodCallRegexAt atStart (c :: l)) as [[whole w]|] eqn:Hat.
    + intros [<-|Hin].
      * simpl. rewrite list_ascii_of_string_of_list_ascii.
        apply methodCallRegexAt_spec in Hat
          as (spaces & after & Hne & Hw & Hsp &
              [(Hs & Hl & Hwhole & ->)|(c0 & Hc0 & Hl & Hwhole & ->)]).
        -- split; [lia|]. rewrite (Hstart Hs) in *. simpl in Hpre. subst i.
           exists [], spaces, after. by rewrite Hl.
        -- split; [lia|]. rewrite Hl. exists (pre ++ [c0]), spaces, after.
           rewrite <- app_assoc, length_app, last_snoc. simpl.
           repeat split; try done. lia.
      * apply methodCallRegexAt_spec in Hat
          as (spaces & after & Hne & Hw & Hsp &
              [(Hs & Hl & Hwhole & _)|(c0 & Hc0 & Hl & Hwhole & _)]).
        -- destruct (Hnext _ m Hin) as [Hle Hsite]. split; [|done]. lia.
        -- destruct (Hnext _ m Hin) as [Hle Hsite]. split; [|done]. lia.
    + intros Hin. destruct (Hnext _ m Hin) as [Hle Hsite]. split; [|done]. lia.
  - intros Hin. destruct (Hnext _ m Hin) as [Hle Hsite]. split; [|done]. lia.
Qed.


(** The matches of the second expression from offset [i] on. *)
Lemma propertyMethodRegexExec_spec l :
  forall i skip pre m,
    length pre = i ->
    In m (propertyMethodRegexExec i skip l) ->
    i + skip <= CallMatch.index m
    /\ callSiteAt beforePropertyCall (pre ++ l)
         (list_ascii_of_string (CallMatch.methodName m)) (CallMatch.index m).
Proof.
  induction l as [|c l IH]; intros i skip pre m Hpre; simpl; [done|].
  assert (Hnext : forall skip' m,
            In m (propertyMethodRegexExec (S i) skip' l) ->
            S i + skip' <= CallMatch.index m
            /\ callSiteAt beforePropertyCall (pre ++ c :: l)
                 (list_ascii_of_string (CallMatch.methodName m)) (CallMatch.index m)).
  { intros skip' m' Hin.
    destruct (IH (S i) skip' (pre ++ [c]) m') as [Hle Hsite]; try done.
    - rewrite length_app. simpl. lia.
    - split; [done|]. by rewrite <- app_assoc in Hsite. }
  destruct skip as [|k].
  - destruct (Ascii.eqb c ".") eqn:Hc.
    + destruct (matchCallAt l) as [[w n]|] eqn:Hm.
      * intros [<-|Hin].
        -- simpl. rewrite list_ascii_of_string_of_list_ascii. split; [lia|].
           apply matchCallAt_spec in Hm as (spaces & after & -> & Hne & Hw & Hsp & ->).
           exists (pre ++ [c]), spaces, after.
           rewrite <- app_assoc, length_app, last_snoc. simpl.
           repeat split; try done. lia.
        -- destruct (Hnext _ m Hin) as [Hle Hsite]. split; [|done]. lia.
      * intros Hin. destruct (Hnext _ m Hin) as [Hle Hsite]. split; [|done]. lia.
    + intros Hin. destruct (Hnext _ m Hin) as [Hle Hsite]. split; [|done]. lia.
  - intros Hin. destruct (Hnext _ m Hin) as [Hle Hsite]. split; [|done]. lia.
Qed.

Lemma StronglySorted_lt_cons (a : nat) (l : list nat) :
  Forall (fun b => a < b) l -> StronglySorted lt l -> StronglySorted lt (a :: l).
Proof. intros. by constructor. Qed.

Lemma methodCallRegexExec_sorted l :
  forall atStart i skip (pre : list ascii),
    length pre = i -> (atStart = true -> pre = []) ->
    StronglySorted lt (map CallMatch.index (methodCallRegexExec atStart i skip l)).
Proof.
  induction l as [|c l IH]; intros atStart i skip pre Hpre Hstart; simpl; [constructor|].
  assert (Hlen : length (pre ++ [c]) = S i) by (rewrite length_app; simpl; lia).
  destruct skip as [|k]; [|by apply (IH false (S i) k (pre ++ [c]))].
  destruct (methodCallRegexAt atStart (c :: l)) as [[whole w]|] eqn:Hat;
    [|by apply (IH false (S i) 0 (pre ++ [c]))].
  simpl. apply StronglySorted_lt_cons; [|by apply (IH false (S i) _ (pre ++ [c]))].
  apply Forall_forall. intros idx Hin%list_elem_of_In.
  apply in_map_iff in Hin as (m & <- & Hin).
  destruct (methodCallRegexExec_spec l false (S i) (Nat.pred (length whole))
              (pre ++ [c]) m Hlen) as [Hle _]; [done..|].
  apply methodCallRegexAt_spec in Hat
    as (spaces & after & Hne & Hw & Hsp &
        [(Hs & Hl & -> & ->)|(c0 & Hc0 & Hl & -> & ->)]).
  - rewrite !length_app in Hle. simpl in Hle. destruct w; [done|]. simpl in Hle. lia.
  - simpl in Hle. rewrite !length_app in Hle. simpl in Hle. lia.
Qed.

Lemma propertyMethodRegexExec_sorted l :
  forall i skip (pre : list ascii),
    length pre = i ->
    StronglySorted lt (map CallMatch.index (propertyMethodRegexExec i skip l)).
Proof.
  induction l as [|c l IH]; intros i skip pre Hpre; simpl; [constructor|].
  assert (Hlen : length (pre ++ [c]) = S i) by (rewrite length_app; simpl; lia).
  destruct skip as [|k]; [|by apply (IH (S i) k (pre ++ [c]))].
  destruct (Ascii.eqb c "."); [|by apply (IH (S i) 0 (pre ++ [c]))].
  destruct (matchCallAt l) as [[w n]|] eqn:Hm; [|by apply (IH (S i) 0 (pre ++ [c]))].
  simpl. apply StronglySorted_lt_cons; [|by apply (IH (S i) _ (pre ++ [c]))].
  apply Forall_forall. intros idx Hin%list_elem_of_In.
  apply in_map_iff in Hin as (m & <- & Hin).
  destruct (propertyMethodRegexExec_spec l (S i) n (pre ++ [c]) m Hlen) as [Hle _];
    [done|].
  apply matchCallAt_spec in Hm as (spaces & after & _ & _ & _ & _ & ->). lia.
Qed.

Lemma StronglySorted_lt_NoDup (l : list nat) : StronglySorted lt l -> NoDup l.
Proof.
  induction 1 as [|a l _ IH Hall]; [constructor|].
  apply NoDup_cons. split; [|done].
  intros Hin. rewrite Forall_forall in Hall. specialize (Hall a Hin). lia.
Qed.

(** A name found by the first expression and a name found by the second
    never start at the same offset. *)
Lemma callSiteAt_exclusive text n1 n2 index :
  callSiteAt beforeBareCall text n1 index ->
  callSiteAt beforePropertyCall text n2 index -> False.
Proof.
  intros (b1 & s1 & a1 & Ht1 & Hl1 & _ & _ & _ & Hp1)
         (b2 & s2 & a2 & Ht2 & Hl2 & _ & _ & _ & Hp2).
  rewrite Ht1 in Ht2. apply app_inj_1 in Ht2 as [<- _]; [|congruence].
  destruct (last b1) as [c|]; simpl in *; [|done].
  rewrite Hp2 in Hp1. done.
Qed.

Lemma findAllMethodCallMatches_indices_distinct text :
  NoDup (map CallMatch.index (findAllMethodCallMatches text)).
Proof.
  unfold findAllMethodCallMatches. rewrite map_app. apply NoDup_app. split; [|split].
  - apply StronglySorted_lt_NoDup. by apply (methodCallRegexExec_sorted _ true 0 0 []).
  - intros idx Hin1%list_elem_of_In Hin2%list_elem_of_In.
    apply in_map_iff in Hin1 as (m1 & <- & Hin1).
    apply in_map_iff in Hin2 as (m2 & Heq & Hin2).
    destruct (methodCallRegexExec_spec _ true 0 0 [] m1 eq_refl (fun _ => eq_refl) Hin1)
      as [_ H1].
    destruct (propertyMethodRegexExec_spec _ 0 0 [] m2 eq_refl Hin2) as [_ H2].
    rewrite Heq in H2. by eapply callSiteAt_exclusive.
  - apply StronglySorted_lt_NoDup. by apply (propertyMethodRegexExec_sorted _ 0 0 []).
Qed.

(** X13. Every match is a call site of the text: at its index the text holds
    the name, a non-empty run of word characters, then white space at
    most, then an opening parenthesis; and the character before the name,
    if any, is not a word character. *)
Theorem findAllMethodCallMatches_finds_call_sites text m :
  In m (findAllMethodCallMatches text) ->
  exists before spaces after,
    list_ascii_of_string text
    = before ++ list_ascii_of_string (CallMatch.methodName m)
        ++ spaces ++ "("%char :: after
    /\ length before = CallMatch.index m
    /\ CallMatch.methodName m <> ""
    /\ forallb isWordChar (list_ascii_of_string (CallMatch.methodName m)) = true
    /\ forallb isSpaceChar spaces = true
    /\ match last before with Some c => isWordChar c = false | None => True end.
Proof.
  unfold findAllMethodCallMatches. intros [Hin|Hin]%in_app_or.
  - destruct (methodCallRegexExec_spec _ true 0 0 [] m eq_refl (fun _ => eq_refl) Hin)
      as [_ (before & spaces & after & Ht & Hl & Hne & Hw & Hsp & Hp)].
    exists before, spaces, after. repeat split; try done.
    + intros Hempty. by rewrite Hempty in Hne.
    + destruct (last before) as [c|]; [|done]. simpl in Hp.
      apply andb_true_iff in Hp as [_ Hp]. by apply negb_true_iff in Hp.
  - destruct (propertyMethodRegexExec_spec _ 0 0 [] m eq_refl Hin)
      as [_ (before & spaces & after & Ht & Hl & Hne & Hw & Hsp & Hp)].
    exists before, spaces, after. repeat split; try done.
    + intros Hempty. by rewrite Hempty in Hne.
    + destruct (last before) as [c|]; [|done]. simpl in Hp.
      apply Ascii.eqb_eq in Hp as ->. reflexivity.
Qed.

Lemma findAllMethodCallMatches_witness :
  exists before spaces after,
    list_ascii_of_string "if (ok) { this.open (1); }"
    = before ++ list_ascii_of_string "open" ++ spaces ++ "("%char :: after
    /\ length before = 15.
Proof.
  destruct (findAllMethodCallMatches_finds_call_sites "if (ok) { this.open (1); }"
              (CallMatch.mk "open" 15))
    as (before & spaces & after & Ht & Hl & _); [vm_compute; tauto|].
  by exists before, spaces, after.
Defined.

Lemma insertByIndex_Permutation m l : Permutation (insertByIndex m l) (m :: l).
Proof.
  induction l as [|x l IH]; simpl; [done|].
  destruct (_ <? _); [|done]. rewrite IH. apply perm_swap.
Qed.

Lemma sortByIndex_Permutation l : Permutation (sortByIndex l) l.
Proof.
  induction l as [|m l IH]; simpl; [done|].
  rewrite insertByIndex_Permutation. by constructor.
Qed.

Lemma insertByIndex_sorted m l :
  StronglySorted le (map CallMatch.index l) ->
  StronglySorted le (map CallMatch.index (insertByIndex m l)).
Proof.
  induction l as [|x l IH]; simpl; intros Hs; [repeat constructor|].
  apply StronglySorted_inv in Hs as [Hs Hall].
  destruct (CallMatch.index x <? CallMatch.index m) eqn:Hlt; simpl.
  - apply Nat.ltb_lt in Hlt. constructor; [by apply IH|].
    apply Forall_forall. intros idx Hin%list_elem_of_In.
    apply in_map_iff in Hin as (y & <- & Hin).
    apply (Permutation_in _ (insertByIndex_Permutation m l)) in Hin as [<-|Hin]; [lia|].
    rewrite Forall_forall in Hall. apply Hall, list_elem_of_In, in_map_iff. by exists y.
  - apply Nat.ltb_ge in Hlt. constructor; [by constructor|].
    constructor; [done|]. eapply Forall_impl; [exact Hall|]. simpl. intros; lia.
Qed.

Lemma sortByIndex_sorted l : StronglySorted le (map CallMatch.index (sortByIndex l)).
Proof. induction l as [|m l IH]; simpl; [constructor|]. by apply insertByIndex_sorted. Qed.

Lemma StronglySorted_le_lt (l : list nat) :
  StronglySorted le l -> NoDup l -> StronglySorted lt l.
Proof.
  induction 1 as [|a l _ IH Hall]; intros Hnd; [constructor|].
  apply NoDup_cons in Hnd as [Ha Hnd]. constructor; [by apply IH|].
  apply Forall_forall. intros b Hb. rewrite Forall_forall in Hall.
  specialize (Hall b Hb). assert (a <> b) by (intros ->; done). lia.
Qed.

(** X14. No two matches start at the same index, and the analyser goes through
    the matches (all of them, each once) by strictly increasing index. *)
Theorem findAllMethodCallMatches_scanned_in_text_order text :
  NoDup (map CallMatch.index (findAllMethodCallMatches text))
  /\ Permutation (sortByIndex (findAllMethodCallMatches text)) (findAllMethodCallMatches text)
  /\ StronglySorted lt (map CallMatch.index (sortByIndex (findAllMethodCallMatches text))).
Proof.
  split; [apply findAllMethodCallMatches_indices_distinct|].
  split; [apply sortByIndex_Permutation|].
  apply StronglySorted_le_lt; [apply sortByIndex_sorted|].
  rewrite sortByIndex_Permutation. apply findAllMethodCallMatches_indices_distinct.
Qed.


Lemma spanChars_app p run rest :
  forallb p run = true ->
  match rest with c :: _ => p c = false | [] => True end ->
  spanChars p (run ++ rest) = (run, rest).
Proof.
  intros Hrun Hrest. induction run as [|c run IH]; simpl.
  - destruct rest as [|c rest]; simpl in *; [done|]. by rewrite Hrest.
  - simpl in Hrun. apply andb_true_iff in Hrun as [-> Hrun]. by rewrite IH.
Qed.

Lemma methodCallRegexExec_skip p l i :
  methodCallRegexExec false i (length p) (p ++ l)
  = methodCallRegexExec false (i + length p) 0 l.
Proof.
  revert i. induction p as [|c p IH]; intros i; simpl.
  - by rewrite Nat.add_0_r.
  - rewrite IH. f_equal. lia.
Qed.

Lemma list_ascii_of_string_app a b :
  list_ascii_of_string (a +:+ b) = list_ascii_of_string a ++ list_ascii_of_string b.
Proof. induction a as [|c a IH]; simpl; [done|]. by rewrite IH. Qed.

Lemma isIdentifier_spec s :
  isIdentifier s = true ->
  exists c w, list_ascii_of_string s = c :: w
              /\ isWordChar c = true /\ forallb isWordChar w = true.
Proof.
  destruct s as [|c s]; [done|]. simpl. intros [Hc Hw]%andb_true_iff.
  by exists c, (list_ascii_of_string s).
Qed.

(** X15. When a bare call has a call as its first argument, right after the
    opening parenthesis, the outer call is matched and the inner one is
    not: the match of the outer call consumed the parenthesis that had to
    precede the inner name. *)
Theorem findAllMethodCallMatches_misses_first_argument outer inner rest :
  isIdentifier outer = true -> isIdentifier inner = true ->
  let text := outer +:+ "(" +:+ inner +:+ "(" +:+ rest in
  In (CallMatch.mk outer 0) (findAllMethodCallMatches text)
  /\ ~ In (String.length outer + 1) (map CallMatch.index (findAllMethodCallMatches text)).
Proof.
  intros Houter Hinner text.
  destruct (isIdentifier_spec outer Houter) as (a & outer' & Ho & Ha & Ho').
  destruct (isIdentifier_spec inner Hinner) as (b & inner' & Hi & Hb & Hi').
  set (tail := inner' ++ "("%char :: list_ascii_of_string rest).
  assert (Htext : list_ascii_of_string text = (a :: outer') ++ "("%char :: b :: tail).
  { unfold text, tail. rewrite !list_ascii_of_string_app, Ho, Hi. reflexivity. }
  assert (Hlen : String.length outer = S (length outer')).
  { rewrite <- (string_of_list_ascii_of_string outer), Ho. simpl.
    f_equal. clear. induction outer' as [|c l IH]; simpl; [done|]. by rewrite IH. }
  assert (Hfirst : methodCallRegexExec true 0 0 (list_ascii_of_string text)
                   = CallMatch.mk outer 0
                     :: methodCallRegexExec false (S (S (S (length outer')))) 0 tail).
  { rewrite Htext. cbn [app methodCallRegexExec].
    assert (Hat : methodCallRegexAt true (a :: outer' ++ "("%char :: b :: tail)
                  = Some ((a :: outer') ++ ["("%char], a :: outer')).
    { unfold methodCallRegexAt, matchCallAt.
      change (a :: outer' ++ "("%char :: b :: tail)
        with ((a :: outer') ++ "("%char :: b :: tail).
      rewrite (spanChars_app isWordChar (a :: outer') ("("%char :: b :: tail));
        [|simpl; by rewrite Ha, Ho'|done].
      cbn [spanChars isSpaceChar]. simpl.
      f_equal. f_equal. f_equal.
      rewrite firstn_app. replace (length outer' + 0 + 1 - length outer') with 1 by lia.
      rewrite firstn_all2 by lia. done. }
    rewrite Hat. rewrite indexOf_here. simpl.
    change (String a (string_of_list_ascii outer')) with (string_of_list_ascii (a :: outer')).
    rewrite <- Ho, string_of_list_ascii_of_string. f_equal.
    replace (outer' ++ "("%char :: b :: tail) with ((outer' ++ ["("%char]) ++ b :: tail)
      by (by rewrite <- app_assoc).
    rewrite methodCallRegexExec_skip, length_app. simpl.
    replace (length outer' + 1) with (S (length outer')) by lia.
    unfold methodCallRegexAt. rewrite Hb. simpl. by rewrite andb_false_r. }
  unfold findAllMethodCallMatches. rewrite Hfirst. split; [by left|].
  rewrite map_app, in_app_iff. simpl. intros [[Hz|Hin]|Hin].
  - lia.
  - apply in_map_iff in Hin as (m & Hidx & Hin).
    destruct (methodCallRegexExec_spec tail false (S (S (S (length outer')))) 0
                ((a :: outer') ++ ["("%char; b]) m) as [Hle _]; try done.
    { rewrite length_app. simpl. lia. }
    lia.
  - apply in_map_iff in Hin as (m & Hidx & Hin).
    destruct (propertyMethodRegexExec_spec _ 0 0 [] m eq_refl Hin)
      as [_ (before & spaces & after & Ht & Hl & _ & _ & _ & Hp)].
    simpl in Ht. rewrite Htext in Ht.
    change ((a :: outer') ++ "("%char :: b :: tail)
      with ((a :: outer') ++ ["("%char] ++ b :: tail) in Ht.
    rewrite app_assoc in Ht.
    apply app_inj_1 in Ht as [<- _].
    + rewrite last_snoc in Hp. done.
    + rewrite length_app. simpl. lia.
Qed.

Lemma findAllMethodCallMatches_misses_witness :
  map CallMatch.methodName (findAllMethodCallMatches "process(validate(data))")
  = ["process"].
Proof.
  destruct (findAllMethodCallMatches_misses_first_argument "process" "validate" "data))"
              eq_refl eq_refl) as [_ Hmiss].
  clear Hmiss. reflexivity.
Defined.

End ExtractionFacts.

(** ** Symbols at a range and at a position *)

Section RangeFacts.

Lemma isBefore_spec a b :
  Position.isBefore a b = true <->
  Position.line a < Position.line b
  \/ (Position.line a = Position.line b /\ Position.character a < Position.character b).
Proof.
  unfold Position.isBefore.
  rewrite orb_true_iff, andb_true_iff, !Nat.ltb_lt, Nat.eqb_eq. tauto.
Qed.

Lemma isBefore_false a b :
  Position.isBefore a b = false <->
  Position.line b < Position.line a
  \/ (Position.line a = Position.line b /\ Position.character b <= Position.character a).
Proof.
  rewrite <- not_true_iff_false, isBefore_spec. lia.
Qed.

Lemma Position_isEqual_eq a b : Position.isEqual a b = true <-> a = b.
Proof.
  unfold Position.isEqual. rewrite andb_true_iff, !Nat.eqb_eq.
  destruct a, b; simpl. split; [intros [-> ->]; done|intros [= -> ->]; done].
Qed.

Lemma Range_isEqual_eq r1 r2 : Range.isEqual r1 r2 = true <-> r1 = r2.
Proof.
  unfold Range.isEqual. rewrite andb_true_iff, !Position_isEqual_eq.
  destruct r1, r2; simpl. split; [intros [-> ->]; done|intros [= -> ->]; done].
Qed.

Lemma containsPosition_spec r p :
  Range.containsPosition r p = true <->
  Position.isBefore p (Range.start r) = false /\ Position.isBefore (Range.end_ r) p = false.
Proof.
  unfold Range.containsPosition. by rewrite andb_true_iff, !negb_true_iff.
Qed.

Lemma contains_trans a b c :
  Range.contains a b = true -> Range.contains b c = true -> Range.contains a c = true.
Proof.
  unfold Range.contains. rewrite !andb_true_iff, !containsPosition_spec, !isBefore_false.
  lia.
Qed.

Lemma apart_not_both a b x :
  apart a b = true -> Range.contains a x = true -> Range.contains b x = true -> False.
Proof.
  unfold apart, Range.contains.
  rewrite orb_true_iff, !andb_true_iff, !containsPosition_spec, !isBefore_false,
    !isBefore_spec.
  lia.
Qed.

End RangeFacts.

Section DefinitionSymbol.

Import InternalMethodCallAnalysisService.

Lemma findSymbolAtRangeIn_unfold range symbol :
  findSymbolAtRangeIn range symbol =
  if covers range symbol then
    if Range.isEqual (DocumentSymbol.selectionRange symbol) range then Some symbol
    else match findSymbolAtRange (DocumentSymbol.children symbol) range with
         | Some found => Some found
         | None => Some symbol
         end
  else None.
Proof.
  destruct symbol as [n k r sr ch].
  change (findSymbolAtRangeIn range (DocumentSymbol.mk n k r sr ch))
    with (if covers range (DocumentSymbol.mk n k r sr ch) then
            if Range.isEqual sr range then Some (DocumentSymbol.mk n k r sr ch)
            else
              match (fix each (l : list DocumentSymbol.t) : option DocumentSymbol.t :=
                       match l with
                       | [] => None
                       | c :: l' =>
                           match findSymbolAtRangeIn range c with
                           | Some found => Some found
                           | None => each l'
                           end
                       end) ch with
              | Some found => Some found
              | None => Some (DocumentSymbol.mk n k r sr ch)
              end
          else None).
  destruct (covers range _); [|done]. simpl.
  destruct (Range.isEqual sr range); [done|].
  assert (Heach : (fix each (l : list DocumentSymbol.t) : option DocumentSymbol.t :=
                     match l with
                     | [] => None
                     | c :: l' =>
                         match findSymbolAtRangeIn range c with
                         | Some found => Some found
                         | None => each l'
                         end
                     end) ch = findSymbolAtRange ch range).
  { induction ch as [|c ch IH]; simpl; [done|].
    by destruct (findSymbolAtRangeIn range c). }
  by rewrite Heach.
Qed.

Lemma findSymbolAtRange_sound_if range symbols :
  Forall (fun s => forall found, findSymbolAtRangeIn range s = Some found ->
                                 foundAt range [s] found) symbols ->
  match findSymbolAtRange symbols range with
  | Some found => foundAt range symbols found
  | None => forallb (fun s => negb (covers range s)) symbols = true
  end.
Proof.
  induction 1 as [|s rest Hs _ IH]; simpl; [done|].
  destruct (findSymbolAtRangeIn range s) as [found|] eqn:Hin.
  - destruct (Hs found eq_refl) as (H1 & H2 & H3). repeat split; try done.
    unfold preorder in *. simpl in *. rewrite app_nil_r in H1.
    apply in_or_app. by left.
  - rewrite findSymbolAtRangeIn_unfold in Hin.
    destruct (covers range s) eqn:Hc.
    + destruct (Range.isEqual _ range); [done|].
      by destruct (findSymbolAtRange _ range).
    + simpl. destruct (findSymbolAtRange rest range) as [found|]; [|done].
      destruct IH as (H1 & H2 & H3). repeat split; try done.
      unfold preorder in *. simpl. apply in_or_app. by right.
Qed.

Lemma findSymbolAtRangeIn_sound range s :
  forall found, findSymbolAtRangeIn range s = Some found -> foundAt range [s] found.
Proof.
  induction s as [n k r sr ch IH] using DocumentSymbol_forest_ind.
  intros found. rewrite findSymbolAtRangeIn_unfold.
  set (s := DocumentSymbol.mk n k r sr ch).
  destruct (covers range s) eqn:Hc; [|done].
  assert (Hself : In s (preorder [s])).
  { unfold preorder. simpl. by left. }
  destruct (Range.isEqual (DocumentSymbol.selectionRange s) range) eqn:Heq.
  - intros [= <-]. repeat split; try done. by left.
  - pose proof (findSymbolAtRange_sound_if range ch IH) as Hch. simpl.
    destruct (findSymbolAtRange ch range) as [found'|].
    + intros [= <-]. destruct Hch as (H1 & H2 & H3). repeat split; try done.
      unfold preorder. simpl. rewrite app_nil_r. right. exact H1.
    + intros [= <-]. repeat split; try done. by right.
Qed.

(** X16. The symbol found for a range is a symbol of the outline whose
    selection range is the range or whose range contains it, and it is an
    exact match or has no child that passes this test; nothing is found
    only when no top-level symbol passes it. *)
Theorem findSymbolAtRange_finds_innermost_on_first_path symbols range :
  match findSymbolAtRange symbols range with
  | Some found =>
      In found (preorder symbols)
      /\ covers range found = true
      /\ (Range.isEqual (DocumentSymbol.selectionRange found) range = true
          \/ forallb (fun c => negb (covers range c)) (DocumentSymbol.children found) = true)
  | None => forallb (fun s => negb (covers range s)) symbols = true
  end.
Proof.
  apply findSymbolAtRange_sound_if, Forall_forall.
  intros s _. apply findSymbolAtRangeIn_sound.
Qed.

Lemma siblingsApart_cons s rest :
  siblingsApart (s :: rest) = true ->
  Forall (fun r => apart (DocumentSymbol.range s) (DocumentSymbol.range r) = true) rest
  /\ siblingsApart rest = true.
Proof.
  simpl. intros [Hs Hrest]%andb_true_iff. split; [|done].
  apply Forall_forall. intros r Hr%list_elem_of_In.
  rewrite forallb_forall in Hs. by apply Hs.
Qed.

Lemma wellNested_unfold s :
  wellNested s =
  Range.contains (DocumentSymbol.range s) (DocumentSymbol.selectionRange s)
  && siblingsApart (DocumentSymbol.children s)
  && forallb (fun c => Range.contains (DocumentSymbol.range s) (DocumentSymbol.range c)
                       && wellNested c) (DocumentSymbol.children s).
Proof.
  destruct s as [n k r sr ch]. reflexivity.
Qed.

(** In a well-nested outline the range of a symbol holds the range and
    the selection range of everything below it. *)
Lemma wellNested_holds s :
  wellNested s = true ->
  forall m, In m (preorderSymbol s) ->
    Range.contains (DocumentSymbol.range s) (DocumentSymbol.selectionRange m) = true
    /\ wellNested m = true.
Proof.
  induction s as [n k r sr ch IH] using DocumentSymbol_forest_ind.
  set (s := DocumentSymbol.mk n k r sr ch).
  intros Hwn m. rewrite preorderSymbol_unfold. intros [<-|Hin].
  - split; [|done]. rewrite wellNested_unfold in Hwn.
    by apply andb_true_iff in Hwn as [[? _]%andb_true_iff _].
  - rewrite wellNested_unfold in Hwn.
    apply andb_true_iff in Hwn as [_ Hch]. simpl in Hch, Hin.
    unfold preorder in Hin. apply in_flat_map in Hin as (c & Hc & Hm).
    rewrite forallb_forall in Hch. apply Hch in Hc as Hcc.
    apply andb_true_iff in Hcc as [Hrc Hwc].
    rewrite Forall_forall in IH.
    destruct (IH c (proj2 (list_elem_of_In _ _) Hc) Hwc m Hm) as [Hcm Hwm].
    split; [|done]. simpl. by eapply contains_trans.
Qed.

Lemma findSymbolAtRange_exact_if symbols :
  siblingsApart symbols = true -> forallb wellNested symbols = true ->
  Forall (fun s => forall m, wellNested s = true -> In m (preorderSymbol s) ->
            exists found,
              findSymbolAtRangeIn (DocumentSymbol.selectionRange m) s = Some found
              /\ DocumentSymbol.selectionRange found = DocumentSymbol.selectionRange m)
         symbols ->
  forall m, In m (preorder symbols) ->
    exists found,
      findSymbolAtRange symbols (DocumentSymbol.selectionRange m) = Some found
      /\ DocumentSymbol.selectionRange found = DocumentSymbol.selectionRange m.
Proof.
  intros Hapart Hwn Hall. induction Hall as [|s rest Hs _ IH]; intros m Hin; [done|].
  apply siblingsApart_cons in Hapart as [Hs_apart Hrest_apart].
  simpl in Hwn. apply andb_true_iff in Hwn as [Hws Hwrest].
  unfold preorder in Hin. simpl in Hin. apply in_app_or in Hin as [Hin|Hin].
  - simpl. destruct (Hs m Hws Hin) as (found & Hf & Hsel). rewrite Hf. by exists found.
  - simpl.
    assert (Hnone : findSymbolAtRangeIn (DocumentSymbol.selectionRange m) s = None).
    { rewrite findSymbolAtRangeIn_unfold.
      apply in_flat_map in Hin as (r & Hr & Hm).
      rewrite forallb_forall in Hwrest. pose proof (Hwrest r Hr) as Hwr.
      destruct (wellNested_holds r Hwr m Hm) as [Hrm _].
      rewrite Forall_forall in Hs_apart.
      pose proof (Hs_apart r (proj2 (list_elem_of_In _ _) Hr)) as Hsr.
      assert (Hc : covers (DocumentSymbol.selectionRange m) s = false); [|by rewrite Hc].
      unfold covers. apply orb_false_iff. split.
      - apply not_true_iff_false. intros Heq%Range_isEqual_eq.
        assert (Hss : Range.contains (DocumentSymbol.range s)
                        (DocumentSymbol.selectionRange s) = true).
        { rewrite wellNested_unfold in Hws.
          by apply andb_true_iff in Hws as [[? _]%andb_true_iff _]. }
        rewrite Heq in Hss. by eapply apart_not_both.
      - apply not_true_iff_false. intros Hc. by eapply apart_not_both. }
    rewrite Hnone. by apply IH.
Qed.

Lemma findSymbolAtRangeIn_exact s :
  forall m, wellNested s = true -> In m (preorderSymbol s) ->
    exists found,
      findSymbolAtRangeIn (DocumentSymbol.selectionRange m) s = Some found
      /\ DocumentSymbol.selectionRange found = DocumentSymbol.selectionRange m.
Proof.
  induction s as [n k r sr ch IH] using DocumentSymbol_forest_ind.
  set (s := DocumentSymbol.mk n k r sr ch).
  intros m Hwn Hin. rewrite findSymbolAtRangeIn_unfold.
  destruct (wellNested_holds s Hwn m Hin) as [Hsm _].
  assert (Hc : covers (DocumentSymbol.selectionRange m) s = true).
  { unfold covers. rewrite Hsm. apply orb_true_r. }
  rewrite Hc.
  destruct (Range.isEqual (DocumentSymbol.selectionRange s)
              (DocumentSymbol.selectionRange m)) eqn:Heq.
  - apply Range_isEqual_eq in Heq. by exists s.
  - rewrite preorderSymbol_unfold in Hin. destruct Hin as [<-|Hin].
    { assert (Hrefl : Range.isEqual (DocumentSymbol.selectionRange s)
                        (DocumentSymbol.selectionRange s) = true)
        by by apply Range_isEqual_eq.
      congruence. }
    rewrite wellNested_unfold in Hwn.
    apply andb_true_iff in Hwn as [[_ Hap]%andb_true_iff Hch]. simpl in Hap, Hch, Hin.
    change (DocumentSymbol.children s) with ch.
    assert (Hwch : forallb wellNested ch = true).
    { apply forallb_forall. intros c Hc'. rewrite forallb_forall in Hch.
      by apply Hch, andb_true_iff in Hc' as [_ ?]. }
    destruct (findSymbolAtRange_exact_if ch Hap Hwch IH m Hin) as (found & Hf & Hsel).
    rewrite Hf. by exists found.
Qed.

(** X17. In an outline whose ranges are nested and whose siblings do not
    overlap, looking up the selection range of a symbol finds a symbol
    with that selection range. *)
Theorem findSymbolAtRange_of_selection_range symbols m :
  wellNestedOutline symbols = true ->
  In m (preorder symbols) ->
  exists found,
    findSymbolAtRange symbols (DocumentSymbol.selectionRange m) = Some found
    /\ In found (preorder symbols)
    /\ DocumentSymbol.selectionRange found = DocumentSymbol.selectionRange m.
Proof.
  intros [Hap Hwn]%andb_true_iff Hin.
  assert (Hall : Forall (fun s => forall m, wellNested s = true -> In m (preorderSymbol s) ->
            exists found,
              findSymbolAtRangeIn (DocumentSymbol.selectionRange m) s = Some found
              /\ DocumentSymbol.selectionRange found = DocumentSymbol.selectionRange m)
         symbols).
  { apply Forall_forall. intros s _ m'. apply findSymbolAtRangeIn_exact. }
  destruct (findSymbolAtRange_exact_if symbols Hap Hwn Hall m Hin) as (found & Hfound & Hsel).
  exists found. split; [done|]. split; [|done].
  pose proof (findSymbolAtRange_sound_if (DocumentSymbol.selectionRange m) symbols) as H.
  rewrite Hfound in H. apply H, Forall_forall.
  intros s _. apply findSymbolAtRangeIn_sound.
Qed.

Lemma findSymbolAtRange_of_selection_range_witness :
  findSymbolAtRange OpenExample.symbols (DocumentSymbol.selectionRange OpenExample.openNow)
  = Some OpenExample.openNow.
Proof.
  destruct (findSymbolAtRange_of_selection_range OpenExample.symbols OpenExample.openNow)
    as (found & Hfound & _ & _); [reflexivity|simpl; tauto|].
  rewrite Hfound. vm_compute in Hfound. symmetry. exact Hfound.
Defined.

End DefinitionSymbol.

Section CursorFacts.

Import MethodCallAnalysisService.
Import RecallsCommands.

Lemma findMethodAtPositionIn_eq position symbol :
  findMethodAtPositionIn position symbol
  = findContainingMethodIn (Range.new position position) symbol.
Proof.
  assert (Hnew : Range.new position position = Range.mk position position).
  { unfold Range.new.
    assert (H : Position.isBefore position position = false); [|by rewrite H].
    unfold Position.isBefore. rewrite Nat.ltb_irrefl, Nat.ltb_irrefl. simpl.
    apply andb_false_r. }
  rewrite Hnew.
  induction symbol as [n k r sr ch IH] using DocumentSymbol_forest_ind.
  simpl. unfold Range.contains. simpl. rewrite andb_diag.
  destruct (_ && _); [done|].
  induction IH as [|c ch' Hc _ IHch]; [done|].
  rewrite Hc. destruct (findContainingMethodIn _ c); [done|]. apply IHch.
Qed.

(** X22. The method at the cursor is the first symbol, in the pre-order of
    the outline, that is a method, function or constructor and whose
    range contains the position; it is the symbol the backward analyser
    attributes a reference at that position to. *)
Theorem findMethodAtPosition_is_outermost position symbols :
  findMethodAtPosition position symbols
  = List.find (fun symbol =>
       WorkspaceSymbolCache.isMethodSymbol symbol
       && Range.containsPosition (DocumentSymbol.range symbol) position)
      (preorder symbols)
  /\ findMethodAtPosition position symbols
     = findContainingMethod (Range.new position position) symbols.
Proof.
  assert (Heq : findMethodAtPosition position symbols
                = findContainingMethod (Range.new position position) symbols).
  { induction symbols as [|s rest IH]; simpl; [done|].
    by rewrite findMethodAtPositionIn_eq, IH. }
  split; [|done]. rewrite Heq, findContainingMethod_preorder.
  assert (Hnew : Range.new position position = Range.mk position position).
  { unfold Range.new.
    assert (H : Position.isBefore position position = false); [|by rewrite H].
    unfold Position.isBefore. rewrite Nat.ltb_irrefl, Nat.ltb_irrefl. simpl.
    apply andb_false_r. }
  rewrite Hnew. generalize (preorder symbols). intros l.
  induction l as [|x l IH]; simpl; [done|].
  unfold encloses at 1, Range.contains. simpl. rewrite andb_diag.
  destruct (_ && _); [done|]. apply IH.
Qed.

End CursorFacts.

(** ** Shape of the backward tree *)

Section BackwardShape.

Import MethodCallAnalysisService.

Lemma sameNode_refl a : sameNode a a.
Proof. by repeat split. Qed.

Lemma sameNode_trans a b c : sameNode a b -> sameNode b c -> sameNode a c.
Proof. unfold sameNode. intros (?&?&?&?&?) (?&?&?&?&?). repeat split; congruence. Qed.

Lemma sameNode_push c x : sameNode (MethodCallInfo.push c x) c.
Proof. by repeat split. Qed.

Lemma sameNode_methodKeyOf a b : sameNode a b -> methodKeyOf a = methodKeyOf b.
Proof. unfold methodKeyOf. by intros (-> & -> & -> & _). Qed.

Lemma expandedCallers_unfold t :
  expandedCallers t =
  (if hasChildren t then [methodKeyOf t] else []) ++ expandedBelow t.
Proof.
  unfold expandedCallers, expandedBelow. rewrite callNodes_unfold. simpl.
  assert (H : forall l,
             map methodKeyOf (List.filter hasChildren (flat_map callNodes l))
             = flat_map (fun c => map methodKeyOf (List.filter hasChildren (callNodes c))) l).
  { induction l as [|c l IH]; simpl; [done|].
    by rewrite List.filter_app, map_app, IH. }
  destruct (hasChildren t); simpl; by rewrite H.
Qed.

Lemma expandedBelow_push c x :
  expandedBelow (MethodCallInfo.push c x) = expandedBelow c ++ expandedCallers x.
Proof.
  unfold expandedBelow. simpl. rewrite flat_map_app. simpl. by rewrite app_nil_r.
Qed.

Lemma expandedCallers_leaf c : MethodCallInfo.children c = [] -> expandedCallers c = [].
Proof.
  intros Hc. rewrite expandedCallers_unfold. unfold hasChildren, expandedBelow.
  by rewrite Hc.
Qed.

Lemma callNodes_push c x :
  callNodes (MethodCallInfo.push c x)
  = MethodCallInfo.push c x :: flat_map callNodes (MethodCallInfo.children c) ++ callNodes x.
Proof.
  rewrite callNodes_unfold. simpl. rewrite flat_map_app. simpl. by rewrite app_nil_r.
Qed.

Lemma BackwardInv_refl c d s : BackwardInv (c, s) c d s.
Proof.
  split; simpl; [apply sameNode_refl|apply grows_refl|done|].
  intros Hc. rewrite (expandedCallers_leaf c Hc). split; [constructor|intros k []].
Qed.

Lemma LoopInv_start c0 d s1 s2 : cacheOnly s1 s2 -> LoopInv (c0, s2) c0 d s1.
Proof.
  intros Hc. split; simpl; [apply sameNode_refl|by apply cacheOnly_grows|done|].
  intros Hleaf. unfold expandedBelow. rewrite Hleaf. split; [constructor|intros k []].
Qed.

Lemma LoopInv_cacheOnly c s s' c0 d s1 :
  cacheOnly s s' -> LoopInv (c, s) c0 d s1 -> LoopInv (c, s') c0 d s1.
Proof.
  intros Hc [H1 H2 H3 H4]. simpl in *. split; simpl; try done.
  - eapply grows_trans; [exact H2|by apply cacheOnly_grows].
  - intros Hleaf. destruct (H4 Hleaf) as [Hnd Hk]. split; [done|].
    intros k Hin. destruct (Hk k Hin) as [Hout Hin']. split; [done|].
    destruct Hc as [_ Hp]. by rewrite Hp.
Qed.

Lemma sameCaller_key callingMethod uri x child :
  sameNode child
    (MethodCallInfo.mk (DocumentSymbol.name callingMethod) uri
       (DocumentSymbol.selectionRange callingMethod) (MethodCallInfo.callerMethodName child)
       (MethodCallInfo.depth child) []) ->
  callerKey x = callerKey child -> sameCaller callingMethod uri x = true.
Proof.
  intros (Hn & Hu & Hr & _) [= Hkn Hku Hkr]. simpl in *. unfold sameCaller.
  rewrite Hkn, Hn, Hku, Hu, Hkr, Hr.
  rewrite !bool_decide_eq_true_2 by done. simpl.
  unfold Range.isEqual, Position.isEqual. by rewrite !Nat.eqb_refl.
Qed.

Section Expansion.

Variable recur : MethodCallInfo.t -> nat -> Service.t -> MethodCallInfo.t * Service.t.
Variable w : World.t.
Hypothesis recur_inv : forall c d s, BackwardInv (recur c d s) c d s.

Lemma visitLocation_inv uri symbols d c s location c0 s1 :
  LoopInv (c, s) c0 d s1 ->
  LoopInv (visitLocation recur uri symbols d (c, s) location) c0 d s1.
Proof.
  intros Hacc. unfold visitLocation.
  destruct (findContainingMethod _ symbols) as [callingMethod|]; [|done].
  destruct (List.find _ _) eqn:Hfind; [done|].
  set (child := MethodCallInfo.mk _ _ _ _ _ _).
  pose proof (recur_inv child (d + 1) s) as [Hsame Hgrows Hshape Hkeys].
  destruct (recur child (d + 1) s) as [expanded s']. simpl in *.
  destruct Hacc as [A1 A2 A3 A4]. simpl in *.
  split; cbn [fst snd].
  - eapply sameNode_trans; [apply sameNode_push|done].
  - by eapply grows_trans.
  - intros Hd Hc0. specialize (A3 Hd Hc0).
    rewrite callNodes_push. rewrite callNodes_unfold in A3.
    apply Forall_cons in A3 as [[Hnd Hch] Hrest].
    apply Forall_cons. split; [|apply Forall_app; split; [done|]].
    + split; simpl.
      * rewrite map_app. simpl. apply NoDup_app. split; [done|].
        split; [|apply NoDup_singleton].
        intros k Hk Hk'. apply list_elem_of_In in Hk.
        apply list_elem_of_singleton in Hk'. subst k.
        apply in_map_iff in Hk as (x & Hkey & Hx).
        pose proof (find_none _ _ Hfind x Hx) as Hno.
        rewrite (sameCaller_key callingMethod uri x expanded) in Hno; [done| |done].
        destruct Hsame as (H1 & H2 & H3 & H4 & H5). by repeat split.
      * apply Forall_app. split; [done|]. constructor; [|constructor].
        destruct Hsame as (H1 & H2 & H3 & H4 & H5).
        destruct A1 as (B1 & B2 & B3 & B4 & B5).
        rewrite H5, H4. simpl. split; [lia|done].
    + apply Hshape; [done|]. unfold child.
      constructor; [|constructor]. split; simpl; constructor.
  - intros Hleaf. destruct (A4 Hleaf) as [Hnd Hk].
    destruct (Hkeys eq_refl) as [Hnd' Hk'].
    rewrite expandedBelow_push. split.
    + apply NoDup_app. split; [done|]. split; [|done].
      intros k Hin%list_elem_of_In Hin'%list_elem_of_In.
      destruct (Hk k Hin) as [_ Hseen]. destruct (Hk' k Hin') as [Hfresh _]. done.
    + intros k [Hin|Hin]%in_app_or.
      * destruct (Hk k Hin) as [Hout Hseen]. split; [done|].
        destruct Hgrows as [_ Hsub]. by apply Hsub.
      * destruct (Hk' k Hin) as [Hfresh Hseen]. split; [|done].
        intros Hold. apply Hfresh. destruct A2 as [_ Hsub]. by apply Hsub.
Qed.

Lemma fold_visitLocation_inv uri symbols d locations c s c0 s1 :
  LoopInv (c, s) c0 d s1 ->
  LoopInv (fold_left (visitLocation recur uri symbols d) locations (c, s)) c0 d s1.
Proof.
  revert c s. induction locations as [|location locations IH]; intros c s Hacc; [done|].
  cbn [fold_left]. pose proof (visitLocation_inv uri symbols d c s location c0 s1 Hacc) as Hstep.
  destruct (visitLocation recur uri symbols d (c, s) location) as [c' s'].
  by apply IH.
Qed.

Lemma visitFile_inv d c s entry c0 s1 :
  LoopInv (c, s) c0 d s1 ->
  LoopInv (visitFile recur w d (c, s) entry) c0 d s1.
Proof.
  intros Hacc. unfold visitFile. destruct entry as [uri locations].
  destruct (List.filter _ locations) as [|l0 ls]; [done|].
  pose proof (getSymbolsForFile_cacheOnly w uri s) as Hc.
  destruct (getSymbolsForFile w uri s) as [symbols s']. simpl in Hc.
  pose proof (LoopInv_cacheOnly c s s' c0 d s1 Hc Hacc) as Hacc'.
  destruct symbols as [|sym symbols]; [done|].
  by apply fold_visitLocation_inv.
Qed.

Lemma fold_visitFile_inv d entries c s c0 s1 :
  LoopInv (c, s) c0 d s1 ->
  LoopInv (fold_left (visitFile recur w d) entries (c, s)) c0 d s1.
Proof.
  revert c s. induction entries as [|entry entries IH]; intros c s Hacc; [done|].
  cbn [fold_left]. pose proof (visitFile_inv d c s entry c0 s1 Hacc) as Hstep.
  destruct (visitFile recur w d (c, s) entry) as [c' s'].
  by apply IH.
Qed.

End Expansion.

Lemma findMethodReferencesWorkspace_inv fuel w refs :
  forall c d s, BackwardInv (findMethodReferencesWorkspace fuel w refs c d s) c d s.
Proof.
  induction fuel as [|fuel IH]; intros c d s; simpl; [apply BackwardInv_refl|].
  destruct (Service.maxDepth s <=? d); [apply BackwardInv_refl|].
  case_bool_decide as Hseen; [apply BackwardInv_refl|].
  set (s1 := Service.addProcessed (methodKeyOf c) s).
  destruct (searchWorkspaceForMethod_total w refs (MethodCallInfo.methodName c) s1)
    as (found & s2 & Hsearch & Hc).
  rewrite Hsearch.
  assert (Hs1 : grows s s1) by apply grows_addProcessed.
  assert (Hs2 : grows s s2) by (eapply grows_trans; [done|by apply cacheOnly_grows]).
  assert (Hleaf : BackwardInv (c, s2) c d s).
  { split; simpl; [apply sameNode_refl|done|done|].
    intros Hl. rewrite (expandedCallers_leaf c Hl). split; [constructor|intros k []]. }
  destruct found as [|ref found]; [done|].
  pose proof (fold_visitFile_inv (findMethodReferencesWorkspace fuel w refs) w IH d
                (groupByFile (ref :: found)) c s2 c s1 (LoopInv_start c d s1 s2 Hc))
    as [L1 L2 L3 L4].
  destruct (fold_left _ _ _) as [c' s']. simpl in *.
  split; simpl; try done.
  - exact (grows_trans s s1 s' Hs1 L2).
  - intros Hl. destruct (L4 Hl) as [Hnd Hk].
    rewrite expandedCallers_unfold, (sameNode_methodKeyOf c' c L1).
    assert (Hnew : ~ In (methodKeyOf c) (expandedBelow c')).
    { intros Hin. destruct (Hk _ Hin) as [Hout _]. apply Hout. unfold s1. simpl.
      apply elem_of_union_l. by apply elem_of_singleton. }
    split.
    + destruct (hasChildren c'); simpl; [|done].
      apply NoDup_cons. split; [|done]. by rewrite list_elem_of_In.
    + intros k Hin.
      assert (Hcase : k = methodKeyOf c \/ In k (expandedBelow c')).
      { destruct (hasChildren c'); simpl in Hin; [|by right].
        destruct Hin as [<-|Hin]; [by left|by right]. }
      destruct Hcase as [->|Hin'].
      * split; [done|]. destruct L2 as [_ Hsub]. apply Hsub. unfold s1. simpl.
        apply elem_of_union_l. by apply elem_of_singleton.
      * destruct (Hk k Hin') as [Hout Hseen']. split; [|done].
        intros Hold. apply Hout. unfold s1. simpl. by apply elem_of_union_r.
Qed.

(** X18. A backward run always returns a tree: the root is the analysed method
    at depth 0 without a caller, and under every node the children are
    pairwise different in name, file and range, one level deeper than the
    node, and record the name of the node as the method they call. *)
Theorem analyzeMethodCalls_returns_a_tree_of_callers w refs methodSymbol uri s :
  exists root s',
    analyzeMethodCalls w refs methodSymbol uri s = (Fulfilled (Some root), s')
    /\ MethodCallInfo.methodName root = DocumentSymbol.name methodSymbol
    /\ MethodCallInfo.uri root = uri
    /\ MethodCallInfo.range root = DocumentSymbol.selectionRange methodSymbol
    /\ MethodCallInfo.callerMethodName root = None
    /\ MethodCallInfo.depth root = 0
    /\ Forall (fun n =>
         NoDup (map callerKey (MethodCallInfo.children n))
         /\ Forall (fun c => MethodCallInfo.depth c = MethodCallInfo.depth n + 1
                             /\ MethodCallInfo.callerMethodName c
                                = Some (MethodCallInfo.methodName n))
                   (MethodCallInfo.children n))
         (callNodes root).
Proof.
  rewrite analyzeMethodCalls_unfold. cbv zeta.
  set (root0 := MethodCallInfo.mk _ _ _ _ _ _).
  destruct (findMethodReferencesWorkspace_inv (Service.maxDepth (Service.clearProcessed s))
              w refs root0 0 (Service.clearProcessed s)) as [(H1 & H2 & H3 & H4 & H5) _ Hshape _].
  eexists _, _. split; [reflexivity|].
  rewrite H1, H2, H3, H4, H5. repeat split.
  apply Hshape; [done|]. unfold root0. rewrite callNodes_unfold. simpl.
  constructor; [|constructor]. split; simpl; constructor.
Qed.

(** X19. In the tree of a backward run the nodes that were given callers have
    pairwise different method keys, all of them recorded as visited when
    the run ends; the run leaves the configured depth as it is. *)
Theorem analyzeMethodCalls_expands_each_method_once w refs methodSymbol uri s :
  exists root s',
    analyzeMethodCalls w refs methodSymbol uri s = (Fulfilled (Some root), s')
    /\ NoDup (expandedCallers root)
    /\ (forall k, In k (expandedCallers root) -> k ∈ Service.processedMethods s')
    /\ Service.maxDepth s' = Service.maxDepth s.
Proof.
  rewrite analyzeMethodCalls_unfold. cbv zeta.
  set (root0 := MethodCallInfo.mk _ _ _ _ _ _).
  destruct (findMethodReferencesWorkspace_inv (Service.maxDepth (Service.clearProcessed s))
              w refs root0 0 (Service.clearProcessed s)) as [_ [Hm _] _ Hkeys].
  destruct (Hkeys eq_refl) as [Hnd Hk].
  eexists _, _. split; [reflexivity|]. split; [done|]. split; [|done].
  intros k Hin. by destruct (Hk k Hin).
Qed.

End BackwardShape.

(** ** Grouping of references and tree views *)

Section GroupFacts.

Import MethodCallAnalysisService.

Lemma filter_snoc {A} (p : A -> bool) (l : list A) (x : A) :
  List.filter p (l ++ [x]) = List.filter p l ++ (if p x then [x] else []).
Proof. by rewrite List.filter_app. Qed.

Lemma addToFile_keys ref callsByFile :
  map (fun group : Uri.t * list Location.t => Uri.toString group.1) (addToFile ref callsByFile)
  = map (fun group => Uri.toString group.1) callsByFile
    ++ (if bool_decide (Uri.toString (Location.uri ref)
                        ∈ map (fun group : Uri.t * list Location.t => Uri.toString group.1)
                              callsByFile)
        then [] else [Uri.toString (Location.uri ref)]).
Proof.
  induction callsByFile as [|[u locs] others IH]; [done|].
  cbn [addToFile map fst].
  destruct (decide (Uri.toString u = Uri.toString (Location.uri ref))) as [Heq|Hne].
  - rewrite (bool_decide_eq_true_2 (Uri.toString u = _)) by done. cbn [map fst].
    rewrite bool_decide_eq_true_2; [by rewrite app_nil_r|]. rewrite Heq. by left.
  - rewrite (bool_decide_eq_false_2 (Uri.toString u = _)) by done. cbn [map fst].
    rewrite IH. simpl. f_equal.
    erewrite bool_decide_ext; [reflexivity|].
    rewrite elem_of_cons. split; [by right|].
    intros [Hu|Hin]; [congruence|done].
Qed.

Lemma addToFile_In ref callsByFile group :
  NoDup (map (fun group : Uri.t * list Location.t => Uri.toString group.1) callsByFile) ->
  In group (addToFile ref callsByFile) ->
  (In group callsByFile /\ Uri.toString group.1 <> Uri.toString (Location.uri ref))
  \/ (exists locations, In (group.1, locations) callsByFile
        /\ Uri.toString group.1 = Uri.toString (Location.uri ref)
        /\ group.2 = locations ++ [ref])
  \/ (group = (Location.uri ref, [ref])
      /\ Uri.toString (Location.uri ref)
         ∉ map (fun group : Uri.t * list Location.t => Uri.toString group.1) callsByFile).
Proof.
  induction callsByFile as [|[u locs] others IH]; simpl; intros Hnd Hin.
  - destruct Hin as [<-|[]]. right. right. split; [done|]. by intros ?%elem_of_nil.
  - apply NoDup_cons in Hnd as [Hu Hnd]. case_bool_decide as Heq.
    + destruct Hin as [<-|Hin].
      * right. left. exists locs. simpl. split; [by left|done].
      * left. split; [by right|]. intros Hk. apply Hu. rewrite Heq, <- Hk.
        apply list_elem_of_In, in_map_iff. by exists group.
    + destruct Hin as [<-|Hin]; [left; split; [by left|done]|].
      destruct (IH Hnd Hin) as [[H1 H2]|[(locations & H1 & H2 & H3)|[H1 H2]]].
      * left. split; [by right|done].
      * right. left. exists locations. split; [by right|done].
      * right. right. split; [done|]. rewrite elem_of_cons. intros [Hk|Hk]; [|done].
        simpl in Hk. congruence.
Qed.

Lemma addToFile_GroupsOf processed callsByFile ref :
  GroupsOf processed callsByFile ->
  GroupsOf (processed ++ [ref]) (addToFile ref callsByFile).
Proof.
  intros [Hnd Hmem Hall].
  assert (Hnew : Uri.toString (Location.uri ref)
                 ∉ map (fun group : Uri.t * list Location.t => Uri.toString group.1)
                       callsByFile ->
                 List.filter (inFile (Uri.toString (Location.uri ref))) processed = []).
  { intros Hout. apply filter_none. intros r Hr. unfold inFile.
    apply bool_decide_eq_false_2. intros Heq. apply Hout.
    rewrite <- Heq. apply list_elem_of_In. by apply Hall. }
  rewrite Forall_forall in Hmem.
  split.
  - rewrite addToFile_keys. case_bool_decide as Hin; [by rewrite app_nil_r|].
    apply NoDup_app. split; [done|]. split; [|apply NoDup_singleton].
    intros k Hk Hk'. apply list_elem_of_singleton in Hk'. by subst k.
  - apply Forall_forall. intros group Hin%list_elem_of_In.
    rewrite filter_snoc. unfold inFile at 2.
    destruct (addToFile_In ref callsByFile group Hnd Hin)
      as [[H1 H2]|[(locations & H1 & H2 & H3)|[H1 H2]]].
    + destruct (Hmem group (proj2 (list_elem_of_In _ _) H1)) as [Hl Hne].
      rewrite bool_decide_eq_false_2 by congruence. by rewrite app_nil_r.
    + destruct (Hmem _ (proj2 (list_elem_of_In _ _) H1)) as [Hl Hne]. simpl in Hl.
      rewrite bool_decide_eq_true_2 by congruence. rewrite H3, Hl.
      split; [done|]. by intros [_ ?]%app_eq_nil.
    + subst group. simpl. rewrite (Hnew H2), bool_decide_eq_true_2; done.
  - intros r Hr. rewrite addToFile_keys. apply in_or_app.
    apply in_app_or in Hr as [Hr|[<-|[]]]; [left; by apply Hall|].
    case_bool_decide as Hin; [left; by apply list_elem_of_In|right; by left].
Qed.

Lemma fold_addToFile_GroupsOf references :
  forall processed callsByFile,
    GroupsOf processed callsByFile ->
    GroupsOf (processed ++ references)
      (fold_left (fun callsByFile ref => addToFile ref callsByFile) references callsByFile).
Proof.
  induction references as [|ref references IH]; intros processed callsByFile HG; simpl.
  - by rewrite app_nil_r.
  - replace (processed ++ ref :: references) with ((processed ++ [ref]) ++ references)
      by (by rewrite <- app_assoc).
    by apply IH, addToFile_GroupsOf.
Qed.

(** X20. Grouping the references by file gives one group for each file that
    has a reference: no file has two groups, a group holds exactly the
    references of its file in the order they were met, and no group is
    empty. *)
Theorem groupByFile_partitions_by_file references :
  NoDup (map (fun group => Uri.toString group.1) (groupByFile references))
  /\ Forall (fun group =>
       group.2 = List.filter (inFile (Uri.toString group.1)) references
       /\ group.2 <> []) (groupByFile references)
  /\ (forall ref, In ref references ->
        In (Uri.toString (Location.uri ref))
           (map (fun group => Uri.toString group.1) (groupByFile references))).
Proof.
  destruct (fold_addToFile_GroupsOf references [] []) as [H1 H2 H3].
  - split; [constructor|constructor|intros ref []].
  - done.
Qed.

Lemma findMethodCallsInSymbol_preorder methodName uri symbol :
  findMethodCallsInSymbol methodName uri symbol
  = map (fun s => Location.mk uri (DocumentSymbol.selectionRange s))
      (List.filter (fun s => includes (DocumentSymbol.name s) methodName)
         (preorderSymbol symbol)).
Proof.
  induction symbol as [n k r sr ch IH] using DocumentSymbol_forest_ind.
  rewrite preorderSymbol_unfold. simpl.
  assert (Hch : (fix each (l : list DocumentSymbol.t) : list Location.t :=
                   match l with
                   | [] => []
                   | c :: l' => findMethodCallsInSymbol methodName uri c ++ each l'
                   end) ch
                = map (fun s => Location.mk uri (DocumentSymbol.selectionRange s))
                    (List.filter (fun s => includes (DocumentSymbol.name s) methodName)
                       (preorder ch))).
  { induction IH as [|c ch' Hc _ IHch]; [done|].
    unfold preorder. simpl. rewrite List.filter_app, map_app, Hc. f_equal. apply IHch. }
  rewrite Hch. by destruct (includes n methodName).
Qed.

(** X21. The search by symbol name adds, for every symbol of the outline whose
    name contains the method name, the selection range of that symbol, in
    the pre-order of the outline: it lists declarations with a similar
    name, whatever their kind, not call sites. *)
Theorem findMethodCallsInSymbols_lists_names_not_calls methodName symbols uri locations :
  findMethodCallsInSymbols methodName symbols uri locations
  = locations
    ++ map (fun s => Location.mk uri (DocumentSymbol.selectionRange s))
         (List.filter (fun s => includes (DocumentSymbol.name s) methodName)
            (preorder symbols)).
Proof.
  unfold findMethodCallsInSymbols. f_equal.
  induction symbols as [|s symbols IH]; [done|].
  unfold preorder. simpl.
  by rewrite List.filter_app, map_app, findMethodCallsInSymbol_preorder, IH.
Qed.

End GroupFacts.

Section ViewFacts.

Import MethodCallTreeDataProvider.
Import InternalMethodCallTreeDataProvider.
Import InternalMethodCallAnalysisService.

Lemma countTotalCalls_unfold t :
  MethodCallTreeDataProvider.countTotalCalls t
  = length (MethodCallInfo.children t)
    + list_sum (map MethodCallTreeDataProvider.countTotalCalls (MethodCallInfo.children t)).
Proof.
  destruct t as [n u r c d ch]. simpl. f_equal.
  induction ch as [|x ch IH]; simpl; [done|]. by rewrite IH.
Qed.

Lemma collectFiles_unfold t files :
  collectFiles t files
  = fold_left (fun files child => collectFiles child files) (MethodCallInfo.children t)
      ({[Uri.toString (MethodCallInfo.uri t)]} ∪ files).
Proof.
  destruct t as [n u r c d ch]. simpl.
  generalize ({[Uri.toString u]} ∪ files). induction ch as [|x ch IH]; intros acc; simpl;
    [done|]. apply IH.
Qed.

Lemma collectFiles_spec t :
  forall files,
    collectFiles t files
    = list_to_set (map (fun n => Uri.toString (MethodCallInfo.uri n)) (callNodes t)) ∪ files.
Proof.
  assert (Hlist : forall l,
    Forall (fun t => forall files,
              collectFiles t files
              = list_to_set (map (fun n => Uri.toString (MethodCallInfo.uri n)) (callNodes t))
                ∪ files) l ->
    forall files,
      fold_left (fun files child => collectFiles child files) l files
      = list_to_set (map (fun n => Uri.toString (MethodCallInfo.uri n))
                       (flat_map callNodes l)) ∪ files).
  { induction 1 as [|x l Hx _ IH]; intros files; simpl; [by rewrite union_empty_l_L|].
    rewrite IH, Hx, map_app, list_to_set_app_L.
    generalize (list_to_set (map (fun n => Uri.toString (MethodCallInfo.uri n))
                               (callNodes x)) : gset string).
    generalize (list_to_set (map (fun n => Uri.toString (MethodCallInfo.uri n))
                               (flat_map callNodes l)) : gset string).
    intros B A. by rewrite (union_comm_L A B), (union_assoc_L B A files). }
  induction t as [n u r c d ch IH] using MethodCallInfo_forest_ind.
  intros files. rewrite collectFiles_unfold, callNodes_unfold. simpl.
  rewrite (Hlist ch IH).
  generalize (list_to_set (map (fun n => Uri.toString (MethodCallInfo.uri n))
                             (flat_map callNodes ch)) : gset string).
  intros B. by rewrite (union_comm_L {[Uri.toString u]} B), (union_assoc_L B _ files).
Qed.


Lemma size_list_to_set_le (l : list string) :
  size (list_to_set l : gset string) <= length l.
Proof.
  induction l as [|x l IH].
  - change (size (∅ : gset string) <= 0). by rewrite size_empty.
  - change (size ({[x]} ∪ list_to_set l : gset string) <= S (length l)).
    rewrite size_union_alt, size_singleton.
    assert (Hsub : (list_to_set l : gset string) ∖ {[x]} ⊆ list_to_set l).
    { by apply subseteq_difference_l. }
    apply subseteq_size in Hsub. lia.
Qed.

Lemma countTotalCalls_callNodes t :
  MethodCallTreeDataProvider.countTotalCalls t
  = length (flat_map callNodes (MethodCallInfo.children t)).
Proof.
  induction t as [n u r c d ch IH] using MethodCallInfo_forest_ind.
  rewrite countTotalCalls_unfold. simpl.
  induction IH as [|x l Hx _ IHl]; simpl; [done|].
  rewrite length_app, (callNodes_unfold x). simpl. rewrite <- Hx. lia.
Qed.

(** X23. The summary of a caller tree counts every node but the root; the
    files collected are those of the nodes of the tree, added to the set
    given; so the number of files is at least one and at most the number
    of nodes. *)
Theorem view_counts_callers_and_files t :
  MethodCallTreeDataProvider.countTotalCalls t + 1 = length (callNodes t)
  /\ (forall files,
        collectFiles t files
        = list_to_set (map (fun n => Uri.toString (MethodCallInfo.uri n)) (callNodes t))
          ∪ files)
  /\ 1 <= countUniqueFiles t <= MethodCallTreeDataProvider.countTotalCalls t + 1.
Proof.
  assert (Hlen : MethodCallTreeDataProvider.countTotalCalls t + 1 = length (callNodes t)).
  { rewrite countTotalCalls_callNodes, callNodes_unfold. simpl. lia. }
  split; [done|]. split; [apply collectFiles_spec|].
  unfold countUniqueFiles. rewrite collectFiles_spec, union_empty_r_L.
  split.
  - rewrite callNodes_unfold. simpl. rewrite size_union_alt, size_singleton. lia.
  - rewrite Hlen. etrans; [apply size_list_to_set_le|]. by rewrite length_map.
Qed.

Lemma lastSegment_cons sep a rest i :
  lastIndexOf sep rest = Some i ->
  lastSegment sep (String a rest) = lastSegment sep rest.
Proof. unfold lastSegment. simpl. by intros ->. Qed.

Lemma substring_all s : String.substring 0 (String.length s) s = s.
Proof. induction s as [|a s IH]; simpl; [done|]. by rewrite IH. Qed.

Lemma lastIndexOf_app sep dir file :
  lastIndexOf sep file = None ->
  lastIndexOf sep (dir +:+ String sep file) = Some (String.length dir).
Proof.
  intros Hfile. induction dir as [|a dir IH]; simpl.
  - rewrite Hfile. by rewrite Ascii.eqb_refl.
  - by rewrite IH.
Qed.

Lemma lastSegment_app sep dir file :
  lastIndexOf sep file = None ->
  lastSegment sep (dir +:+ String sep file) = file.
Proof.
  intros Hfile. induction dir as [|a dir IH].
  - unfold lastSegment. simpl. rewrite Hfile, Ascii.eqb_refl. simpl.
    rewrite Nat.sub_0_r. apply substring_all.
  - change (String a dir +:+ String sep file) with (String a (dir +:+ String sep file)).
    by rewrite (lastSegment_cons _ _ _ _ (lastIndexOf_app sep dir file Hfile)).
Qed.

(** X24. For a file outside every workspace folder the label is never empty;
    it is what follows the last backslash of the path when that is not
    empty, and the whole path, not the file name, when the path has no
    backslash. *)
Theorem getRelativeFilePath_outside_workspace uri :
  getRelativeFilePath None uri <> EmptyString
  /\ (forall dir file,
        Uri.fsPath uri = dir +:+ String "\"%char file ->
        lastIndexOf "\"%char file = None -> file <> EmptyString ->
        getRelativeFilePath None uri = file)
  /\ (lastIndexOf "\"%char (Uri.fsPath uri) = None -> Uri.fsPath uri <> EmptyString ->
      getRelativeFilePath None uri = Uri.fsPath uri).
Proof.
  unfold getRelativeFilePath. split; [|split].
  - destruct (lastSegment "\"%char (Uri.fsPath uri)); [|done].
    by destruct (lastSegment "/"%char (Uri.fsPath uri)).
  - intros dir file -> Hfile Hne. rewrite (lastSegment_app _ _ _ Hfile).
    by destruct file.
  - intros Hnone Hne. unfold lastSegment. rewrite Hnone.
    by destruct (Uri.fsPath uri).
Qed.

Lemma collectCall_internalNodes t : collectCall t = internalNodes t.
Proof.
  reflexivity.
Qed.

Lemma getAllMethodCalls_forestNodes result :
  getAllMethodCalls (InternalMethodCallTreeDataProvider.mk (Some result))
  = forestNodes (InternalCallAnalysisResult.calls result).
Proof.
  unfold getAllMethodCalls, forestNodes. simpl.
  induction (InternalCallAnalysisResult.calls result) as [|x l IH]; simpl; [done|].
  by rewrite collectCall_internalNodes, IH.
Qed.

Lemma countCallsOf_internalNodes t : countCallsOf t = length (internalNodes t).
Proof.
  induction t as [n u r du dr d ch res rec IH] using InternalMethodCallInfo_forest_ind.
  simpl. f_equal. induction IH as [|x l Hx _ IHl]; [done|].
  by rewrite length_app, Hx, IHl.
Qed.

Lemma countTotalCalls_forestNodes calls :
  countTotalCalls calls = length (forestNodes calls).
Proof.
  unfold countTotalCalls, forestNodes.
  induction calls as [|x l IH]; simpl; [done|].
  by rewrite length_app, countCallsOf_internalNodes, IH.
Qed.

Lemma filter_split_length {A} (p : A -> bool) (l : list A) :
  length (List.filter p l) + length (List.filter (fun x => negb (p x)) l) = length l.
Proof.
  induction l as [|x l IH]; simpl; [done|]. destruct (p x); simpl; lia.
Qed.

Lemma max_depth_bound (l : list nat) x :
  In x l -> x <= fold_right Nat.max 0 l.
Proof.
  induction l as [|y l IH]; simpl; [done|]. intros [->|Hin]; [lia|].
  specialize (IH Hin). lia.
Qed.

Lemma max_depth_attained (l : list nat) :
  l <> [] -> In (fold_right Nat.max 0 l) l.
Proof.
  induction l as [|y l IH]; [done|]. intros _. simpl.
  destruct l as [|z l]; [left; simpl; lia|].
  destruct (Nat.max_spec y (fold_right Nat.max 0 (z :: l))) as [[_ ->]|[_ ->]].
  - right. by apply IH.
  - by left.
Qed.

(** X25. The statistics of a shown result count the calls as the analysis
    service does; resolved and unresolved calls add up to the total; the
    deepest level reported bounds the depth of every call, is the depth of
    one of them when there are calls, and is 0 when there are none. *)
Theorem getStatistics_counts_every_call result :
  exists stats,
    getStatistics (InternalMethodCallTreeDataProvider.mk (Some result)) = Some stats
    /\ totalCalls stats = countTotalCalls (InternalCallAnalysisResult.calls result)
    /\ resolvedCalls stats + unresolvedCalls stats = totalCalls stats
    /\ recursiveCalls stats <= totalCalls stats
    /\ (forall call,
          In call (getAllMethodCalls (InternalMethodCallTreeDataProvider.mk (Some result))) ->
          InternalMethodCallInfo.depth call <= maxDepthReached stats)
    /\ (InternalCallAnalysisResult.calls result <> [] ->
        exists call,
          In call (getAllMethodCalls (InternalMethodCallTreeDataProvider.mk (Some result)))
          /\ InternalMethodCallInfo.depth call = maxDepthReached stats)
    /\ (InternalCallAnalysisResult.calls result = [] ->
        totalCalls stats = 0 /\ maxDepthReached stats = 0).
Proof.
  unfold getStatistics. cbn [analysisResult]. eexists. split; [reflexivity|].
  cbn [totalCalls resolvedCalls unresolvedCalls recursiveCalls maxDepthReached].
  set (allCalls := getAllMethodCalls _).
  split; [|split; [|split; [|split; [|split]]]].
  - unfold allCalls. by rewrite getAllMethodCalls_forestNodes, countTotalCalls_forestNodes.
  - apply filter_split_length.
  - pose proof (filter_split_length InternalMethodCallInfo.isRecursive allCalls). lia.
  - intros call Hin. apply max_depth_bound. by apply in_map.
  - intros Hne.
    assert (Hall : map InternalMethodCallInfo.depth allCalls <> []).
    { unfold allCalls. rewrite getAllMethodCalls_forestNodes.
      destruct (InternalCallAnalysisResult.calls result) as [|x l]; [done|].
      unfold forestNodes. simpl. by rewrite (internalNodes_unfold x). }
    apply max_depth_attained, in_map_iff in Hall as (call & Hd & Hin). by exists call.
  - intros Hnil. unfold allCalls. rewrite getAllMethodCalls_forestNodes, Hnil. done.
Qed.

(** X26. Shown in the view, the result of a forward analysis has as total the
    count the service stored with it, and reports a deepest level below
    the configured depth. *)
Theorem getStatistics_of_an_analysis w methodSymbol uri s result s' :
  analyzeInternalMethodCalls w methodSymbol uri s = (Fulfilled (Some result), s') ->
  exists stats,
    getStatistics (setAnalysisResult (Some result) (InternalMethodCallTreeDataProvider.mk None))
    = Some stats
    /\ rootMethod stats = DocumentSymbol.name methodSymbol
    /\ totalCalls stats = InternalCallAnalysisResult.totalCallsFound result
    /\ maxDepthReached stats <= Service.maxDepth s - 1
    /\ (totalCalls stats <> 0 -> maxDepthReached stats < Service.maxDepth s).
Proof.
  unfold analyzeInternalMethodCalls, tryCatch.
  rewrite analyzeInternalMethodCallsTry_unfold. simpl.
  destruct (World.openTextDocument w uri) as [document|] eqn:Hdoc; [|done].
  destruct (findMethodCallsInText_ok (Service.maxDepth s) w
              (TextDocument.getText document (Some (DocumentSymbol.range methodSymbol)))
              (DocumentSymbol.range methodSymbol) uri 0 (Service.clearProcessed s))
    as [[Hm _] Hinv].
  destruct (findMethodCallsInText _ _ _ _ _ _ _) as [[calls|] s1]; [|done].
  intros [= <- <-]. specialize (Hinv calls eq_refl).
  destruct Hinv as [_ Hdepth _ _ _]. simpl in Hdepth.
  unfold getStatistics, setAnalysisResult. cbn [analysisResult]. eexists.
  split; [reflexivity|].
  cbn [totalCalls rootMethod maxDepthReached InternalCallAnalysisResult.rootMethod
       InternalCallAnalysisResult.totalCallsFound].
  rewrite getAllMethodCalls_forestNodes. cbn [InternalCallAnalysisResult.calls].
  split; [done|]. split; [by rewrite countTotalCalls_forestNodes|].
  assert (Hmax : forestNodes calls <> [] ->
                 fold_right Nat.max 0 (map InternalMethodCallInfo.depth (forestNodes calls))
                 < Service.maxDepth s).
  { intros Hne.
    assert (Hne' : map InternalMethodCallInfo.depth (forestNodes calls) <> []).
    { by destruct (forestNodes calls). }
    apply max_depth_attained, in_map_iff in Hne' as (call & <- & Hin).
    rewrite List.Forall_forall in Hdepth. by apply Hdepth. }
  split.
  - destruct (forestNodes calls) as [|x l] eqn:Hnodes; [simpl; lia|].
    assert (x :: l <> []) as Hne by done. specialize (Hmax Hne). lia.
  - intros Hne. apply Hmax. intros Hnil. by rewrite Hnil in Hne.
Qed.

Lemma getStatistics_of_an_analysis_witness :
  exists result stats,
    (analyzeInternalMethodCalls CycleExample.world CycleExample.alpha CycleExample.uri
       (CycleExample.service 3)).1 = Fulfilled (Some result)
    /\ getStatistics
         (setAnalysisResult (Some result) (InternalMethodCallTreeDataProvider.mk None))
       = Some stats
    /\ totalCalls stats = InternalCallAnalysisResult.totalCallsFound result
    /\ maxDepthReached stats < 3.
Proof.
  assert (Hrun : exists result s',
            analyzeInternalMethodCalls CycleExample.world CycleExample.alpha
              CycleExample.uri (CycleExample.service 3)
            = (Fulfilled (Some result), s')).
  { vm_compute. by eexists _, _. }
  destruct Hrun as (result & s' & Hrun).
  destruct (getStatistics_of_an_analysis _ _ _ _ _ _ Hrun)
    as (stats & Hstats & _ & Htotal & Hle & _).
  exists result, stats. rewrite Hrun. simpl in Hle.
  repeat split; [done|done|lia].
Defined.

End ViewFacts.

(** ** The calls of a forward result *)

Section CallShape.

Import InternalMethodCallAnalysisService.
Import InternalMethodCallTreeDataProvider.

Lemma colons_app a b : colons (a +:+ b) = colons a + colons b.
Proof. induction a as [|c a IH]; simpl; [done|]. rewrite IH. lia. Qed.

Lemma colons_word s :
  forallb isWordChar (list_ascii_of_string s) = true -> colons s = 0.
Proof.
  induction s as [|c s IH]; simpl; [done|]. intros [Hc Hs]%andb_true_iff.
  rewrite (IH Hs). destruct (Ascii.eqb c ":"%char) eqn:Heq; [|done].
  apply Ascii.eqb_eq in Heq as ->. done.
Qed.

Lemma isIdentifier_word s :
  isIdentifier s = true -> forallb isWordChar (list_ascii_of_string s) = true.
Proof. by destruct s. Qed.

Lemma colons_definition definition methodName :
  2 <= colons (methodKeyOf (Some definition) methodName).
Proof. unfold methodKeyOf. rewrite !colons_app. simpl. lia. Qed.

Lemma colons_unknown methodName :
  isIdentifier methodName = true -> colons (methodKeyOf None methodName) = 1.
Proof.
  intros Hid. unfold methodKeyOf. rewrite colons_app, (colons_word methodName); [done|].
  by apply isIdentifier_word.
Qed.

Lemma definitionKeys_addProcessed definition methodName s :
  definitionKeys s ->
  definitionKeys (Service.addProcessed (methodKeyOf (Some definition) methodName) s).
Proof.
  intros Hs k. cbn [Service.addProcessed Service.processedMethods].
  intros [->%elem_of_singleton|Hk]%elem_of_union.
  - exact (colons_definition definition methodName).
  - by apply Hs.
Qed.

Lemma definitionKeys_same s s' :
  Service.processedMethods s' = Service.processedMethods s ->
  definitionKeys s -> definitionKeys s'.
Proof. intros Heq Hs k. rewrite Heq. apply Hs. Qed.

Lemma matches_are_words text :
  Forall (fun m => forallb isWordChar (list_ascii_of_string (CallMatch.methodName m)) = true)
         (sortByIndex (findAllMethodCallMatches text)).
Proof.
  apply List.Forall_forall. intros m Hin.
  apply (Permutation_in _ (sortByIndex_Permutation _)) in Hin.
  unfold findAllMethodCallMatches in Hin. apply in_app_or in Hin as [Hin|Hin].
  - by destruct (methodCallRegexExec_spec _ true 0 0 [] m eq_refl (fun _ => eq_refl) Hin)
      as [_ (before & spaces & after & _ & _ & _ & Hw & _)].
  - by destruct (propertyMethodRegexExec_spec _ 0 0 [] m eq_refl Hin)
      as [_ (before & spaces & after & _ & _ & _ & Hw & _)].
Qed.

Lemma forestNodes_singleton n :
  forestNodes [n] = n :: forestNodes (InternalMethodCallInfo.children n).
Proof. unfold forestNodes at 1; cbn [flat_map]. by rewrite app_nil_r, internalNodes_unfold. Qed.

Section Scan.

Variable recur : string -> Range.t -> Uri.t -> nat -> Async (list InternalMethodCallInfo.t).
Variable w : World.t.
Hypothesis recur_shape : shapeOk recur.

Lemma expandDefinition_shape definition currentDepth s :
  definitionKeys s ->
  exists children s',
    expandDefinition recur w definition currentDepth s = (Fulfilled children, s')
    /\ definitionKeys s' /\ Forall callShape (forestNodes children).
Proof.
  intros Hs.
  unfold expandDefinition, tryCatch, mbind, Async_bind, bind, openTextDocument.
  destruct (World.openTextDocument w (Location.uri definition)) as [defDocument|];
    [|unfold throw, ret; exists [], s; repeat split; [done|constructor]].
  unfold ret at 1, total.
  pose proof (getSymbolsForFile_cacheOnly w (Location.uri definition) s) as [_ Hc].
  destruct (getSymbolsForFile w (Location.uri definition) s) as [symbols s1]. simpl in Hc.
  pose proof (definitionKeys_same s s1 Hc Hs) as Hs1.
  destruct (findSymbolAtRange symbols (Location.range definition)) as [defMethod|];
    [|unfold ret; exists [], s1; repeat split; [done|constructor]].
  destruct (recur_shape
              (TextDocument.getText defDocument (Some (DocumentSymbol.range defMethod)))
              (DocumentSymbol.range defMethod) (Location.uri definition)
              (currentDepth + 1) s1 Hs1) as [Hs2 Hshape].
  destruct (recur _ _ _ _ s1) as [[children|] s2]; simpl in *.
  - unfold mret, Async_ret, ret. exists (tail children), s2. repeat split; [done|].
    eapply sublist_Forall; [apply sublist_forestNodes, tail_sublist|]. by apply Hshape.
  - unfold ret. exists [], s2. repeat split; [done|constructor].
Qed.

Lemma visitMatch_shape document baseRange uri currentDepth m s :
  isIdentifier (CallMatch.methodName m) = true ->
  isBuiltInOrCommon (CallMatch.methodName m) = false ->
  definitionKeys s ->
  exists callInfo s',
    visitMatch recur w document baseRange uri currentDepth m s = (Fulfilled callInfo, s')
    /\ definitionKeys s' /\ Forall callShape (forestNodes [callInfo]).
Proof.
  intros Hid Hkeep Hs. unfold visitMatch.
  set (callRange := Range.new _ _).
  destruct (findMethodDefinition w (CallMatch.methodName m) uri s) as [definition|] eqn:Hdef.
  - case_bool_decide as Hvisited.
    + unfold ret. eexists _, s. repeat split; [done|].
      rewrite forestNodes_singleton. simpl. by repeat constructor.
    + unfold mbind, Async_bind, bind.
      destruct (expandDefinition_shape definition currentDepth
                  (Service.addProcessed
                     (methodKeyOf (Some definition) (CallMatch.methodName m)) s))
        as (children & s' & -> & Hs' & Hshape);
        [by apply definitionKeys_addProcessed|].
      unfold mret, Async_ret, ret. eexists _, s'. repeat split; [done|].
      rewrite forestNodes_singleton. simpl. constructor; [|done]. by repeat split.
  - unfold ret. eexists _, s. repeat split; [done|].
    rewrite forestNodes_singleton. simpl. constructor; [|constructor].
    repeat split; try done. simpl.
    apply bool_decide_eq_false_2. intros Hin%Hs.
    pose proof (colons_unknown _ Hid) as Hone. unfold methodKeyOf in Hone.
    rewrite Hone in Hin. lia.
Qed.

Lemma eachMatch_shape document baseRange uri currentDepth matches :
  Forall (fun m => forallb isWordChar (list_ascii_of_string (CallMatch.methodName m)) = true)
         matches ->
  forall calls s,
    definitionKeys s ->
    exists new s',
      eachMatch recur w document baseRange uri currentDepth matches calls s
        = (Fulfilled (calls ++ new), s')
      /\ definitionKeys s' /\ Forall callShape (forestNodes new).
Proof.
  induction 1 as [|m rest Hm _ IH]; intros calls s Hs; simpl.
  - exists [], s. rewrite app_nil_r. repeat split; [done|constructor].
  - destruct (bool_decide _ || isBuiltInOrCommon _) eqn:Hskip; [by apply IH|].
    apply orb_false_iff in Hskip as [Hne%bool_decide_eq_false Hkeep].
    assert (Hid : isIdentifier (CallMatch.methodName m) = true).
    { unfold isIdentifier. by destruct (CallMatch.methodName m). }
    unfold mbind, Async_bind, bind.
    destruct (visitMatch_shape document baseRange uri currentDepth m s Hid Hkeep Hs)
      as (callInfo & s1 & -> & Hs1 & Hshape1).
    destruct (currentDepth <? 1).
    + by exists [callInfo], s1.
    + destruct (IH (calls ++ [callInfo]) s1 Hs1) as (new & s' & -> & Hs' & Hshape).
      exists (callInfo :: new), s'. rewrite <- app_assoc. repeat split; [done|].
      change (callInfo :: new) with ([callInfo] ++ new).
      rewrite forestNodes_app. apply Forall_app. by split.
Qed.

End Scan.

Lemma findMethodCallsInText_shape fuel w : shapeOk (findMethodCallsInText fuel w).
Proof.
  induction fuel as [|fuel IH]; intros text baseRange uri d s Hs; simpl.
  - split; [done|]. intros calls [= <-]. constructor.
  - destruct (Service.maxDepth s <=? d) eqn:Hdepth; simpl.
    + split; [done|]. intros calls [= <-]. constructor.
    + unfold mbind, Async_bind, bind, openTextDocument.
      destruct (World.openTextDocument w uri) as [document|]; simpl; [|done].
      destruct (eachMatch_shape (findMethodCallsInText fuel w) w IH document baseRange uri d
                  (sortByIndex (findAllMethodCallMatches text)) (matches_are_words text)
                  [] s Hs)
        as (new & s' & -> & Hs' & Hshape).
      simpl. split; [done|]. intros calls [= <-].
      eapply sublist_Forall; [|done].
      apply sublist_forestNodes, removeDuplicateCallsFrom_sublist.
Qed.

(** The calls of a result, with what the scan guarantees of each. *)
Lemma analysis_calls_shape w methodSymbol uri s result s' :
  analyzeInternalMethodCalls w methodSymbol uri s = (Fulfilled (Some result), s') ->
  Forall callShape (forestNodes (InternalCallAnalysisResult.calls result))
  /\ Forall leafIfPruned (forestNodes (InternalCallAnalysisResult.calls result)).
Proof.
  unfold analyzeInternalMethodCalls, tryCatch.
  rewrite analyzeInternalMethodCallsTry_unfold. simpl.
  destruct (World.openTextDocument w uri) as [document|] eqn:Hdoc; [|done].
  assert (Hclear : definitionKeys (Service.clearProcessed s)).
  { intros k Hk. simpl in Hk. by apply elem_of_empty in Hk. }
  destruct (findMethodCallsInText_shape (Service.maxDepth s) w
              (TextDocument.getText document (Some (DocumentSymbol.range methodSymbol)))
              (DocumentSymbol.range methodSymbol) uri 0 (Service.clearProcessed s) Hclear)
    as [_ Hshape].
  destruct (findMethodCallsInText_ok (Service.maxDepth s) w
              (TextDocument.getText document (Some (DocumentSymbol.range methodSymbol)))
              (DocumentSymbol.range methodSymbol) uri 0 (Service.clearProcessed s))
    as [_ Hinv].
  destruct (findMethodCallsInText _ _ _ _ _ _ _) as [[calls|] s1]; [|done].
  intros [= <- <-]. simpl. split; [by apply Hshape|].
  by destruct (Hinv calls eq_refl).
Qed.

Lemma filter_length_le {A} (p q : A -> bool) (l : list A) :
  Forall (fun x => p x = true -> q x = true) l ->
  length (List.filter p l) <= length (List.filter q l).
Proof.
  induction 1 as [|x l Hx _ IH]; simpl; [done|].
  destruct (p x); [rewrite Hx by done; simpl; lia|].
  destruct (q x); simpl; lia.
Qed.

(** X27. Every call of a forward result has as its name an identifier that
    passed the filter; it is resolved exactly when it carries the file and
    the range of a definition; a call without a definition is not flagged
    as recursive and has no children.  So the view reports at most as
    many recursive calls as resolved ones. *)
Theorem forward_calls_are_well_formed w methodSymbol uri s result s' :
  analyzeInternalMethodCalls w methodSymbol uri s = (Fulfilled (Some result), s') ->
  Forall (fun call =>
     isIdentifier (InternalMethodCallInfo.methodName call) = true
     /\ isBuiltInOrCommon (InternalMethodCallInfo.methodName call) = false
     /\ match InternalMethodCallInfo.definitionUri call,
              InternalMethodCallInfo.definitionRange call with
        | Some _, Some _ => InternalMethodCallInfo.isResolved call = true
        | None, None =>
            InternalMethodCallInfo.isResolved call = false
            /\ InternalMethodCallInfo.isRecursive call = false
            /\ InternalMethodCallInfo.children call = []
        | _, _ => False
        end)
    (getAllMethodCalls (InternalMethodCallTreeDataProvider.mk (Some result)))
  /\ forall stats,
       getStatistics (InternalMethodCallTreeDataProvider.mk (Some result)) = Some stats ->
       recursiveCalls stats <= resolvedCalls stats.
Proof.
  intros Hrun. destruct (analysis_calls_shape _ _ _ _ _ _ Hrun) as [Hshape Hleaf].
  rewrite getAllMethodCalls_forestNodes.
  rewrite List.Forall_forall in Hshape, Hleaf.
  split.
  - apply List.Forall_forall. intros call Hin.
    destruct (Hshape call Hin) as (Hid & Hkeep & Hdef).
    pose proof (Hleaf call Hin) as Hpruned. unfold leafIfPruned in Hpruned.
    repeat split; try done.
    destruct (InternalMethodCallInfo.definitionUri call),
             (InternalMethodCallInfo.definitionRange call); try done.
    destruct Hdef as [Hres Hrec]. repeat split; try done. apply Hpruned. by right.
  - intros stats. unfold getStatistics. cbn [analysisResult]. intros [= <-].
    cbn [recursiveCalls resolvedCalls]. rewrite getAllMethodCalls_forestNodes.
    apply filter_length_le, List.Forall_forall. intros call Hin Hrec.
    destruct (Hshape call Hin) as (_ & _ & Hdef).
    destruct (InternalMethodCallInfo.definitionUri call),
             (InternalMethodCallInfo.definitionRange call); try done.
    destruct Hdef as [_ Hno]. by rewrite Hrec in Hno.
Qed.

Lemma forward_calls_witness :
  exists result stats,
    (analyzeInternalMethodCalls CycleExample.world CycleExample.alpha CycleExample.uri
       (CycleExample.service 3)).1 = Fulfilled (Some result)
    /\ getStatistics (InternalMethodCallTreeDataProvider.mk (Some result)) = Some stats
    /\ recursiveCalls stats <= resolvedCalls stats.
Proof.
  assert (Hrun : exists result s',
            analyzeInternalMethodCalls CycleExample.world CycleExample.alpha
              CycleExample.uri (CycleExample.service 3)
            = (Fulfilled (Some result), s')).
  { vm_compute. by eexists _, _. }
  destruct Hrun as (result & s' & Hrun).
  destruct (forward_calls_are_well_formed _ _ _ _ _ _ Hrun) as [_ Hle].
  exists result. eexists. rewrite Hrun. split; [done|]. split; [reflexivity|].
  by apply Hle.
Defined.

End CallShape.
